(** * Extraction pipeline of the legacy-document-transformation demo

    A shallow embedding of the three extraction scripts

      - [scripts/extract/extract-controls.py]
      - [scripts/extract/extract-entities.py]
      - [scripts/extract/extract-metadata.py]

    and of the summary each of them computes in its [main], together with
    the conversion loops of

      - [scripts/convert/run-markitdown.py]
      - [scripts/convert/run-docling.py]

    Text is modelled as a list of 8-bit characters, and the model is that
    of ASCII text: letters are [A-Z] and [a-z], digits are [0-9], white
    space is the ASCII white space, and the case mappings change ASCII
    letters only, one character to one.  On ASCII text ([ascii_text])
    these are the classes and mappings of Python's [str] and [re].
    Outside ASCII Python follows Unicode, which the model does not have:
    a property that rests on a character class or a case mapping is
    stated for ASCII text, and the other properties relate results of the
    same matcher and the same mappings.  Python dictionaries are association lists kept in
    insertion order, which is the order [json.dumps] emits them in.  The
    directory tree is a function from a tool name to the sorted listing of
    its [markdown] directory, each file carrying either its text or the
    error raised on reading it. *)

From Stdlib Require Import Ascii String.
From Stdlib Require Import List Arith Bool Lia.
From Stdlib Require Import Sorting.Sorted Sorting.Permutation.
Import ListNotations.

Set Implicit Arguments.

Local Open Scope string_scope.
Local Open Scope list_scope.
Local Open Scope nat_scope.

(** ** Characters and strings *)

Definition str := list ascii.

Definition txt (s : string) : str := list_ascii_of_string s.

Definition code (a : ascii) : nat := nat_of_ascii a.

Definition in_range (lo hi : nat) (a : ascii) : bool :=
  (lo <=? code a) && (code a <=? hi).

(** ASCII text: every character is below 128.  The classes and the case
    mappings that follow are those of Python on ASCII text; on other text
    Python's [\d], [\w], [\s], [re.IGNORECASE], [str.strip],
    [str.split], [str.upper], [str.lower] and [str.title] follow Unicode
    and differ from them. *)
Definition is_ascii (a : ascii) : bool := code a <? 128.

Definition ascii_text (s : str) : Prop := forallb is_ascii s = true.

(** [[0-9]], [[A-Z]], [[a-z]]; these are also [\d] and the letters of
    ASCII text. *)
Definition is_digit (a : ascii) : bool := in_range 48 57 a.
Definition is_upper (a : ascii) : bool := in_range 65 90 a.
Definition is_lower (a : ascii) : bool := in_range 97 122 a.
Definition is_alpha (a : ascii) : bool := is_upper a || is_lower a.

(** [\w] on ASCII text: letters, digits and the underscore. *)
Definition is_word (a : ascii) : bool :=
  is_alpha a || is_digit a || (code a =? 95).

(** White space of [str.split], [str.strip] and [\s] on ASCII text. *)
Definition is_space (a : ascii) : bool :=
  in_range 9 13 a || in_range 28 32 a.

Definition newline : ascii := ascii_of_nat 10.

(** [str.upper] and [str.lower] on ASCII text, character by character. *)
Definition to_upper (a : ascii) : ascii :=
  if is_lower a then ascii_of_nat (code a - 32) else a.

Definition to_lower (a : ascii) : ascii :=
  if is_upper a then ascii_of_nat (code a + 32) else a.

Definition upper (s : str) : str := map to_upper s.
Definition lower (s : str) : str := map to_lower s.

Definition ascii_eqb (a b : ascii) : bool := Ascii.eqb a b.

Fixpoint str_eqb (s t : str) : bool :=
  match s, t with
  | [], [] => true
  | a :: s', b :: t' => ascii_eqb a b && str_eqb s' t'
  | _, _ => false
  end.

(** Python orders strings by code point, lexicographically. *)
Fixpoint str_leb (s t : str) : bool :=
  match s, t with
  | [], _ => true
  | _ :: _, [] => false
  | a :: s', b :: t' =>
      if code a <? code b then true
      else if code b <? code a then false
      else str_leb s' t'
  end.

Definition str_in (s : str) (l : list str) : bool := existsb (str_eqb s) l.

(** [str.title()] on ASCII text: a cased character is upper-cased when it
    follows an uncased one (or starts the string) and lower-cased
    otherwise. *)
Fixpoint title_from (prev_cased : bool) (s : str) : str :=
  match s with
  | [] => []
  | a :: t =>
      (if prev_cased then to_lower a else to_upper a)
        :: title_from (is_alpha a) t
  end.

Definition title (s : str) : str := title_from false s.

Fixpoint lstrip (s : str) : str :=
  match s with
  | a :: t => if is_space a then lstrip t else s
  | [] => []
  end.

Definition rstrip (s : str) : str := rev (lstrip (rev s)).

(** [str.strip()] *)
Definition strip (s : str) : str := rstrip (lstrip s).

(** The slice [s[i:j]] for [0 <= i] and [0 <= j]. *)
Definition slice (s : str) (i j : nat) : str := firstn (j - i) (skipn i s).

(** [s.split('\n')] *)
Fixpoint split_lines_from (cur : str) (s : str) : list str :=
  match s with
  | [] => [rev cur]
  | a :: t =>
      if ascii_eqb a newline then rev cur :: split_lines_from [] t
      else split_lines_from (a :: cur) t
  end.

Definition split_lines (s : str) : list str := split_lines_from [] s.

(** [len(s.split())]: the number of maximal runs of non-space characters. *)
Fixpoint count_words_from (in_word : bool) (s : str) : nat :=
  match s with
  | [] => 0
  | a :: t =>
      if is_space a then count_words_from false t
      else (if in_word then 0 else 1) + count_words_from true t
  end.

Definition word_count (s : str) : nat := count_words_from false s.

(** [kw in s] *)
Fixpoint prefixb (p s : str) : bool :=
  match p, s with
  | [], _ => true
  | a :: p', b :: s' => ascii_eqb a b && prefixb p' s'
  | _ :: _, [] => false
  end.

Fixpoint contains (kw s : str) : bool :=
  prefixb kw s ||
  match s with
  | [] => false
  | _ :: t => contains kw t
  end.

(** ** Regular expressions of Python's [re] module

    The patterns of the three scripts use literals, character classes,
    the dot, concatenation, alternation, greedy bounded and unbounded
    repetition, capture groups, [\b], [^] and [$].  A pattern is matched by
    backtracking: [run] lists every way the pattern can match from a
    position, in the order in which the backtracking matcher tries them, so
    that the head of the list is the match [re] reports. *)

Inductive regex : Type :=
| Eps : regex
| Chr : (ascii -> bool) -> regex          (* a class of characters; case folds under IGNORECASE *)
| Any : regex                             (* [.]: anything but a newline *)
| Seq : regex -> regex -> regex
| Alt : regex -> regex -> regex
| Rep : nat -> option nat -> regex -> regex  (* greedy [{lo,hi}] *)
| Grp : nat -> regex -> regex             (* capture group number n *)
| WordB : regex                           (* [\b] *)
| Bol : regex                             (* [^] *)
| Eol : regex.                            (* [$] *)

Record mstate : Type := MState {
  pos : nat;                        (* offset in the subject *)
  prev : option ascii;              (* the character before the offset *)
  rest : str;                       (* the subject from the offset on *)
  caps : list (nat * (nat * nat))   (* captured spans, latest first *)
}.

Definition advance (a : ascii) (t : str) (s : mstate) : mstate :=
  MState (S (pos s)) (Some a) t (caps s).

Definition set_cap (n : nat) (i j : nat) (s : mstate) : mstate :=
  MState (pos s) (prev s) (rest s) ((n, (i, j)) :: caps s).

Definition word_opt (o : option ascii) : bool :=
  match o with Some a => is_word a | None => false end.

Definition at_boundary (s : mstate) : bool :=
  xorb (word_opt (prev s)) (word_opt (hd_error (rest s))).

Definition below (hi : option nat) (cnt : nat) : bool :=
  match hi with Some h => cnt <? h | None => true end.

(** Greedy repetition of [body] between [lo] and [hi] times: one more
    round is tried first, and stopping here comes last.  A round has to
    consume input; [fuel] bounds the number of rounds and is taken larger
    than the input that is left. *)
Fixpoint rep_loop (body : mstate -> list mstate) (lo : nat) (hi : option nat)
    (fuel cnt : nat) (s0 : mstate) {struct fuel} : list mstate :=
  match fuel with
  | 0 => []
  | S fuel' =>
      (if below hi cnt
       then flat_map
              (fun s1 => if pos s0 <? pos s1
                         then rep_loop body lo hi fuel' (S cnt) s1 else [])
              (body s0)
       else [])
      ++ (if lo <=? cnt then [s0] else [])
  end.

Section Engine.

Variable icase : bool.      (* re.IGNORECASE *)
Variable multiline : bool.  (* re.MULTILINE *)

(** A class under [re.IGNORECASE], on ASCII text: a letter is in the
    class when it is in either case. *)
Definition class_test (p : ascii -> bool) (a : ascii) : bool :=
  p a || (icase && (p (to_lower a) || p (to_upper a))).

Definition at_bol (s : mstate) : bool :=
  match prev s with
  | None => true
  | Some a => multiline && ascii_eqb a newline
  end.

Definition at_eol (s : mstate) : bool :=
  match rest s with
  | [] => true
  | a :: t =>
      ascii_eqb a newline &&
      (multiline || match t with [] => true | _ => false end)
  end.

Fixpoint run (r : regex) (s : mstate) {struct r} : list mstate :=
  match r with
  | Eps => [s]
  | Chr p =>
      match rest s with
      | a :: t => if class_test p a then [advance a t s] else []
      | [] => []
      end
  | Any =>
      match rest s with
      | a :: t => if ascii_eqb a newline then [] else [advance a t s]
      | [] => []
      end
  | Seq a b => flat_map (run b) (run a s)
  | Alt a b => run a s ++ run b s
  | Rep lo hi a => rep_loop (run a) lo hi (S (length (rest s))) 0 s
  | Grp n a => map (fun s1 => set_cap n (pos s) (pos s1) s1) (run a s)
  | WordB => if at_boundary s then [s] else []
  | Bol => if at_bol s then [s] else []
  | Eol => if at_eol s then [s] else []
  end.

(** A match object: its span and its captured groups. *)
Record rmatch : Type := RMatch {
  m_start : nat;
  m_end : nat;
  m_caps : list (nat * (nat * nat))
}.

Definition mk_match (i : nat) (e : mstate) : rmatch :=
  RMatch i (pos e) (caps e).

(** [re.match]: the pattern anchored at the start of the subject. *)
Definition re_match (r : regex) (subject : str) : option rmatch :=
  match run r (MState 0 None subject []) with
  | e :: _ => Some (mk_match 0 e)
  | [] => None
  end.

(** [re.finditer]: the non-overlapping matches from left to right.  At
    each offset the pattern is tried unless the offset lies inside the
    previous match ([skip] counts the characters still to pass).  No
    pattern of the scripts matches the empty string. *)
Fixpoint scan (r : regex) (i : nat) (p : option ascii) (s : str)
    (skip : nat) {struct s} : list rmatch :=
  match skip with
  | S k =>
      match s with
      | [] => []
      | a :: t => scan r (S i) (Some a) t k
      end
  | 0 =>
      match run r (MState i p s []) with
      | e :: _ =>
          mk_match i e ::
          match s with
          | [] => []
          | a :: t => scan r (S i) (Some a) t (pred (pos e - i))
          end
      | [] =>
          match s with
          | [] => []
          | a :: t => scan r (S i) (Some a) t 0
          end
      end
  end.

Definition finditer (r : regex) (subject : str) : list rmatch :=
  scan r 0 None subject 0.

(** [re.search]: the leftmost match. *)
Definition re_search (r : regex) (subject : str) : option rmatch :=
  hd_error (finditer r subject).

End Engine.

Fixpoint lookup_cap (n : nat) (c : list (nat * (nat * nat))) : option (nat * nat) :=
  match c with
  | [] => None
  | (k, span) :: c' => if k =? n then Some span else lookup_cap n c'
  end.

(** [match.group(n)]: [None] when the group took no part in the match. *)
Definition group (subject : str) (m : rmatch) (n : nat) : option str :=
  match lookup_cap n (m_caps m) with
  | Some (i, j) => Some (slice subject i j)
  | None => None
  end.

(** The text of a group that takes part in every match of its pattern. *)
Definition or_empty (o : option str) : str :=
  match o with Some s => s | None => [] end.

(** Python's truth value of an optional string, and [o is not None]. *)
Definition truthy (o : option str) : bool :=
  match o with
  | Some (_ :: _) => true
  | _ => false
  end.

Definition is_some (A : Type) (o : option A) : bool :=
  match o with Some _ => true | None => false end.

(** Pattern combinators. *)
Definition chr (a : ascii) : regex := Chr (ascii_eqb a).
Definition lit (s : string) : regex :=
  fold_right (fun a r => Seq (chr a) r) Eps (txt s).
Definition opt (r : regex) : regex := Rep 0 (Some 1) r.
Definition star (r : regex) : regex := Rep 0 None r.
Definition plus (r : regex) : regex := Rep 1 None r.
Definition seqs (l : list regex) : regex := fold_right Seq Eps l.
Definition never : regex := Chr (fun _ => false).
Definition alts (l : list regex) : regex := fold_right Alt never l.
(** [\d] and [\s] on ASCII text. *)
Definition digit : regex := Chr is_digit.
Definition space : regex := Chr is_space.
Definition one_of (s : string) (a : ascii) : bool := existsb (ascii_eqb a) (txt s).
Definition lits (l : list string) : regex := alts (map lit l).

(** ** Dictionaries, sets and sorting

    A [dict] keeps its keys in insertion order, as Python's does: writing
    to a key that is present leaves it in place, a new key goes last. *)

Definition dict (V : Type) : Type := list (str * V).

Fixpoint dict_upd (V : Type) (k : str) (f : option V -> V) (d : dict V) : dict V :=
  match d with
  | [] => [(k, f None)]
  | (k', v) :: d' =>
      if str_eqb k' k then (k', f (Some v)) :: d'
      else (k', v) :: dict_upd k f d'
  end.

Fixpoint dict_get (V : Type) (k : str) (d : dict V) : option V :=
  match d with
  | [] => None
  | (k', v) :: d' => if str_eqb k' k then Some v else dict_get k d'
  end.

Definition keys (V : Type) (d : dict V) : list str := map fst d.

(** [d[k] += n] on a [defaultdict(int)] *)
Definition dict_add (k : str) (n : nat) (d : dict nat) : dict nat :=
  dict_upd k (fun o => match o with Some v => v + n | None => n end) d.

(** [d[k].append(x)] on a [defaultdict(list)] *)
Definition dict_append (V : Type) (k : str) (x : V) (d : dict (list V)) : dict (list V) :=
  dict_upd k (fun o => match o with Some l => l ++ [x] | None => [x] end) d.

(** A [set] of strings, as the list of its elements without repetition. *)
Definition set_add (x : str) (s : list str) : list str :=
  if str_in x s then s else s ++ [x].

Definition to_set (l : list str) : list str :=
  fold_left (fun s x => set_add x s) l [].

(** [sorted]: a stable sort by insertion. *)
Section Sort.

Variable A : Type.
Variable leb : A -> A -> bool.

Fixpoint insert_sorted (x : A) (l : list A) : list A :=
  match l with
  | [] => [x]
  | y :: l' => if leb x y then x :: l else y :: insert_sorted x l'
  end.

End Sort.

Definition sorted_strs (l : list str) : list str :=
  fold_right (insert_sorted str_leb) [] l.

(** Tuples [(key, count)] compare by key, then by count. *)
Definition item_leb (x y : str * nat) : bool :=
  if str_eqb (fst x) (fst y) then snd x <=? snd y else str_leb (fst x) (fst y).

Definition sorted_items (d : dict nat) : dict nat :=
  fold_right (insert_sorted item_leb) [] d.

(** ** The directory tree *)

Record file : Type := File {
  f_name : str;            (* [filepath.name] *)
  f_path : str;            (* [str(filepath)] *)
  f_read : str + str       (* the text, or the message of the exception *)
}.

(** [None] when [<tool>/markdown] does not exist, else its [*.md] files in
    sorted order. *)
Definition tree : Type := str -> option (list file).

Definition TOOLS : list str := [txt "pandoc"; txt "markitdown"; txt "docling"].

(** The loop of each [main] over the tools and their files. *)
Definition walk (A : Type) (extract : file -> str -> list A) (fs : tree) : list A :=
  flat_map
    (fun tool =>
       match fs tool with
       | Some files => flat_map (fun f => extract f tool) files
       | None => []
       end)
    TOOLS.

(** ** extract-controls.py *)

Module Controls.

(** [r'\b([A-Z]{2})-(\d{1,2})(?:\((\d+)\))?(?:\.([a-z]))?'], with
    [re.IGNORECASE] *)
Definition CONTROL_PATTERN : regex :=
  seqs [ WordB;
         Grp 1 (Rep 2 (Some 2) (Chr is_upper));
         chr "-";
         Grp 2 (Rep 1 (Some 2) digit);
         opt (seqs [chr "("; Grp 3 (plus digit); chr ")"]);
         opt (seqs [chr "."; Grp 4 (Chr is_lower)]) ].

Definition CONTROL_FAMILIES : dict str :=
  [ (txt "AC", txt "Access Control");
    (txt "AT", txt "Awareness and Training");
    (txt "AU", txt "Audit and Accountability");
    (txt "CA", txt "Assessment, Authorization, and Monitoring");
    (txt "CM", txt "Configuration Management");
    (txt "CP", txt "Contingency Planning");
    (txt "IA", txt "Identification and Authentication");
    (txt "IR", txt "Incident Response");
    (txt "MA", txt "Maintenance");
    (txt "MP", txt "Media Protection");
    (txt "PE", txt "Physical and Environmental Protection");
    (txt "PL", txt "Planning");
    (txt "PM", txt "Program Management");
    (txt "PS", txt "Personnel Security");
    (txt "PT", txt "PII Processing and Transparency");
    (txt "RA", txt "Risk Assessment");
    (txt "SA", txt "System and Services Acquisition");
    (txt "SC", txt "System and Communications Protection");
    (txt "SI", txt "System and Information Integrity");
    (txt "SR", txt "Supply Chain Risk Management") ].

Record control : Type := Control {
  control_id : str;
  control_family : str;
  control_family_name : str;
  base_control : str;
  has_enhancement : bool;
  enhancement_number : option str;
  source_document : str;
  source_path : str;
  conversion_tool : str;
  source_line : nat;
  source_column : nat;
  context_snippet : str
}.

(** The four groups of a match, as the loop body reads them. *)
Record parts : Type := Parts {
  p_family : str;               (* [match.group(1).upper()] *)
  p_number : str;               (* [match.group(2)] *)
  p_enhancement : option str;   (* [match.group(3)] *)
  p_part : option str           (* [match.group(4)] *)
}.

Definition parts_of (line : str) (m : rmatch) : parts :=
  Parts (upper (or_empty (group line m 1)))
        (or_empty (group line m 2))
        (group line m 3)
        (group line m 4).

Definition build_id (p : parts) : str :=
  (p_family p ++ txt "-" ++ p_number p)
  ++ (if truthy (p_enhancement p)
      then txt "(" ++ or_empty (p_enhancement p) ++ txt ")" else [])
  ++ (if truthy (p_part p)
      then txt "." ++ lower (or_empty (p_part p)) else []).

Definition family_name (family : str) : str :=
  match dict_get family CONTROL_FAMILIES with
  | Some n => n
  | None => txt "Unknown"
  end.

Definition control_of (f : file) (tool : str) (line_num : nat) (line : str)
    (m : rmatch) : control :=
  let p := parts_of line m in
  let start := m_start m - 50 in
  let stop := Nat.min (length line) (m_end m + 100) in
  Control (build_id p)
          (p_family p)
          (family_name (p_family p))
          (p_family p ++ txt "-" ++ p_number p)
          (is_some (p_enhancement p))
          (p_enhancement p)
          (f_name f)
          (f_path f)
          tool
          line_num
          (m_start m)
          (strip (slice line start stop)).

Definition line_matches (line : str) : list rmatch :=
  finditer true false CONTROL_PATTERN line.

(** [enumerate(lines, 1)] *)
Fixpoint enumerate_from (A : Type) (n : nat) (l : list A) : list (nat * A) :=
  match l with
  | [] => []
  | x :: l' => (n, x) :: enumerate_from (S n) l'
  end.

Definition controls_of_text (f : file) (tool : str) (content : str) : list control :=
  flat_map
    (fun nl => map (control_of f tool (fst nl) (snd nl)) (line_matches (snd nl)))
    (enumerate_from 1 (split_lines content)).

Definition extract_controls_from_file (f : file) (tool : str) : list control :=
  match f_read f with
  | inr _ => []
  | inl content => controls_of_text f tool content
  end.

Record summary : Type := Summary {
  total_references : nat;
  unique_controls : nat;
  by_family : dict nat;
  by_tool : dict nat;
  by_document : dict nat;
  controls_found_by_all_tools : list str;
  control_families_covered : list str
}.

Record tallies : Type := Tallies {
  t_family : dict nat;
  t_control : dict (list str);
  t_tool : dict nat;
  t_document : dict nat
}.

Definition tally (t : tallies) (c : control) : tallies :=
  Tallies (dict_add (control_family c) 1 (t_family t))
          (dict_append (control_id c) (conversion_tool c) (t_control t))
          (dict_add (conversion_tool c) 1 (t_tool t))
          (dict_add (source_document c) 1 (t_document t)).

Definition tally_all (all_controls : list control) : tallies :=
  fold_left tally all_controls (Tallies [] [] [] []).

Definition controls_all_tools (by_control : dict (list str)) : list str :=
  map fst (filter (fun kv => length (to_set (snd kv)) =? 3) by_control).

Definition summarize (all_controls : list control) : summary :=
  let t := tally_all all_controls in
  Summary (length all_controls)
          (length (to_set (keys (t_control t))))
          (sorted_items (t_family t))
          (t_tool t)
          (t_document t)
          (sorted_strs (controls_all_tools (t_control t)))
          (sorted_strs (keys (t_family t))).

Definition all_controls (fs : tree) : list control :=
  walk extract_controls_from_file fs.

Definition main (fs : tree) : list control * summary :=
  (all_controls fs, summarize (all_controls fs)).

End Controls.

(** ** extract-entities.py *)

Module Entities.

(** [\b(...)\b] around the one capture group of an entity pattern. *)
Definition entity (r : regex) : regex := seqs [WordB; Grp 1 r; WordB].

Definition alnum_or (extra : string) (a : ascii) : bool :=
  is_alpha a || is_digit a || one_of extra a.

Definition ENTITY_PATTERNS : list (str * list regex) :=
  [ (txt "role",
     [ entity (lits ["CISO"; "CTO"; "CIO"; "CEO"; "CFO"]);
       entity (seqs [lit "Chief ";
                     alts [lit "Information "; lit "Security ";
                           lit "Technology "; Eps];
                     lit "Officer"]);
       entity (lits ["System Administrator"; "SysAdmin"; "Admin"]);
       entity (seqs [lit "Security ";
                     lits ["Analyst"; "Engineer"; "Architect"; "Manager"]]);
       entity (lits ["Authorizing Official"; "AO"]);
       entity (alts [seqs [lit "Information System Security ";
                           lits ["Officer"; "Manager"]];
                     lit "ISSO"; lit "ISSM"]);
       entity (seqs [lit "SOC "; lits ["Analyst"; "Manager"; "Team"]]);
       entity (lits ["Incident Response Team"; "IRT"]) ]);
    (txt "organization",
     [ entity (lits ["US-CERT"; "CISA"; "FedRAMP"; "GSA"; "NIST"; "OMB"; "DHS"]);
       entity (lits ["Security Operations Center"; "SOC"]);
       entity (lits ["PMO"; "Program Management Office"]) ]);
    (txt "system",
     [ entity (lits ["AWS"; "Azure"; "GCP"; "Google Cloud"]);
       entity (lits ["Splunk"; "CloudWatch"; "GuardDuty"]);
       entity (lits ["Okta"; "Active Directory"; "AD"; "LDAP"]);
       entity (lits ["ServiceNow"; "Jira"; "GitHub"; "GitLab"]);
       entity (lits ["Terraform"; "Ansible"; "Kubernetes"; "Docker"]);
       entity (lits ["Qualys"; "Nessus"; "Tenable"]) ]);
    (txt "standard",
     [ entity (seqs [lit "NIST "; opt (lit "SP "); lit "800-"; plus digit;
                     opt (Chr is_upper)]);
       entity (seqs [lit "FedRAMP "; lits ["Moderate"; "High"; "Low"]]);
       entity (seqs [lit "FIPS ";
                     alts [seqs [lit "140-"; Chr (one_of "23")];
                           lit "199"; lit "200"]]);
       entity (seqs [lit "ISO "; lits ["27001"; "27002"; "27017"; "27018"]]);
       entity (seqs [lit "SOC "; Chr (one_of "12")]);
       entity (lit "CIS Benchmark");
       entity (seqs [lit "PCI"; Chr (one_of "- "); lit "DSS"]);
       entity (lits ["HIPAA"; "GDPR"; "CCPA"]) ]);
    (txt "crypto_module",
     [ entity (seqs [lit "FIPS 140-"; Chr (one_of "23"); lit " ";
                     alts [seqs [lit "Level "; Chr (one_of "1234")];
                           lit "validated"]]);
       entity (alts [lit "OpenSSL"; lit "BoringSSL";
                     seqs [lit "AWS"; opt (Chr (one_of "- ")); lit "KMS"]]);
       entity (alts [seqs [lit "TLS ";
                           plus (Chr (fun a => is_digit a || one_of "." a))];
                     lit "SSL"]);
       entity (alts [seqs [lit "AES-"; lits ["128"; "256"]];
                     seqs [lit "RSA-"; lits ["2048"; "4096"]]]) ]);
    (txt "email",
     [ entity (seqs [plus (Chr (alnum_or "._%+-")); chr "@";
                     plus (Chr (alnum_or ".-")); chr ".";
                     Rep 2 None (Chr is_alpha)]) ]);
    (txt "url",
     [ entity (seqs [lit "http"; opt (chr "s"); lit "://";
                     plus (Chr (fun a => negb (is_space a || one_of ")" a)))]) ]);
    (txt "timeline",
     [ entity (seqs [lit "within ";
                     alts [plus digit; lit "one"; lit "two"; lit "three";
                           lit "twenty-four"];
                     lit " ";
                     alts [seqs [lit "hour"; opt (chr "s")];
                           seqs [lit "day"; opt (chr "s")];
                           seqs [lit "week"; opt (chr "s")];
                           seqs [lit "month"; opt (chr "s")]]]);
       entity (seqs [alts [plus digit; lit "quarterly"; lit "annually";
                           lit "monthly"; lit "weekly"; lit "daily"];
                     lit " ";
                     lits ["review"; "audit"; "assessment"]]) ]) ].

Record entity_record : Type := Entity {
  entity_type : str;
  value : str;
  occurrences : nat;
  source_document : str;
  conversion_tool : str;
  sample_contexts : list str
}.

Definition ACRONYM_TYPES : list str :=
  [txt "role"; txt "organization"; txt "system"; txt "standard"].

Definition normalize (entity_type : str) (value : str) : str :=
  let normalized := strip value in
  if str_in entity_type ACRONYM_TYPES
  then (if length normalized <=? 5 then upper normalized else title normalized)
  else normalized.

(** [s.replace('\n', ' ')] *)
Definition flatten_newlines (s : str) : str :=
  map (fun a => if ascii_eqb a newline then " "%char else a) s.

Definition context_of (content : str) (m : rmatch) : str :=
  let start := m_start m - 30 in
  let stop := Nat.min (length content) (m_end m + 30) in
  strip (flatten_newlines (slice content start stop)).

Definition pattern_matches (content : str) (pattern : regex) : list rmatch :=
  finditer true false pattern content.

(** Every match of every pattern of one entity type, in the order the two
    loops visit them, as the pair of its normalized value and context. *)
Definition raw_matches (entity_type : str) (patterns : list regex)
    (content : str) : list (str * str) :=
  flat_map
    (fun pattern =>
       map (fun m =>
              (normalize entity_type
                 (or_empty (group content m 1)),
               context_of content m))
           (pattern_matches content pattern))
    patterns.

Definition found_values (raw : list (str * str)) : dict (list str) :=
  fold_left (fun d nc => dict_append (fst nc) (snd nc) d) raw [].

Definition records_of_type (f : file) (tool : str) (content : str)
    (tp : str * list regex) : list entity_record :=
  map (fun nc => Entity (fst tp) (fst nc) (length (snd nc)) (f_name f) tool
                        (firstn 3 (snd nc)))
      (found_values (raw_matches (fst tp) (snd tp) content)).

Definition entities_of_text (f : file) (tool : str) (content : str)
    : list entity_record :=
  flat_map (records_of_type f tool content) ENTITY_PATTERNS.

Definition extract_entities_from_file (f : file) (tool : str)
    : list entity_record :=
  match f_read f with
  | inr _ => []
  | inl content => entities_of_text f tool content
  end.

Record type_count : Type := TypeCount {
  tc_total_occurrences : nat;
  tc_unique_values : nat
}.

Record summary : Type := Summary {
  total_entities : nat;
  total_occurrences : nat;
  by_type : dict type_count;
  unique_values_by_type : dict (list str)
}.

(** [unique_by_type[k].add(x)] on a [defaultdict(set)] *)
Definition dict_set_add (k x : str) (d : dict (list str)) : dict (list str) :=
  dict_upd k (fun o => match o with Some s => set_add x s | None => [x] end) d.

Definition tally_by_type (all_entities : list entity_record) : dict nat :=
  fold_left (fun d e => dict_add (entity_type e) (occurrences e) d)
            all_entities [].

Definition tally_unique (all_entities : list entity_record) : dict (list str) :=
  fold_left (fun d e => dict_set_add (entity_type e) (value e) d)
            all_entities [].

(** [unique_by_type[k]], which is the empty set for a key not seen. *)
Definition unique_of (k : str) (u : dict (list str)) : list str :=
  match dict_get k u with Some s => s | None => [] end.

Definition summarize (all_entities : list entity_record) : summary :=
  let by_type := tally_by_type all_entities in
  let unique_by_type := tally_unique all_entities in
  Summary (length all_entities)
          (fold_right (fun e n => occurrences e + n) 0 all_entities)
          (map (fun kv => (fst kv,
                           TypeCount (snd kv)
                                     (length (unique_of (fst kv) unique_by_type))))
               (sorted_items by_type))
          (map (fun kv => (fst kv, firstn 20 (sorted_strs (snd kv))))
               unique_by_type).

Definition all_entities (fs : tree) : list entity_record :=
  walk extract_entities_from_file fs.

Definition main (fs : tree) : list entity_record * summary :=
  (all_entities fs, summarize (all_entities fs)).

End Entities.

(** ** extract-metadata.py *)

Module Metadata.

(** [r'^#\s+(.+)$'] and [r'^(.+)\n={3,}$'] *)
Definition TITLE_PATTERNS : list regex :=
  [ seqs [Bol; chr "#"; plus space; Grp 1 (plus Any); Eol];
    seqs [Bol; Grp 1 (plus Any); chr newline; Rep 3 None (chr "="); Eol] ].

(** [[0-9]+(?:\.[0-9]+)*] and the same with [+] *)
Definition dotted (lo : nat) : regex :=
  seqs [plus digit; Rep lo None (seqs [chr "."; plus digit])].

Definition colon_or_space (a : ascii) : bool := one_of ":" a || is_space a.

Definition VERSION_PATTERNS : list regex :=
  [ seqs [Chr (one_of "Vv"); lit "ersion"; plus (Chr colon_or_space);
          Grp 1 (dotted 0)];
    seqs [Chr (one_of "Vv"); opt (chr "."); star space; Grp 1 (dotted 1)];
    seqs [Chr (one_of "Rr"); lit "evision"; plus (Chr colon_or_space);
          Grp 1 (dotted 0)] ].

Definition digits (n : nat) : regex := Rep n (Some n) digit.

(** [\d{4}-\d{2}-\d{2}] *)
Definition iso_date : regex :=
  seqs [digits 4; chr "-"; digits 2; chr "-"; digits 2].

Definition DATE_PATTERNS : list regex :=
  [ seqs [lits ["Effective"; "Date"; "Updated"; "Revised"];
          plus (Chr colon_or_space); Grp 1 iso_date];
    Grp 1 iso_date;
    Grp 1 (seqs [Rep 1 (Some 2) digit; chr "/"; Rep 1 (Some 2) digit;
                 chr "/"; digits 4]);
    Grp 1 (seqs [Chr is_upper; plus (Chr is_lower); chr " ";
                 Rep 1 (Some 2) digit; opt (chr ","); chr " "; digits 4]) ].

Definition DOCUMENT_TYPE_KEYWORDS : list (str * list str) :=
  [ (txt "policy", [txt "policy"; txt "policies"]);
    (txt "procedure", [txt "procedure"; txt "process"; txt "workflow"]);
    (txt "ssp", [txt "system security plan"; txt "ssp"; txt "security plan"]);
    (txt "poam", [txt "plan of action"; txt "poa&m"; txt "poam"; txt "milestones"]);
    (txt "sar", [txt "security assessment"; txt "sar"; txt "assessment report"]);
    (txt "plan", [txt "plan"; txt "planning"]);
    (txt "guide", [txt "guide"; txt "guidance"; txt "handbook"]) ].

(** [r'\b([A-Z]{2})-\d+'], without flags *)
Definition CONTROL_PATTERN : regex :=
  seqs [WordB; Grp 1 (Rep 2 (Some 2) (Chr is_upper)); chr "-"; plus digit].

Record statistics : Type := Statistics {
  st_word_count : nat;
  line_count : nat;
  heading_count : nat;
  table_row_count : nat;
  list_item_count : nat
}.

Record metadata : Type := MetadataRec {
  source_file : str;
  source_path : str;
  conversion_tool : str;
  title : option str;
  document_type : str;
  version : option str;
  dates_found : list str;
  control_families : list str;
  stats : statistics
}.

(** What [extract_metadata_from_file] returns: the metadata, or the
    dictionary [{"error": str(e)}]. *)
Inductive meta_dict : Type :=
| MetaError (msg : str)
| Meta (m : metadata).

Definition group1 (subject : str) (m : rmatch) : str :=
  or_empty (group subject m 1).

(** The inner loop over [TITLE_PATTERNS] for one line: the first pattern
    that matches sets the title. *)
Fixpoint title_of_line (patterns : list regex) (line : str) : option str :=
  match patterns with
  | [] => None
  | pattern :: patterns' =>
      match re_match false true pattern line with
      | Some m => Some (strip (group1 line m))
      | None => title_of_line patterns' line
      end
  end.

(** The loop over the lines: it stops once the title is a non-empty
    string. *)
Fixpoint title_loop (lines : list str) (title : option str) : option str :=
  match lines with
  | [] => title
  | line :: lines' =>
      let title' :=
        match title_of_line TITLE_PATTERNS line with
        | Some t => Some t
        | None => title
        end in
      if truthy title' then title' else title_loop lines' title'
  end.

Definition extract_title (lines : list str) : option str :=
  title_loop (firstn 20 lines) None.

Fixpoint extract_version (patterns : list regex) (content : str) : option str :=
  match patterns with
  | [] => None
  | pattern :: patterns' =>
      match re_search false false pattern content with
      | Some m => Some (group1 content m)
      | None => extract_version patterns' content
      end
  end.

(** The inner loop over the matches of one date pattern; it is left by
    [break] when an appended date brings the list to five entries. *)
Fixpoint dates_of_pattern (dates : list str) (found : list str) : list str :=
  match dates with
  | [] => found
  | date_str :: dates' =>
      if str_in date_str found then dates_of_pattern dates' found
      else
        let found' := found ++ [date_str] in
        if 5 <=? length found' then found'
        else dates_of_pattern dates' found'
  end.

(** The outer loop over [DATE_PATTERNS]. *)
Definition extract_dates (content : str) : list str :=
  fold_left
    (fun found pattern =>
       dates_of_pattern
         (map (group1 content) (finditer false false pattern content))
         found)
    DATE_PATTERNS [].

Fixpoint type_of (table : list (str * list str)) (content_lower : str) : str :=
  match table with
  | [] => txt "unknown"
  | (doc_type, keywords) :: table' =>
      if existsb (fun kw => contains kw content_lower) keywords then doc_type
      else type_of table' content_lower
  end.

Definition family_matches (content : str) : list rmatch :=
  finditer false false CONTROL_PATTERN content.

Definition extract_families (content : str) : list str :=
  sorted_strs
    (to_set (map (fun m => upper (group1 content m)) (family_matches content))).

(** [len(re.findall(pattern, content, re.MULTILINE))] *)
Definition count_matches (pattern : regex) (content : str) : nat :=
  length (finditer false true pattern content).

Definition metadata_of_text (f : file) (tool : str) (content : str) : metadata :=
  let lines := split_lines content in
  MetadataRec (f_name f) (f_path f) tool
    (extract_title lines)
    (type_of DOCUMENT_TYPE_KEYWORDS (lower content))
    (extract_version VERSION_PATTERNS content)
    (extract_dates content)
    (extract_families content)
    (Statistics
       (word_count content)
       (length lines)
       (count_matches (seqs [Bol; plus (chr "#"); space]) content)
       (count_matches (seqs [Bol; chr "|"]) content)
       (count_matches (seqs [Bol; Chr (one_of "-*"); space]) content)).

Definition extract_metadata_from_file (f : file) (tool : str) : meta_dict :=
  match f_read f with
  | inr e => MetaError e
  | inl content => Meta (metadata_of_text f tool content)
  end.

(** [meta.get('document_type', 'unknown')] and the two other reads with a
    default that [main] makes. *)
Definition get_document_type (d : meta_dict) : str :=
  match d with Meta m => document_type m | MetaError _ => txt "unknown" end.

Definition get_control_families (d : meta_dict) : list str :=
  match d with Meta m => control_families m | MetaError _ => [] end.

Definition get_word_count (d : meta_dict) : nat :=
  match d with Meta m => st_word_count (stats m) | MetaError _ => 0 end.

Record summary : Type := Summary {
  total_documents : nat;
  by_type : dict nat;
  all_control_families : list str;
  total_word_count : nat
}.

Definition summarize (all_metadata : list meta_dict) : summary :=
  Summary
    (length all_metadata)
    (fold_left (fun d meta => dict_add (get_document_type meta) 1 d)
               all_metadata [])
    (sorted_strs
       (fold_left
          (fun s meta => fold_left (fun s x => set_add x s)
                                   (get_control_families meta) s)
          all_metadata []))
    (fold_left (fun n meta => n + get_word_count meta) all_metadata 0).

Definition all_metadata (fs : tree) : list meta_dict :=
  walk (fun f tool => [extract_metadata_from_file f tool]) fs.

Definition main (fs : tree) : list meta_dict * summary :=
  (all_metadata fs, summarize (all_metadata fs)).

End Metadata.

(** ** Paths and directories of the conversion scripts

    A directory is a dictionary from file name to text.  A call of
    [path.write_text(text)] goes one of three ways, which the file system
    decides: it writes the text and returns; or it raises before the file
    is opened, and the directory is as before; or it raises after the file
    was opened for writing, and the file is left with what was written
    until then. *)

(** [name.rfind('.')] *)
Fixpoint rfind_from (i : nat) (found : option nat) (s : str) : option nat :=
  match s with
  | [] => found
  | a :: t =>
      rfind_from (S i) (if ascii_eqb a "." then Some i else found) t
  end.

Definition rfind_dot (s : str) : option nat := rfind_from 0 None s.

(** [PurePath.stem]: the name without its last suffix; a dot that starts
    or ends the name starts no suffix. *)
Definition stem (name : str) : str :=
  match rfind_dot name with
  | Some i =>
      if (0 <? i) && (i <? length name - 1) then firstn i name else name
  | None => name
  end.

Inductive write_result : Type :=
| Written : write_result                 (* the call returns *)
| NotOpened : str -> write_result        (* it raises; nothing is touched *)
| Truncated : str -> str -> write_result. (* it raises; the file holds the
                                            first text *)

(** The directory once the file [name] holds [text]. *)
Definition set_file (name text : str) (dir : dict str) : dict str :=
  dict_upd name (fun _ => text) dir.

(** [path.write_text(text)]: the directory after the call, and whether the
    call returned. *)
Definition write_text (how : write_result) (name text : str)
    (dir : dict str) : dict str * bool :=
  match how with
  | Written => (set_file name text dir, true)
  | NotOpened _ => (dir, false)
  | Truncated partial _ => (set_file name partial dir, false)
  end.

(** ** run-markitdown.py

    [convert_documents] walks the input directory once for each
    extension, converts every file it finds and writes the text to
    [<stem>.md] in the output directory.  The converter, the directory
    listing and the file system are outside the script: [glob ext] stands
    for the names that [input_path.glob("*" + ext)] yields, in the order
    it yields them, [convert name] for the text that [md.convert] gives or
    the message of the exception it raises, and [write file name text]
    for the way the write of [text] to [name] in the output directory
    goes when the script makes it for the input [file].  What the script
    prints is left out: the model is of a run in which printing, making
    the output directory and creating the converter do not raise. *)

Module Markitdown.

Definition EXTENSIONS : list str :=
  [txt ".docx"; txt ".pdf"; txt ".pptx"; txt ".xlsx"; txt ".html"; txt ".txt"].

Record state : Type := State {
  output : dict str;     (* the files of the output directory *)
  converted : nat
}.

Section Converter.

Variable glob : str -> list str.
Variable convert : str -> str + str.
Variable write : str -> str -> str -> write_result.

(** The body of the inner loop: the [try] block and its handler.  An
    exception of [md.convert] or of [write_text] skips the increment. *)
Definition convert_file (st : state) (file : str) : state :=
  match convert file with
  | inl text_content =>
      let output_file := stem file ++ txt ".md" in
      let (dir, returned) :=
        write_text (write file output_file text_content) output_file
                   text_content (output st) in
      if returned then State dir (S (converted st))
      else State dir (converted st)
  | inr _ => st
  end.

Definition convert_documents (dir : dict str) : state :=
  fold_left (fun st ext => fold_left convert_file (glob ext) st)
            EXTENSIONS (State dir 0).

End Converter.

End Markitdown.

(** ** run-docling.py

    The same two loops, with a second export: after the markdown file is
    written and counted, the document is written as JSON to the sibling
    directory [json].  [convert name] is the markdown text together with
    the JSON text, or the message of the exception that the JSON export
    raises; or, when the conversion or the markdown export raises, the
    message of that exception.  [write] is the way of the writes to the
    output directory, as in run-markitdown.py, and [write_json] that of
    the writes to [json], the making of that directory included. *)

Module Docling.

Definition EXTENSIONS : list str :=
  [txt ".docx"; txt ".pdf"; txt ".pptx"; txt ".html"].

Record state : Type := State {
  markdown : dict str;   (* the files of the output directory *)
  json : dict str;       (* the files of its sibling [json] *)
  converted : nat
}.

Section Converter.

Variable glob : str -> list str.
Variable convert : str -> (str * (str + str)) + str.
Variable write : str -> str -> str -> write_result.
Variable write_json : str -> str -> str -> write_result.

(** The body of the inner loop: the [try] block and its handler.  An
    exception before the increment leaves the file uncounted; one after
    it only ends the work on this file. *)
Definition convert_file (st : state) (file : str) : state :=
  match convert file with
  | inl (markdown_content, doc_json) =>
      let output_file := stem file ++ txt ".md" in
      let (dir, returned) :=
        write_text (write file output_file markdown_content) output_file
                   markdown_content (markdown st) in
      if returned then
        let converted' := S (converted st) in
        match doc_json with
        | inl text =>
            let json_file := stem file ++ txt ".json" in
            State dir
                  (fst (write_text (write_json file json_file text) json_file
                                   text (json st)))
                  converted'
        | inr _ => State dir (json st) converted'
        end
      else State dir (json st) (converted st)
  | inr _ => st
  end.

Definition convert_documents (dir json_dir : dict str) : state :=
  fold_left (fun st ext => fold_left convert_file (glob ext) st)
            EXTENSIONS (State dir json_dir 0).

End Converter.

End Docling.

(** ** Notions used to state the properties *)

(** The values filed under key [k] in a list of key-value pairs. *)
Definition values_of (V : Type) (k : str) (kxs : list (str * V)) : list V :=
  map snd (filter (fun kx => str_eqb (fst kx) k) kxs).

(** A dictionary of lists filled by [d[k].append(x)] for each pair. *)
Definition group_into (V : Type) (kxs : list (str * V)) (d : dict (list V))
    : dict (list V) :=
  fold_left (fun d kx => dict_append (fst kx) (snd kx) d) kxs d.

(** The order of a boolean comparison. *)
Definition le_of (A : Type) (leb : A -> A -> bool) (x y : A) : Prop :=
  leb x y = true.

Definition str_le : str -> str -> Prop := le_of str_leb.

Definition same_set (l1 l2 : list str) : Prop :=
  forall x, In x l1 <-> In x l2.

(** The tool labels on the occurrence records of the identifier [cid]. *)
Definition labels_of (cid : str) (cs : list Controls.control) : list str :=
  map Controls.conversion_tool
      (filter (fun c => str_eqb (Controls.control_id c) cid) cs).

(** A tree with one readable file under each of the three tools. *)
Definition one_file (tool : string) (content : string) : file :=
  File (txt "policy.md") (txt ("output/" ++ tool ++ "/markdown/policy.md")%string)
       (inl (txt content)).

Definition three_tools_tree (content : string) : tree :=
  fun tool =>
    if str_eqb tool (txt "pandoc") then Some [one_file "pandoc" content]
    else if str_eqb tool (txt "markitdown") then Some [one_file "markitdown" content]
    else if str_eqb tool (txt "docling") then Some [one_file "docling" content]
    else None.

(** A tree with a policy under pandoc, and the same policy after a guide
    under markitdown. *)
Definition policy_md (tool : string) : file :=
  File (txt "policy.md") (txt ("output/" ++ tool ++ "/markdown/policy.md")%string)
       (inl (txt "Policy: the CISO follows NIST AC-2.")).

Definition guide_md (tool : string) : file :=
  File (txt "guide.md") (txt ("output/" ++ tool ++ "/markdown/guide.md")%string)
       (inl (txt "User guide: see SC-7.")).

Definition policy_and_guide : tree :=
  fun tool =>
    if str_eqb tool (txt "pandoc") then Some [policy_md "pandoc"]
    else if str_eqb tool (txt "markitdown")
         then Some [guide_md "markitdown"; policy_md "markitdown"]
    else None.

(** The values of the records of entity type [k], with repetitions. *)
Definition type_values (k : str) (es : list Entities.entity_record) : list str :=
  map Entities.value
      (filter (fun e => str_eqb (Entities.entity_type e) k) es).

(** The pattern list of an entity type. *)
Definition patterns_of (tp : str) : list regex :=
  match dict_get tp Entities.ENTITY_PATTERNS with
  | Some patterns => patterns
  | None => []
  end.

(** The contexts of the raw matches of the patterns of type [tp] in
    [content] whose value normalizes to [v]; their number is the number of
    those matches. *)
Definition raw_contexts (tp v : str) (content : str) : list str :=
  values_of v (Entities.raw_matches tp (patterns_of tp) content).

Definition type_and_value (r : Entities.entity_record) : str * str :=
  (Entities.entity_type r, Entities.value r).

(** A tree whose only file cannot be read. *)
Definition decode_error : str :=
  txt "'utf-8' codec can't decode byte 0xff in position 0: invalid start byte".

Definition unreadable_tree : tree :=
  fun tool =>
    if str_eqb tool (txt "pandoc")
    then Some [File (txt "broken.md") (txt "output/pandoc/markdown/broken.md")
                    (inr decode_error)]
    else None.

Definition lines_text (l : list string) : str :=
  txt (String.concat (String newline EmptyString) l).

(** Five labeled dates followed by two bare ones: seven distinct dates. *)
Definition seven_dates : str :=
  lines_text [ "Effective: 2024-01-01"; "Updated: 2024-01-02";
               "Revised: 2024-01-03"; "Date: 2024-01-04"; "Date: 2024-01-05";
               "Archived 2024-01-06"; "Archived 2024-01-07" ].

(** A document whose only heading is underlined. *)
Definition underlined_title : str :=
  lines_text [ "Security Plan"; "============="; ""; "Body text." ].

(** The text of an optional enhancement and of an optional part. *)
Definition enh_text (o : option str) : str :=
  match o with Some ds => txt "(" ++ ds ++ txt ")" | None => [] end.

Definition part_text (o : option str) : str :=
  match o with Some q => txt "." ++ q | None => [] end.

Definition all_chars (p : ascii -> bool) (s : str) : Prop :=
  Forall (fun a => p a = true) s.

(** The record of the reference [ac-2(1).a] on the first line of a file. *)
Definition sample_file : file := one_file "pandoc" "see ac-2(1).a".

Definition sample_control : Controls.control :=
  Controls.Control (txt "AC-2(1).a") (txt "AC") (txt "Access Control")
    (txt "AC-2") true (Some (txt "1")) (txt "policy.md")
    (txt "output/pandoc/markdown/policy.md") (txt "pandoc") 1 4
    (txt "see ac-2(1).a").

(** [e] is the first result of the pattern at [s]: the match [re] reports
    there. *)
Definition first_result (ic ml : bool) (r : regex) (s e : mstate) : Prop :=
  exists l, run ic ml r s = e :: l.

(** A canonical identifier [FF-N[(E)][.p]]: two upper-case letters, one or
    two digits, an optional non-empty group of digits, an optional
    lower-case letter. *)
Definition opt_all (p : str -> bool) (o : option str) : bool :=
  match o with Some s => p s | None => true end.

Definition is_canonical (fam num : str) (enh part : option str) : bool :=
  (length fam =? 2) && forallb is_upper fam &&
  (1 <=? length num) && (length num <=? 2) && forallb is_digit num &&
  opt_all (fun ds => (1 <=? length ds) && forallb is_digit ds) enh &&
  opt_all (fun q => (length q =? 1) && forallb is_lower q) part.

Definition canonical_id (fam num : str) (enh part : option str) : str :=
  fam ++ txt "-" ++ num ++ enh_text enh ++ part_text part.

(** The character before the offset reached after reading [pre], when [p]
    was the character before [pre]. *)
Definition prev_of (pre : str) (p : option ascii) : option ascii :=
  fold_left (fun _ a => Some a) pre p.

(** The text of a match. *)
Definition matched (subject : str) (m : rmatch) : str :=
  slice subject (m_start m) (m_end m).

(** Every control reference that the control extractor finds in the
    document is written without upper-case letters. *)
Definition all_refs_lower (content : str) : bool :=
  forallb
    (fun line =>
       forallb (fun m => forallb (fun a => negb (is_upper a)) (matched line m))
               (Controls.line_matches line))
    (split_lines content).

Definition lower_case_refs : str := txt "access: see ac-2 and sc-7.a".

(** The text of the line in progress after reading [pre], kept in reverse
    as [split_lines_from] keeps it, and the text up to the first line
    break. *)
Fixpoint cur_after (cur pre : str) : str :=
  match pre with
  | [] => cur
  | a :: pre' =>
      if ascii_eqb a newline then cur_after [] pre'
      else cur_after (a :: cur) pre'
  end.

Fixpoint first_line (s : str) : str :=
  match s with
  | [] => []
  | a :: t => if ascii_eqb a newline then [] else a :: first_line t
  end.

(** The second title pattern, [r'^(.+)\n={3,}$']. *)
Definition UNDERLINE_PATTERN : regex := nth 1 Metadata.TITLE_PATTERNS never.

(** An entity record of a document that names the CISO twice. *)
Definition two_roles : str := txt "The CISO met the CTO and the ciso.".

Definition ciso_record : Entities.entity_record :=
  Entities.Entity (txt "role") (txt "CISO") 2 (txt "policy.md") (txt "pandoc")
    [txt "The CISO met the CTO and the ciso.";
     txt "The CISO met the CTO and the ciso."].

(** The results of [body] keep the end of the subject in place. *)
Definition keeps_end (body : mstate -> list mstate) : Prop :=
  forall s e, In e (body s) ->
    pos e + length (rest e) = pos s + length (rest s).

(** A file of ASCII text, or one that cannot be read. *)
Definition ascii_file (f : file) : Prop :=
  match f_read f with
  | inl content => ascii_text content
  | inr _ => True
  end.

(** The results of [body] lie further on in the same subject. *)
Definition consumes (body : mstate -> list mstate) : Prop :=
  forall s e, In e (body s) ->
    exists pre, rest s = pre ++ rest e /\ pos e = pos s + length pre.

(** [m1] comes before [m2] and the two do not overlap. *)
Definition match_before (m1 m2 : rmatch) : Prop :=
  m_start m1 < m_start m2 /\ m_end m1 <= m_start m2.

(** Inside the subject of length [n], from offset [lo] on. *)
Definition match_within (lo n : nat) (m : rmatch) : Prop :=
  lo <= m_start m /\ m_start m <= m_end m /\ m_end m <= n.

(** The order of records by line, then by column. *)
Definition location_before (c1 c2 : Controls.control) : Prop :=
  Controls.source_line c1 < Controls.source_line c2 \/
  (Controls.source_line c1 = Controls.source_line c2 /\
   Controls.source_column c1 < Controls.source_column c2).

(** The text of a reference as it stands in the line. *)
Definition reference_text (fam num : str) (enh part : option str) : str :=
  fam ++ txt "-" ++ num ++ enh_text enh ++ part_text part.

(** A string that neither starts nor ends with white space. *)
Definition trimmed (s : str) : Prop :=
  (forall a t, s = a :: t -> is_space a = false) /\
  (forall a t, s = t ++ [a] -> is_space a = false).

(** The total weight [w] of the elements of [xs] filed under key [k], and
    the sum of the values of a dictionary of counts. *)
Definition sum_by (X : Type) (key : X -> str) (w : X -> nat) (k : str)
    (xs : list X) : nat :=
  list_sum (map w (filter (fun x => str_eqb (key x) k) xs)).

Definition total (d : dict nat) : nat := list_sum (map snd d).

Definition one (X : Type) (x : X) : nat := 1.

(** One step of a tally: [d[key(x)] += w(x)]. *)
Definition tally_step (X : Type) (key : X -> str) (w : X -> nat)
    (d : dict nat) (x : X) : dict nat :=
  dict_add (key x) (w x) d.

Definition nonempty (A : Type) (l : list A) : bool :=
  match l with [] => false | _ :: _ => true end.

(** The pieces of a reference in any letter case: two letters, one or two
    digits, an optional non-empty group of digits, an optional letter. *)
Definition reference_ok (fam num : str) (enh part : option str) : Prop :=
  length fam = 2 /\ all_chars is_alpha fam /\
  1 <= length num <= 2 /\ all_chars is_digit num /\
  (forall ds, enh = Some ds -> ds <> [] /\ all_chars is_digit ds) /\
  (forall q, part = Some q -> exists c, q = [c] /\ is_alpha c = true).

(** Every match of every entity pattern in a text, and the sum of the
    [occurrences] of a list of records. *)
Definition all_entity_matches (content : str) : list rmatch :=
  flat_map (fun tp : str * list regex =>
              flat_map (Entities.pattern_matches content) (snd tp))
           Entities.ENTITY_PATTERNS.

Definition occurrences_sum (es : list Entities.entity_record) : nat :=
  list_sum (map Entities.occurrences es).

(** The sum of the [total_occurrences] of a [by_type] table. *)
Definition type_totals (d : dict Entities.type_count) : nat :=
  list_sum (map (fun kv => Entities.tc_total_occurrences (snd kv)) d).

(** The offsets of the line breaks of a text that starts at offset [i], and
    the offsets at which its lines start. *)
Fixpoint newline_positions (i : nat) (s : str) : list nat :=
  match s with
  | [] => []
  | a :: t =>
      (if ascii_eqb a newline then [i] else []) ++ newline_positions (S i) t
  end.

Definition line_starts (s : str) : list nat :=
  0 :: map S (newline_positions 0 s).

(** Every match of [r] starts with a character of the class [p]. *)
Definition starts_with (ic ml : bool) (r : regex) (p : ascii -> bool) : Prop :=
  forall s e, In e (run ic ml r s) -> exists a t, rest s = a :: t /\ p a = true.

(** One of the keywords [kws] occurs in the text once it is lower-cased. *)
Definition mentions (kws : list str) (content : str) : Prop :=
  exists kw pre post, In kw kws /\ lower content = pre ++ kw ++ post.

(** The text holds the family [x] in a reference: two upper-case letters
    that do not follow a word character, a hyphen and a digit. *)
Definition family_occurs (content x : str) : Prop :=
  exists pre a b d post,
    x = [a; b] /\
    content = pre ++ a :: b :: "-"%char :: d :: post /\
    is_upper a = true /\ is_upper b = true /\ is_digit d = true /\
    word_opt (prev_of pre None) = false.

(** The date strings of a text: group 1 of every match of every date
    pattern, pattern by pattern. *)
Definition all_date_strings (content : str) : list str :=
  flat_map (fun pattern =>
              map (Metadata.group1 content)
                  (finditer false false pattern content))
           Metadata.DATE_PATTERNS.

(** A line that starts with [#] and a white-space character. *)
Definition heading_line (line : str) : Prop :=
  exists c rest, line = "#"%char :: c :: rest /\ is_space c = true.

Definition HEADING_PATTERN : regex := hd never Metadata.TITLE_PATTERNS.

Definition not_newline (a : ascii) : bool := negb (ascii_eqb a newline).

(** A dotted number: one or more digits, then any number of groups of a
    dot and one or more digits. *)
Definition digits_nonempty (ds : str) : Prop :=
  ds <> [] /\ all_chars is_digit ds.

Definition dot_group (u : str) : Prop :=
  exists ds, u = "."%char :: ds /\ digits_nonempty ds.

Definition dotted_number (v : str) : Prop :=
  exists d groups,
    v = d ++ concat groups /\ digits_nonempty d /\ Forall dot_group groups.

(** [v] is a piece of [content]. *)
Definition occurs_in (v content : str) : Prop :=
  exists pre post, content = pre ++ v ++ post.

(** The files [convert_documents] visits, in the order of its two
    loops; what the conversion of a file leaves in the output directory (a
    file name with its content, when the write opened the file); and
    whether the conversion is counted. *)
Definition visited (glob : str -> list str) : list str :=
  flat_map glob Markitdown.EXTENSIONS.

Definition left_in (write : str -> str -> write_result) (name text : str)
    : list (str * str) :=
  match write name text with
  | Written => [(name, text)]
  | NotOpened _ => []
  | Truncated partial _ => [(name, partial)]
  end.

Definition returns (write : str -> str -> write_result) (name text : str)
    : bool :=
  match write name text with Written => true | _ => false end.

Definition left_by (convert : str -> str + str)
    (write : str -> str -> str -> write_result) (file : str)
    : list (str * str) :=
  match convert file with
  | inl text => left_in (write file) (stem file ++ txt ".md") text
  | inr _ => []
  end.

Definition counted (convert : str -> str + str)
    (write : str -> str -> str -> write_result) (file : str) : bool :=
  match convert file with
  | inl text => returns (write file) (stem file ++ txt ".md") text
  | inr _ => false
  end.

(** No write raises after it opened its file. *)
Definition never_truncates (write : str -> str -> str -> write_result)
    : Prop :=
  forall file name text partial error,
    write file name text <> Truncated partial error.

(** A directory listing with a Word and a PDF version of one document, a
    converter that fails on one file, and a file system on which every
    write goes through. *)
Definition two_versions (ext : str) : list str :=
  if str_eqb ext (txt ".docx") then [txt "notes.docx"; txt "policy.docx"]
  else if str_eqb ext (txt ".pdf") then [txt "policy.pdf"]
  else [].

Definition echo (file : str) : str + str :=
  if str_eqb file (txt "notes.docx") then inr (txt "File is not a zip file")
  else inl (txt "# " ++ file).

Definition all_written (file name text : str) : write_result := Written.

(** The same for the Docling script: what a file leaves in the output
    directory and in [json], and whether it is counted. *)
Definition markdown_left (convert : str -> (str * (str + str)) + str)
    (write : str -> str -> str -> write_result) (file : str)
    : list (str * str) :=
  match convert file with
  | inl (text, _) => left_in (write file) (stem file ++ txt ".md") text
  | inr _ => []
  end.

Definition markdown_counted (convert : str -> (str * (str + str)) + str)
    (write : str -> str -> str -> write_result) (file : str) : bool :=
  match convert file with
  | inl (text, _) => returns (write file) (stem file ++ txt ".md") text
  | inr _ => false
  end.

Definition json_left (convert : str -> (str * (str + str)) + str)
    (write write_json : str -> str -> str -> write_result) (file : str)
    : list (str * str) :=
  match convert file with
  | inl (text, inl doc) =>
      if returns (write file) (stem file ++ txt ".md") text
      then left_in (write_json file) (stem file ++ txt ".json") doc
      else []
  | _ => []
  end.

(** A document whose heading comes after a line of text. *)
Definition heading_after_intro : str :=
  lines_text ["Intro"; "# Access Policy "; "## Scope"].

(** * Properties *)

(** ** Strings, sets, dictionaries and sorting *)

Lemma str_eqb_eq (s t : str) : str_eqb s t = true <-> s = t.
Proof.
  revert t; induction s as [|a s IH]; intros [|b t]; simpl; split;
    try congruence; try reflexivity.
  - intros H. apply andb_true_iff in H as [Hab Hst].
    apply Ascii.eqb_eq in Hab. apply IH in Hst. congruence.
  - intros H. injection H as -> ->. apply andb_true_iff. split.
    + apply Ascii.eqb_refl.
    + now apply IH.
Qed.

Lemma str_eqb_refl (s : str) : str_eqb s s = true.
Proof. now apply str_eqb_eq. Qed.

Lemma str_eqb_neq (s t : str) : str_eqb s t = false <-> s <> t.
Proof.
  split.
  - intros H E. apply str_eqb_eq in E. congruence.
  - intros H. destruct (str_eqb s t) eqn:E; trivial.
    apply str_eqb_eq in E. contradiction.
Qed.

Lemma str_eq_dec (s t : str) : {s = t} + {s <> t}.
Proof.
  destruct (str_eqb s t) eqn:E.
  - left. now apply str_eqb_eq.
  - right. now apply str_eqb_neq.
Qed.

Lemma str_in_In (x : str) (l : list str) : str_in x l = true <-> In x l.
Proof.
  unfold str_in. rewrite existsb_exists. split.
  - intros [y [Hy E]]. apply str_eqb_eq in E. now subst.
  - intros H. exists x. split; [assumption | apply str_eqb_refl].
Qed.

Lemma code_inj (a b : ascii) : code a = code b -> a = b.
Proof.
  unfold code. intros H.
  rewrite <- (ascii_nat_embedding a), <- (ascii_nat_embedding b).
  now rewrite H.
Qed.

Lemma str_leb_refl (s : str) : str_leb s s = true.
Proof.
  induction s as [|a s IH]; simpl; trivial.
  now rewrite Nat.ltb_irrefl.
Qed.

Lemma str_leb_total (s t : str) : str_leb s t = false -> str_leb t s = true.
Proof.
  revert t; induction s as [|a s IH]; intros [|b t]; simpl; try congruence.
  destruct (code a <? code b) eqn:Hab; [congruence|].
  destruct (code b <? code a) eqn:Hba; [reflexivity|].
  apply IH.
Qed.

Lemma str_leb_trans (s t u : str) :
  str_leb s t = true -> str_leb t u = true -> str_leb s u = true.
Proof.
  revert t u; induction s as [|a s IH]; intros [|b t] [|c u]; simpl;
    try congruence.
  destruct (code a <? code b) eqn:Hab; destruct (code b <? code a) eqn:Hba;
  destruct (code b <? code c) eqn:Hbc; destruct (code c <? code b) eqn:Hcb;
  destruct (code a <? code c) eqn:Hac; destruct (code c <? code a) eqn:Hca;
    try congruence;
    repeat match goal with
    | H : (_ <? _) = true |- _ => apply Nat.ltb_lt in H
    | H : (_ <? _) = false |- _ => apply Nat.ltb_ge in H
    end; try lia.
  apply IH.
Qed.

Lemma str_leb_antisym (s t : str) :
  str_leb s t = true -> str_leb t s = true -> s = t.
Proof.
  revert t; induction s as [|a s IH]; intros [|b t]; simpl;
    try congruence.
  destruct (code a <? code b) eqn:Hab; destruct (code b <? code a) eqn:Hba;
    try congruence;
    repeat match goal with
    | H : (_ <? _) = true |- _ => apply Nat.ltb_lt in H
    | H : (_ <? _) = false |- _ => apply Nat.ltb_ge in H
    end; try lia.
  intros H1 H2. f_equal.
  - apply code_inj. lia.
  - now apply IH.
Qed.

(** Sets *)

Lemma set_add_In (x y : str) (s : list str) :
  In y (set_add x s) <-> y = x \/ In y s.
Proof.
  unfold set_add. destruct (str_in x s) eqn:E.
  - apply str_in_In in E. split; [auto | intros [->|H]; assumption].
  - rewrite in_app_iff. simpl. intuition congruence.
Qed.

Lemma set_add_NoDup (x : str) (s : list str) : NoDup s -> NoDup (set_add x s).
Proof.
  intros H. unfold set_add. destruct (str_in x s) eqn:E; [assumption|].
  assert (Hx : ~ In x s).
  { intros Hin. apply str_in_In in Hin. congruence. }
  clear E. induction H as [|y s Hy Hs IH]; simpl.
  - constructor; [intros [] | constructor].
  - constructor.
    + rewrite in_app_iff. simpl. simpl in Hx. intuition congruence.
    + apply IH. simpl in Hx. intuition.
Qed.

Lemma fold_set_add_In (l s : list str) (y : str) :
  In y (fold_left (fun s x => set_add x s) l s) <-> In y l \/ In y s.
Proof.
  revert s; induction l as [|x l IH]; intros s; simpl.
  - intuition.
  - rewrite IH, set_add_In. intuition congruence.
Qed.

Lemma fold_set_add_NoDup (l s : list str) :
  NoDup s -> NoDup (fold_left (fun s x => set_add x s) l s).
Proof.
  revert s; induction l as [|x l IH]; intros s H; simpl; [assumption|].
  apply IH. now apply set_add_NoDup.
Qed.

Lemma to_set_In (l : list str) (y : str) : In y (to_set l) <-> In y l.
Proof. unfold to_set. rewrite fold_set_add_In. simpl. intuition. Qed.

Lemma to_set_NoDup (l : list str) : NoDup (to_set l).
Proof. apply fold_set_add_NoDup. constructor. Qed.

(** Dictionaries *)

Section DictFacts.

Variable V : Type.

Lemma dict_get_upd_same (k : str) (f : option V -> V) (d : dict V) :
  dict_get k (dict_upd k f d) = Some (f (dict_get k d)).
Proof.
  induction d as [|[k' v] d IH]; simpl.
  - now rewrite str_eqb_refl.
  - destruct (str_eqb k' k) eqn:E; simpl; rewrite E; [reflexivity | exact IH].
Qed.

Lemma dict_get_upd_other (k k' : str) (f : option V -> V) (d : dict V) :
  k <> k' -> dict_get k' (dict_upd k f d) = dict_get k' d.
Proof.
  intros Hne. induction d as [|[k0 v] d IH]; simpl.
  - destruct (str_eqb k k') eqn:E; trivial.
    apply str_eqb_eq in E. contradiction.
  - destruct (str_eqb k0 k) eqn:E; simpl.
    + apply str_eqb_eq in E. subst k0.
      destruct (str_eqb k k') eqn:E'; trivial.
      apply str_eqb_eq in E'. contradiction.
    + now rewrite IH.
Qed.

Lemma dict_get_None (k : str) (d : dict V) :
  dict_get k d = None <-> ~ In k (keys d).
Proof.
  induction d as [|[k' v] d IH]; simpl.
  - intuition.
  - destruct (str_eqb k' k) eqn:E.
    + apply str_eqb_eq in E. split; [discriminate | intros H; exfalso; auto].
    + apply str_eqb_neq in E. rewrite IH. intuition.
Qed.

Lemma keys_upd (k : str) (f : option V -> V) (d : dict V) :
  keys (dict_upd k f d) =
  match dict_get k d with Some _ => keys d | None => keys d ++ [k] end.
Proof.
  induction d as [|[k' v] d IH]; simpl; trivial.
  destruct (str_eqb k' k) eqn:E; simpl; trivial.
  rewrite IH. now destruct (dict_get k d).
Qed.

Lemma keys_upd_NoDup (k : str) (f : option V -> V) (d : dict V) :
  NoDup (keys d) -> NoDup (keys (dict_upd k f d)).
Proof.
  intros H. rewrite keys_upd. destruct (dict_get k d) eqn:E; [assumption|].
  apply dict_get_None in E.
  apply NoDup_rev in H. rewrite <- (rev_involutive (keys d ++ [k])).
  apply NoDup_rev. rewrite rev_app_distr. simpl. constructor; [|assumption].
  now rewrite <- in_rev.
Qed.

Lemma keys_upd_In (k k' : str) (f : option V -> V) (d : dict V) :
  In k' (keys (dict_upd k f d)) <-> k' = k \/ In k' (keys d).
Proof.
  rewrite keys_upd. destruct (dict_get k d) eqn:E.
  - split; [auto | intros [->|H]; trivial].
    destruct (in_dec str_eq_dec k (keys d)) as [Hin|Hout]; trivial.
    apply dict_get_None in Hout. congruence.
  - rewrite in_app_iff. simpl. intuition congruence.
Qed.

Lemma dict_get_In (k : str) (v : V) (d : dict V) :
  NoDup (keys d) -> (In (k, v) d <-> dict_get k d = Some v).
Proof.
  induction d as [|[k' v'] d IH]; simpl; intros H.
  - split; [intros [] | discriminate].
  - inversion H as [|? ? Hk Hd]; subst.
    destruct (str_eqb k' k) eqn:E.
    + apply str_eqb_eq in E. subst k'. split.
      * intros [Heq | Hin]; [congruence|].
        exfalso. apply Hk. change k with (fst (k, v)). now apply in_map.
      * intros Heq. left. congruence.
    + apply str_eqb_neq in E. rewrite <- (IH Hd). split.
      * intros [Heq | Hin]; [congruence | assumption].
      * auto.
Qed.

Lemma dict_get_Some_In (k : str) (v : V) (d : dict V) :
  dict_get k d = Some v -> In (k, v) d.
Proof.
  induction d as [|[k' v'] d IH]; simpl; [discriminate|].
  destruct (str_eqb k' k) eqn:E.
  - apply str_eqb_eq in E. intros H. left. congruence.
  - auto.
Qed.

End DictFacts.

Section GroupFacts.

Variable V : Type.

Lemma group_into_get (k : str) (kxs : list (str * V)) (d : dict (list V)) :
  dict_get k (group_into kxs d) =
  match dict_get k d, values_of k kxs with
  | Some l, vs => Some (l ++ vs)
  | None, [] => None
  | None, vs => Some vs
  end.
Proof.
  revert d; induction kxs as [|[k1 x] kxs IH]; intros d; simpl.
  - destruct (dict_get k d); [now rewrite app_nil_r | reflexivity].
  - unfold group_into in *. simpl. rewrite IH. unfold values_of. simpl.
    unfold dict_append.
    destruct (str_eqb k1 k) eqn:E.
    + apply str_eqb_eq in E. subst k1. rewrite dict_get_upd_same. simpl.
      destruct (dict_get k d); [now rewrite <- app_assoc | reflexivity].
    + apply str_eqb_neq in E. now rewrite dict_get_upd_other.
Qed.

Lemma group_into_NoDup (kxs : list (str * V)) (d : dict (list V)) :
  NoDup (keys d) -> NoDup (keys (group_into kxs d)).
Proof.
  revert d; induction kxs as [|[k1 x] kxs IH]; intros d H; simpl; trivial.
  apply IH. now apply keys_upd_NoDup.
Qed.

Lemma group_into_keys (k : str) (kxs : list (str * V)) (d : dict (list V)) :
  In k (keys (group_into kxs d)) <-> In k (map fst kxs) \/ In k (keys d).
Proof.
  revert d; induction kxs as [|[k1 x] kxs IH]; intros d; simpl.
  - intuition.
  - unfold group_into in *. simpl. rewrite IH. unfold dict_append.
    rewrite keys_upd_In. intuition congruence.
Qed.

Lemma values_of_nil_iff (k : str) (kxs : list (str * V)) :
  values_of k kxs = [] <-> ~ In k (map fst kxs).
Proof.
  unfold values_of. induction kxs as [|[k1 x] kxs IH]; simpl.
  - intuition.
  - destruct (str_eqb k1 k) eqn:E; simpl.
    + apply str_eqb_eq in E. split; [discriminate | intros H; exfalso; auto].
    + apply str_eqb_neq in E. rewrite IH. intuition.
Qed.

(** Grouping from the empty dictionary: the entries are exactly the keys
    that occur, each with the list of its values in order. *)
Lemma group_into_entry (k : str) (vs : list V) (kxs : list (str * V)) :
  In (k, vs) (group_into kxs []) <->
  vs = values_of k kxs /\ In k (map fst kxs).
Proof.
  rewrite dict_get_In by (apply group_into_NoDup; constructor).
  rewrite group_into_get. simpl.
  destruct (values_of k kxs) as [|v vs'] eqn:E.
  - apply values_of_nil_iff in E. split; [discriminate | tauto].
  - assert (Hin : In k (map fst kxs)).
    { destruct (in_dec str_eq_dec k (map fst kxs)) as [H|H]; trivial.
      apply values_of_nil_iff in H. congruence. }
    split.
    + intros H. injection H as <-. auto.
    + intros [-> _]. reflexivity.
Qed.

End GroupFacts.

Section SortFacts.

Variable A : Type.
Variable leb : A -> A -> bool.
Hypothesis leb_total : forall x y, leb x y = false -> leb y x = true.

Lemma insert_sorted_perm (x : A) (l : list A) :
  Permutation (insert_sorted leb x l) (x :: l).
Proof.
  induction l as [|y l IH]; simpl; [reflexivity|].
  destruct (leb x y); [reflexivity|].
  rewrite IH. apply perm_swap.
Qed.

Lemma sort_perm (l : list A) :
  Permutation (fold_right (insert_sorted leb) [] l) l.
Proof.
  induction l as [|x l IH]; simpl; [reflexivity|].
  rewrite insert_sorted_perm. now constructor.
Qed.

Lemma insert_sorted_Sorted (x : A) (l : list A) :
  Sorted (le_of leb) l -> Sorted (le_of leb) (insert_sorted leb x l).
Proof.
  induction 1 as [|y l Hl IH Hhd]; simpl.
  - repeat constructor.
  - destruct (leb x y) eqn:E.
    + constructor; [now constructor | now constructor].
    + constructor; [exact IH|].
      destruct l as [|z l]; simpl.
      * constructor. now apply leb_total.
      * destruct (leb x z); constructor.
        -- now apply leb_total.
        -- now inversion Hhd.
Qed.

Lemma sort_Sorted (l : list A) :
  Sorted (le_of leb) (fold_right (insert_sorted leb) [] l).
Proof.
  induction l as [|x l IH]; simpl; [constructor|].
  now apply insert_sorted_Sorted.
Qed.

End SortFacts.

Lemma str_le_trans : Relations_1.Transitive str_le.
Proof. intros s t u. apply str_leb_trans. Qed.

Lemma sorted_strs_perm (l : list str) : Permutation (sorted_strs l) l.
Proof. apply sort_perm. Qed.

Lemma sorted_strs_In (l : list str) (x : str) : In x (sorted_strs l) <-> In x l.
Proof.
  split; apply Permutation_in;
    [apply sorted_strs_perm | apply Permutation_sym, sorted_strs_perm].
Qed.

Lemma sorted_strs_sorted (l : list str) : StronglySorted str_le (sorted_strs l).
Proof.
  apply Sorted_StronglySorted; [exact str_le_trans|].
  apply sort_Sorted. exact str_leb_total.
Qed.

Lemma sorted_strs_NoDup (l : list str) : NoDup l -> NoDup (sorted_strs l).
Proof.
  intros H. eapply Permutation_NoDup; [|exact H].
  apply Permutation_sym, sorted_strs_perm.
Qed.

Lemma item_leb_total (x y : str * nat) :
  item_leb x y = false -> item_leb y x = true.
Proof.
  unfold item_leb. destruct (str_eqb (fst x) (fst y)) eqn:E.
  - apply str_eqb_eq in E. rewrite E, str_eqb_refl.
    rewrite Nat.leb_gt. intros H. apply Nat.leb_le. lia.
  - assert (E' : str_eqb (fst y) (fst x) = false).
    { apply str_eqb_neq. apply str_eqb_neq in E. congruence. }
    rewrite E'. apply str_leb_total.
Qed.

Lemma item_leb_key (x y : str * nat) :
  item_leb x y = true -> str_le (fst x) (fst y).
Proof.
  unfold item_leb, str_le. destruct (str_eqb (fst x) (fst y)) eqn:E; trivial.
  apply str_eqb_eq in E. rewrite E. intros _. apply str_leb_refl.
Qed.

Lemma sorted_items_perm (d : dict nat) : Permutation (sorted_items d) d.
Proof. apply sort_perm. Qed.

Lemma Sorted_map_keys (d : dict nat) :
  Sorted (le_of item_leb) d -> Sorted str_le (keys d).
Proof.
  induction 1 as [|x d Hd IH Hhd]; simpl; constructor; trivial.
  destruct Hhd; simpl; constructor. now apply item_leb_key.
Qed.

Lemma sorted_items_keys_sorted (d : dict nat) :
  StronglySorted str_le (keys (sorted_items d)).
Proof.
  apply Sorted_StronglySorted; [exact str_le_trans|].
  apply Sorted_map_keys. apply sort_Sorted. exact item_leb_total.
Qed.

(** ** The consensus list of extract-controls.py *)

Lemma walk_In (A : Type) (extract : file -> str -> list A) (fs : tree) (x : A) :
  In x (walk extract fs) <->
  exists tool files f,
    In tool TOOLS /\ fs tool = Some files /\ In f files /\ In x (extract f tool).
Proof.
  unfold walk. rewrite in_flat_map. split.
  - intros [tool [Ht Hx]]. destruct (fs tool) as [files|] eqn:E; [|destruct Hx].
    apply in_flat_map in Hx as [f [Hf Hx]]. now exists tool, files, f.
  - intros [tool [files [f [Ht [E [Hf Hx]]]]]]. exists tool. split; trivial.
    rewrite E. apply in_flat_map. now exists f.
Qed.

Lemma extracted_tool (f : file) (tool : str) (c : Controls.control) :
  In c (Controls.extract_controls_from_file f tool) ->
  Controls.conversion_tool c = tool.
Proof.
  unfold Controls.extract_controls_from_file, Controls.controls_of_text.
  destruct (f_read f) as [content|e]; [|intros []].
  intros H. apply in_flat_map in H as [[n line] [_ H]].
  apply in_map_iff in H as [m [<- _]]. reflexivity.
Qed.

Lemma corpus_tools (fs : tree) (c : Controls.control) :
  In c (Controls.all_controls fs) -> In (Controls.conversion_tool c) TOOLS.
Proof.
  unfold Controls.all_controls. rewrite walk_In.
  intros [tool [files [f [Ht [_ [_ Hc]]]]]].
  apply extracted_tool in Hc. now rewrite Hc.
Qed.

Lemma tally_control (cs : list Controls.control) (t : Controls.tallies) :
  Controls.t_control (fold_left Controls.tally cs t) =
  group_into
    (map (fun c => (Controls.control_id c, Controls.conversion_tool c)) cs)
    (Controls.t_control t).
Proof.
  revert t; induction cs as [|c cs IH]; intros t; simpl;
    [reflexivity | apply IH].
Qed.

Lemma values_of_labels (cid : str) (cs : list Controls.control) :
  values_of cid
    (map (fun c => (Controls.control_id c, Controls.conversion_tool c)) cs) =
  labels_of cid cs.
Proof.
  unfold values_of, labels_of. induction cs as [|c cs IH]; simpl; trivial.
  destruct (str_eqb (Controls.control_id c) cid); simpl; now rewrite IH.
Qed.

Lemma labels_of_nonempty (cid : str) (cs : list Controls.control) :
  labels_of cid cs <> [] ->
  In cid (map fst
    (map (fun c => (Controls.control_id c, Controls.conversion_tool c)) cs)).
Proof.
  intros H.
  destruct (in_dec str_eq_dec cid
    (map fst (map (fun c => (Controls.control_id c, Controls.conversion_tool c)) cs)))
    as [Hin|Hout]; trivial.
  apply values_of_nil_iff in Hout. rewrite values_of_labels in Hout.
  contradiction.
Qed.

Lemma TOOLS_NoDup : NoDup TOOLS.
Proof.
  unfold TOOLS. repeat constructor; simpl; intuition discriminate.
Qed.

(** Among labels drawn from the three tools, three distinct labels are all
    of them. *)
Lemma three_labels_all (ls : list str) :
  (forall x, In x ls -> In x TOOLS) ->
  (length (to_set ls) = 3 <-> same_set ls TOOLS).
Proof.
  intros Hsub. split.
  - intros Hlen x. split; [apply Hsub|].
    intros Hx. apply to_set_In.
    apply (@NoDup_length_incl _ (to_set ls) TOOLS (to_set_NoDup ls)); trivial.
    + rewrite Hlen. simpl. lia.
    + intros y Hy. apply Hsub. now apply to_set_In.
  - intros Hsame. apply Nat.le_antisymm.
    + change 3 with (length TOOLS). apply NoDup_incl_length.
      * apply to_set_NoDup.
      * intros y Hy. apply Hsame. now apply to_set_In.
    + change 3 with (length TOOLS). apply NoDup_incl_length.
      * apply TOOLS_NoDup.
      * intros y Hy. apply to_set_In. now apply Hsame.
Qed.

Lemma consensus_of_corpus (cs : list Controls.control) (cid : str) :
  (forall c, In c cs -> In (Controls.conversion_tool c) TOOLS) ->
  (In cid (Controls.controls_found_by_all_tools (Controls.summarize cs)) <->
   same_set (labels_of cid cs) TOOLS).
Proof.
  intros Htools.
  assert (Hsub : forall x, In x (labels_of cid cs) -> In x TOOLS).
  { intros x Hx. unfold labels_of in Hx.
    apply in_map_iff in Hx as [c [<- Hc]]. apply filter_In in Hc as [Hc _].
    now apply Htools. }
  unfold Controls.summarize. simpl. rewrite sorted_strs_In.
  unfold Controls.controls_all_tools, Controls.tally_all.
  rewrite tally_control. simpl. rewrite in_map_iff.
  rewrite <- (three_labels_all _ Hsub). split.
  - intros [[k tools] [Hk Hin]]. simpl in Hk. subst k.
    apply filter_In in Hin as [Hin Hlen]. simpl in Hlen.
    apply group_into_entry in Hin as [-> _].
    rewrite values_of_labels in Hlen. now apply Nat.eqb_eq.
  - intros Hlen. exists (cid, labels_of cid cs). split; trivial.
    apply filter_In. split.
    + apply group_into_entry. split; [now rewrite values_of_labels|].
      apply labels_of_nonempty. intros E. rewrite E in Hlen. discriminate.
    + simpl. now apply Nat.eqb_eq.
Qed.

(** C1. For every directory tree, a control identifier is in
    [controls_found_by_all_tools] if and only if the set of tool labels on
    its occurrence records is the set of the three configured tools
    (pandoc, markitdown, docling). *)
Theorem consensus_iff_all_backends (fs : tree) (cid : str) :
  length TOOLS = 3 /\
  (In cid (Controls.controls_found_by_all_tools (snd (Controls.main fs))) <->
   same_set (labels_of cid (fst (Controls.main fs))) TOOLS).
Proof.
  split; [reflexivity|].
  unfold Controls.main. simpl. apply consensus_of_corpus.
  intros c. apply corpus_tools.
Qed.

Lemma consensus_iff_all_backends_witness :
  let fs := three_tools_tree "See AC-2." in
  In (txt "AC-2")
     (Controls.controls_found_by_all_tools (snd (Controls.main fs))) /\
  same_set (labels_of (txt "AC-2") (fst (Controls.main fs))) TOOLS.
Proof.
  assert (H : In (txt "AC-2")
     (Controls.controls_found_by_all_tools
        (snd (Controls.main (three_tools_tree "See AC-2.")))))
    by (vm_compute; left; reflexivity).
  split; [exact H|].
  exact (proj1 (proj2 (consensus_iff_all_backends
                         (three_tools_tree "See AC-2.") (txt "AC-2"))) H).
Defined.

(** ** Key order of the summary maps *)

Lemma str_in_keys (V : Type) (k : str) (d : dict V) :
  str_in k (keys d) = match dict_get k d with Some _ => true | None => false end.
Proof.
  destruct (dict_get k d) eqn:E.
  - apply str_in_In. destruct (in_dec str_eq_dec k (keys d)) as [H|H]; trivial.
    apply dict_get_None in H. congruence.
  - apply dict_get_None in E. destruct (str_in k (keys d)) eqn:E'; trivial.
    apply str_in_In in E'. contradiction.
Qed.

(** A dictionary filled by one write per element lists its keys in order
    of first occurrence. *)
Lemma keys_fold_upd (X V : Type) (key : X -> str) (f : X -> option V -> V)
    (xs : list X) (d : dict V) :
  keys (fold_left (fun d x => dict_upd (key x) (f x) d) xs d) =
  fold_left (fun s x => set_add x s) (map key xs) (keys d).
Proof.
  revert d; induction xs as [|x xs IH]; intros d; simpl; trivial.
  rewrite IH. f_equal. rewrite keys_upd. unfold set_add.
  rewrite str_in_keys. now destruct (dict_get (key x) d).
Qed.

Lemma tally_tool (cs : list Controls.control) (t : Controls.tallies) :
  Controls.t_tool (fold_left Controls.tally cs t) =
  fold_left (fun d c => dict_add (Controls.conversion_tool c) 1 d) cs
            (Controls.t_tool t).
Proof.
  revert t; induction cs as [|c cs IH]; intros t; simpl;
    [reflexivity | apply IH].
Qed.

Lemma tally_document (cs : list Controls.control) (t : Controls.tallies) :
  Controls.t_document (fold_left Controls.tally cs t) =
  fold_left (fun d c => dict_add (Controls.source_document c) 1 d) cs
            (Controls.t_document t).
Proof.
  revert t; induction cs as [|c cs IH]; intros t; simpl;
    [reflexivity | apply IH].
Qed.

Lemma keys_map_snd (V W : Type) (g : str * V -> W) (d : dict V) :
  keys (map (fun kv => (fst kv, g kv)) d) = keys d.
Proof. unfold keys. rewrite map_map. reflexivity. Qed.

Lemma pair_not_sorted (x y : str) :
  str_leb x y = false -> ~ Sorted str_le [x; y].
Proof.
  intros E H. inversion H as [|? ? _ Hhd]; subst.
  inversion Hhd as [|? ? Hle]; subst.
  unfold str_le, le_of in Hle. congruence.
Qed.

(** C4. On a tree with one policy under pandoc and a guide before it
    under markitdown, four summary maps come out with their keys out of
    order: [by_tool] and [by_document] of the control summary, [by_type]
    of the metadata summary and [unique_values_by_type] of the entity
    summary keep the order in which their keys were first met, while
    [by_family] of the control summary and [by_type] of the entity
    summary, which go through [sorted], are in order. *)
Theorem summary_maps_unsorted :
  let cs := snd (Controls.main policy_and_guide) in
  let es := snd (Entities.main policy_and_guide) in
  let ms := snd (Metadata.main policy_and_guide) in
  keys (Controls.by_tool cs) = [txt "pandoc"; txt "markitdown"] /\
  ~ Sorted str_le (keys (Controls.by_tool cs)) /\
  keys (Controls.by_document cs) = [txt "policy.md"; txt "guide.md"] /\
  ~ Sorted str_le (keys (Controls.by_document cs)) /\
  keys (Metadata.by_type ms) = [txt "policy"; txt "guide"] /\
  ~ Sorted str_le (keys (Metadata.by_type ms)) /\
  keys (Entities.unique_values_by_type es) = [txt "role"; txt "organization"] /\
  ~ Sorted str_le (keys (Entities.unique_values_by_type es)) /\
  keys (Controls.by_family cs) = [txt "AC"; txt "SC"] /\
  keys (Entities.by_type es) = [txt "organization"; txt "role"].
Proof.
  cbv zeta.
  assert (E1 : keys (Controls.by_tool (snd (Controls.main policy_and_guide)))
               = [txt "pandoc"; txt "markitdown"]) by (vm_compute; reflexivity).
  assert (E2 : keys (Controls.by_document
                       (snd (Controls.main policy_and_guide)))
               = [txt "policy.md"; txt "guide.md"]) by (vm_compute; reflexivity).
  assert (E3 : keys (Metadata.by_type (snd (Metadata.main policy_and_guide)))
               = [txt "policy"; txt "guide"]) by (vm_compute; reflexivity).
  assert (E4 : keys (Entities.unique_values_by_type
                       (snd (Entities.main policy_and_guide)))
               = [txt "role"; txt "organization"]) by (vm_compute; reflexivity).
  rewrite E1, E2, E3, E4.
  repeat split; try (apply pair_not_sorted; reflexivity);
    vm_compute; reflexivity.
Qed.

(** The key order of the summary maps in every run: [by_family] of the
    control summary and [by_type] of the entity summary are emitted with
    their keys in sorted order; [by_tool] and [by_document] of the control
    summary, [by_type] of the metadata summary and [unique_values_by_type]
    of the entity summary are emitted with their keys in order of first
    occurrence in the record list. *)
Theorem summary_key_order (fs : tree) :
  let cs := Controls.main fs in
  let es := Entities.main fs in
  let ms := Metadata.main fs in
  StronglySorted str_le (keys (Controls.by_family (snd cs))) /\
  StronglySorted str_le (keys (Entities.by_type (snd es))) /\
  keys (Controls.by_tool (snd cs)) =
    to_set (map Controls.conversion_tool (fst cs)) /\
  keys (Controls.by_document (snd cs)) =
    to_set (map Controls.source_document (fst cs)) /\
  keys (Metadata.by_type (snd ms)) =
    to_set (map Metadata.get_document_type (fst ms)) /\
  keys (Entities.unique_values_by_type (snd es)) =
    to_set (map Entities.entity_type (fst es)).
Proof.
  simpl. repeat split.
  - apply sorted_items_keys_sorted.
  - rewrite keys_map_snd. apply sorted_items_keys_sorted.
  - unfold Controls.tally_all. rewrite tally_tool. unfold dict_add.
    apply (keys_fold_upd Controls.conversion_tool).
  - unfold Controls.tally_all. rewrite tally_document. unfold dict_add.
    apply (keys_fold_upd Controls.source_document).
  - unfold dict_add. apply (keys_fold_upd Metadata.get_document_type).
  - rewrite keys_map_snd. unfold Entities.tally_unique, Entities.dict_set_add.
    apply (keys_fold_upd Entities.entity_type).
Qed.

(** ** [unique_values_by_type] of extract-entities.py *)

Lemma tally_unique_get (k : str) (es : list Entities.entity_record)
    (d : dict (list str)) :
  dict_get k
    (fold_left (fun d e => Entities.dict_set_add (Entities.entity_type e)
                                                 (Entities.value e) d) es d) =
  match dict_get k d with
  | Some u => Some (fold_left (fun s x => set_add x s) (type_values k es) u)
  | None =>
      match type_values k es with
      | [] => None
      | v :: l => Some (fold_left (fun s x => set_add x s) l [v])
      end
  end.
Proof.
  revert d; induction es as [|e es IH]; intros d; simpl.
  - now destruct (dict_get k d).
  - rewrite IH. unfold type_values, Entities.dict_set_add. simpl.
    destruct (str_eqb (Entities.entity_type e) k) eqn:E.
    + apply str_eqb_eq in E. rewrite E. rewrite dict_get_upd_same. simpl.
      now destruct (dict_get k d).
    + apply str_eqb_neq in E. now rewrite dict_get_upd_other.
Qed.

Lemma tally_unique_NoDup (es : list Entities.entity_record) :
  NoDup (keys (Entities.tally_unique es)).
Proof.
  unfold Entities.tally_unique, Entities.dict_set_add.
  rewrite (keys_fold_upd Entities.entity_type). apply fold_set_add_NoDup.
  constructor.
Qed.

Lemma tally_unique_entry (k : str) (u : list str)
    (es : list Entities.entity_record) :
  In (k, u) (Entities.tally_unique es) -> u = to_set (type_values k es).
Proof.
  intros H. apply dict_get_In in H; [|apply tally_unique_NoDup].
  unfold Entities.tally_unique in H. rewrite tally_unique_get in H. simpl in H.
  destruct (type_values k es) as [|v l]; [discriminate|].
  injection H as <-. reflexivity.
Qed.

Lemma tally_keys_agree (es : list Entities.entity_record) :
  keys (Entities.tally_by_type es) = keys (Entities.tally_unique es).
Proof.
  unfold Entities.tally_by_type, Entities.tally_unique, dict_add,
    Entities.dict_set_add.
  now rewrite !(keys_fold_upd Entities.entity_type).
Qed.

Lemma firstn_In (A : Type) (n : nat) (l : list A) (x : A) :
  In x (firstn n l) -> In x l.
Proof.
  revert n; induction l as [|y l IH]; intros [|n]; simpl; try tauto.
  intros [H|H]; [now left | right; eapply IH; eassumption].
Qed.

Lemma StronglySorted_firstn (A : Type) (R : A -> A -> Prop) (n : nat)
    (l : list A) :
  StronglySorted R l -> StronglySorted R (firstn n l).
Proof.
  revert n; induction l as [|x l IH]; intros [|n] H; simpl; try constructor.
  - apply IH. now inversion H.
  - inversion H as [|? ? _ Hall]; subst. rewrite Forall_forall in *.
    intros y Hy. apply Hall. eapply firstn_In; eassumption.
Qed.

Lemma StronglySorted_app_le (A : Type) (R : A -> A -> Prop) (l1 l2 : list A) :
  StronglySorted R (l1 ++ l2) ->
  forall x y, In x l1 -> In y l2 -> R x y.
Proof.
  induction l1 as [|a l1 IH]; simpl; intros H x y Hx Hy; [destruct Hx|].
  inversion H as [|? ? Hs Hall]; subst. destruct Hx as [<-|Hx].
  - rewrite Forall_forall in Hall. apply Hall. apply in_or_app. now right.
  - now apply IH.
Qed.

(** C10. For every entity type [k] in [unique_values_by_type], the list
    [vs] under it is the first 20 entries of the sorted list of the
    distinct values [U] extracted for that type: it has at most 20 entries,
    it is sorted, every value of [U] left out is at least as large as every
    value listed, and it is the whole sorted list when [U] has 20 values or
    fewer; the [unique_values] count of [by_type] is the size of [U]. *)
Theorem unique_values_smallest_20 (fs : tree) (k : str) (vs : list str) :
  let es := fst (Entities.main fs) in
  let s := snd (Entities.main fs) in
  let U := to_set (type_values k es) in
  In (k, vs) (Entities.unique_values_by_type s) ->
  NoDup U /\ (forall v, In v U <-> In v (type_values k es)) /\
  vs = firstn 20 (sorted_strs U) /\
  length vs <= 20 /\
  StronglySorted str_le vs /\
  (forall v, In v vs -> In v U) /\
  (forall v w, In v vs -> In w U -> ~ In w vs -> str_le v w) /\
  (length U <= 20 -> vs = sorted_strs U) /\
  exists n, In (k, Entities.TypeCount n (length U)) (Entities.by_type s).
Proof.
  intros es s U H. unfold s, Entities.main, Entities.summarize in H.
  cbn [fst snd Entities.unique_values_by_type] in H.
  apply in_map_iff in H as [[k' u] [Heq Hin]]. cbn [fst snd] in Heq.
  pose proof (f_equal fst Heq) as Hk'. pose proof (f_equal snd Heq) as Hvs.
  cbn [fst snd] in Hk', Hvs. subst k' vs. clear Heq.
  pose proof (tally_unique_entry _ _ _ Hin) as Hu. fold es in Hu. fold U in Hu.
  subst u.
  assert (Hsplit : sorted_strs U = firstn 20 (sorted_strs U) ++ skipn 20 (sorted_strs U)).
  { symmetry. apply firstn_skipn. }
  split; [apply to_set_NoDup|].
  split; [intros v; apply to_set_In|].
  split; [reflexivity|].
  split; [apply firstn_le_length|].
  split; [apply StronglySorted_firstn, sorted_strs_sorted|].
  split.
  { intros v Hv. apply sorted_strs_In. eapply firstn_In; eassumption. }
  split.
  { intros v w Hv Hw Hnot.
    apply sorted_strs_In in Hw. rewrite Hsplit in Hw.
    apply in_app_or in Hw as [Hw|Hw]; [contradiction|].
    apply (@StronglySorted_app_le _ str_le (firstn 20 (sorted_strs U))
             (skipn 20 (sorted_strs U))); trivial.
    rewrite <- Hsplit. apply sorted_strs_sorted. }
  split.
  { intros Hlen. apply firstn_all2.
    rewrite (Permutation_length (sorted_strs_perm U)). exact Hlen. }
  assert (Hk : In k (keys (Entities.tally_by_type es))).
  { rewrite tally_keys_agree. unfold keys. apply in_map_iff.
    now exists (k, U). }
  unfold keys in Hk. apply in_map_iff in Hk as [[k' n] [Hk' Hn]].
  simpl in Hk'. subst k'. exists n.
  unfold s, Entities.main, Entities.summarize.
  cbn [fst snd Entities.by_type]. apply in_map_iff. exists (k, n). split.
  - cbn [fst snd]. do 2 f_equal. unfold Entities.unique_of.
    apply dict_get_In in Hin; [|apply tally_unique_NoDup].
    fold es. now rewrite Hin.
  - eapply Permutation_in; [|exact Hn].
    apply Permutation_sym, sorted_items_perm.
Qed.

Lemma unique_values_smallest_20_witness :
  let fs := three_tools_tree "The CISO met the CTO and the ciso." in
  let U := to_set (type_values (txt "role") (fst (Entities.main fs))) in
  In (txt "role", [txt "CISO"; txt "CTO"])
     (Entities.unique_values_by_type (snd (Entities.main fs))) /\
  [txt "CISO"; txt "CTO"] = firstn 20 (sorted_strs U).
Proof.
  assert (H : In (txt "role", [txt "CISO"; txt "CTO"])
     (Entities.unique_values_by_type
        (snd (Entities.main
                (three_tools_tree "The CISO met the CTO and the ciso."))))).
  { vm_compute. left. reflexivity. }
  split; [exact H|].
  exact (proj1 (proj2 (proj2 (unique_values_smallest_20 _ _ _ H)))).
Defined.

(** ** One entity record per type and normalized value *)

Lemma ENTITY_PATTERNS_NoDup : NoDup (keys Entities.ENTITY_PATTERNS).
Proof.
  assert (E : keys Entities.ENTITY_PATTERNS =
              [txt "role"; txt "organization"; txt "system"; txt "standard";
               txt "crypto_module"; txt "email"; txt "url"; txt "timeline"])
    by reflexivity.
  rewrite E. repeat constructor; simpl; intuition discriminate.
Qed.

Lemma patterns_of_entry (tp : str * list regex) :
  In tp Entities.ENTITY_PATTERNS -> patterns_of (fst tp) = snd tp.
Proof.
  intros H. unfold patterns_of. destruct tp as [k ps]. cbn [fst snd].
  apply dict_get_In in H; [|exact ENTITY_PATTERNS_NoDup]. now rewrite H.
Qed.

Lemma records_of_type_In (f : file) (tool content : str)
    (tp : str * list regex) (r : Entities.entity_record) :
  In r (Entities.records_of_type f tool content tp) <->
  exists v,
    In v (map fst (Entities.raw_matches (fst tp) (snd tp) content)) /\
    r = Entities.Entity (fst tp) v
          (length (values_of v (Entities.raw_matches (fst tp) (snd tp) content)))
          (f_name f) tool
          (firstn 3 (values_of v (Entities.raw_matches (fst tp) (snd tp) content))).
Proof.
  unfold Entities.records_of_type, Entities.found_values.
  change (fold_left _ ?raw []) with (group_into raw []).
  rewrite in_map_iff. split.
  - intros [[v ctxs] [<- Hin]]. apply group_into_entry in Hin as [-> Hv].
    exists v. simpl. auto.
  - intros [v [Hv ->]].
    exists (v, values_of v (Entities.raw_matches (fst tp) (snd tp) content)).
    split; [reflexivity|]. apply group_into_entry. auto.
Qed.

Lemma records_of_type_NoDup (f : file) (tool content : str)
    (tp : str * list regex) :
  NoDup (map type_and_value (Entities.records_of_type f tool content tp)).
Proof.
  unfold Entities.records_of_type, Entities.found_values.
  change (fold_left _ ?raw []) with (group_into raw []).
  rewrite map_map. unfold type_and_value. simpl.
  assert (H : NoDup (keys (group_into
                (Entities.raw_matches (fst tp) (snd tp) content) [])))
    by (apply group_into_NoDup; constructor).
  unfold keys in H. revert H.
  generalize (group_into (Entities.raw_matches (fst tp) (snd tp) content) []).
  induction d as [|[v c] d IH]; simpl; intros H; constructor.
  - inversion H as [|? ? Hv _]; subst. intros Hin. apply Hv.
    apply in_map_iff in Hin as [[v' c'] [E Hin]]. simpl in E.
    injection E as ->. apply in_map_iff. now exists (v, c').
  - apply IH. now inversion H.
Qed.

Lemma records_types_NoDup (f : file) (tool content : str)
    (tps : list (str * list regex)) :
  NoDup (keys tps) ->
  NoDup (map type_and_value
           (flat_map (Entities.records_of_type f tool content) tps)).
Proof.
  induction tps as [|tp tps IH]; simpl; intros H; [constructor|].
  inversion H as [|? ? Hk Hd]; subst. rewrite map_app. apply NoDup_app.
  - apply records_of_type_NoDup.
  - now apply IH.
  - intros [k v] H1 H2.
    apply in_map_iff in H1 as [r1 [E1 H1]].
    apply in_map_iff in H2 as [r2 [E2 H2]].
    apply records_of_type_In in H1 as [v1 [_ ->]].
    apply in_flat_map in H2 as [tp' [Htp' H2]].
    apply records_of_type_In in H2 as [v2 [_ ->]].
    unfold type_and_value in E1, E2. simpl in E1, E2.
    apply Hk. apply in_map_iff. exists tp'. split; [congruence | assumption].
Qed.

(** C7. For every document and tool: no two entity records have the same
    entity type and value; a type and a normalized value with at least one
    raw match have a record; and in every record [occurrences] is the
    number of raw matches of the patterns of its own type that normalize to
    its value, which is at least one, and [sample_contexts] holds the first
    [min(occurrences, 3)] contexts of those matches.  The counts are taken
    on normalized values. *)
Theorem one_record_per_type_and_value (name path tool content : str) :
  let rs := Entities.extract_entities_from_file
              (File name path (inl content)) tool in
  NoDup (map type_and_value rs) /\
  (forall tp v,
     In tp (keys Entities.ENTITY_PATTERNS) ->
     raw_contexts tp v content <> [] ->
     exists r, In r rs /\ type_and_value r = (tp, v)) /\
  (forall r, In r rs ->
     let ctxs := raw_contexts (Entities.entity_type r) (Entities.value r)
                              content in
     In (Entities.entity_type r) (keys Entities.ENTITY_PATTERNS) /\
     Entities.occurrences r = length ctxs /\
     1 <= Entities.occurrences r /\
     Entities.sample_contexts r = firstn 3 ctxs /\
     length (Entities.sample_contexts r) = Nat.min (Entities.occurrences r) 3).
Proof.
  unfold Entities.extract_entities_from_file, Entities.entities_of_text.
  cbn [f_read]. split; [|split].
  - apply records_types_NoDup, ENTITY_PATTERNS_NoDup.
  - intros tp v Htp Hraw. unfold keys in Htp.
    apply in_map_iff in Htp as [[k ps] [Hk Hin]]. simpl in Hk. subst k.
    unfold raw_contexts in Hraw.
    pose proof (patterns_of_entry Hin) as E. cbn [fst snd] in E.
    rewrite E in Hraw.
    eexists. split.
    + apply in_flat_map. exists (tp, ps). split; [exact Hin|].
      apply records_of_type_In. exists v. split; [|reflexivity].
      cbn [fst snd].
      destruct (in_dec str_eq_dec v
                  (map fst (Entities.raw_matches tp ps content))) as [H|H];
        trivial.
      apply values_of_nil_iff in H. contradiction.
    + reflexivity.
  - intros r Hr. apply in_flat_map in Hr as [tp [Htp Hr]].
    apply records_of_type_In in Hr as [v [Hv ->]]. cbn zeta.
    cbn [Entities.entity_type Entities.value Entities.occurrences
         Entities.sample_contexts].
    unfold raw_contexts. rewrite (patterns_of_entry Htp).
    assert (Hne : values_of v (Entities.raw_matches (fst tp) (snd tp) content)
                  <> []).
    { intros E. apply values_of_nil_iff in E. contradiction. }
    split; [|split; [|split; [|split]]].
    + unfold keys. now apply in_map.
    + reflexivity.
    + destruct (values_of v _); [contradiction | simpl; lia].
    + reflexivity.
    + rewrite length_firstn. apply Nat.min_comm.
Qed.

Lemma one_record_per_type_and_value_witness :
  In ciso_record
     (Entities.extract_entities_from_file
        (File (txt "policy.md") (txt "pandoc/markdown/policy.md")
              (inl two_roles)) (txt "pandoc")) /\
  Entities.occurrences ciso_record =
    length (raw_contexts (txt "role") (txt "CISO") two_roles).
Proof.
  assert (H : In ciso_record
     (Entities.extract_entities_from_file
        (File (txt "policy.md") (txt "pandoc/markdown/policy.md")
              (inl two_roles)) (txt "pandoc")))
    by (vm_compute; left; reflexivity).
  split; [exact H|].
  exact (proj1 (proj2 (proj2 (proj2 (one_record_per_type_and_value
           (txt "policy.md") (txt "pandoc/markdown/policy.md") (txt "pandoc")
           two_roles)) ciso_record H))).
Defined.

(** ** Files that cannot be read *)

Lemma unreadable_no_controls (name path e tool : str) :
  Controls.extract_controls_from_file (File name path (inr e)) tool = [].
Proof. reflexivity. Qed.

Lemma unreadable_no_entities (name path e tool : str) :
  Entities.extract_entities_from_file (File name path (inr e)) tool = [].
Proof. reflexivity. Qed.

(** C2. On a tree whose only file cannot be read, the control and entity
    extractors contribute no record, but the metadata extractor contributes
    the record [{"error": ...}], which [main] appends to [documents] and
    tallies: [total_documents] is 1 and [by_type] counts one document of
    type unknown. *)
Theorem unreadable_file_counted_by_metadata :
  fst (Controls.main unreadable_tree) = [] /\
  fst (Entities.main unreadable_tree) = [] /\
  fst (Metadata.main unreadable_tree) = [Metadata.MetaError decode_error] /\
  Metadata.total_documents (snd (Metadata.main unreadable_tree)) = 1 /\
  Metadata.by_type (snd (Metadata.main unreadable_tree)) = [(txt "unknown", 1)].
Proof. repeat split; vm_compute; reflexivity. Qed.

(** ** The dates of extract-metadata.py *)

Lemma dates_of_pattern_length (dates found : list str) :
  length (Metadata.dates_of_pattern dates found)
  <= Nat.max 5 (S (length found)).
Proof.
  revert found; induction dates as [|d dates IH]; intros found;
    cbn [Metadata.dates_of_pattern]; [lia|].
  destruct (str_in d found); [apply IH|].
  pose proof (length_app found [d]) as Hlen. cbn [length] in Hlen.
  destruct (5 <=? length (found ++ [d])) eqn:E.
  - lia.
  - apply Nat.leb_gt in E. specialize (IH (found ++ [d])). lia.
Qed.

Lemma dates_of_pattern_NoDup (dates found : list str) :
  NoDup found -> NoDup (Metadata.dates_of_pattern dates found).
Proof.
  revert found; induction dates as [|d dates IH]; intros found H;
    cbn [Metadata.dates_of_pattern]; trivial.
  destruct (str_in d found) eqn:E; [now apply IH|].
  assert (H' : NoDup (found ++ [d])).
  { pose proof (set_add_NoDup d H) as Hs. unfold set_add in Hs.
    now rewrite E in Hs. }
  destruct (5 <=? length (found ++ [d])); [exact H' | now apply IH].
Qed.

Lemma dates_fold_length (P : Type) (g : P -> list str) (ps : list P)
    (found : list str) :
  length (fold_left (fun found p => Metadata.dates_of_pattern (g p) found)
                    ps found)
  <= Nat.max (4 + length ps) (length found + length ps).
Proof.
  revert found; induction ps as [|p ps IH]; intros found; cbn [fold_left length].
  - lia.
  - specialize (IH (Metadata.dates_of_pattern (g p) found)).
    pose proof (dates_of_pattern_length (g p) found). lia.
Qed.

Lemma dates_fold_NoDup (P : Type) (g : P -> list str) (ps : list P)
    (found : list str) :
  NoDup found ->
  NoDup (fold_left (fun found p => Metadata.dates_of_pattern (g p) found)
                   ps found).
Proof.
  revert found; induction ps as [|p ps IH]; intros found H; cbn [fold_left];
    trivial.
  apply IH. now apply dates_of_pattern_NoDup.
Qed.

(** Each of the four patterns can push the list one past the limit: the
    list has no repetition and at most eight entries. *)
Lemma dates_found_bound (content : str) :
  NoDup (Metadata.extract_dates content) /\
  length (Metadata.extract_dates content) <= 8.
Proof.
  unfold Metadata.extract_dates. split.
  - apply (dates_fold_NoDup
             (fun p => map (Metadata.group1 content)
                           (finditer false false p content))).
    constructor.
  - pose proof (dates_fold_length
             (fun p => map (Metadata.group1 content)
                           (finditer false false p content))
             Metadata.DATE_PATTERNS []) as H.
    cbn [length Metadata.DATE_PATTERNS] in H.
    change (length Metadata.DATE_PATTERNS) with 4 in H. simpl in H. exact H.
Qed.

(** C3. A document with seven distinct dates, five of them labeled, gets
    six entries in [dates_found]: the [break] at five entries leaves the
    loop over the matches of one pattern only, and the next pattern appends
    one more date. *)
Theorem seven_dates_give_six :
  Metadata.extract_dates seven_dates =
    [ txt "2024-01-01"; txt "2024-01-02"; txt "2024-01-03"; txt "2024-01-04";
      txt "2024-01-05"; txt "2024-01-06" ] /\
  length (Metadata.extract_dates seven_dates) = 6.
Proof. split; vm_compute; reflexivity. Qed.

(** ** The title of extract-metadata.py *)

(** C5. A document whose first two lines are a heading underlined with
    [=] gets no title: each pattern is matched against one line at a time,
    and the underline pattern needs the line break inside its subject. *)
Theorem underlined_heading_no_title :
  Metadata.extract_title (split_lines underlined_title) = None /\
  exists m,
    Metadata.extract_metadata_from_file
      (File (txt "plan.md") (txt "output/pandoc/markdown/plan.md")
            (inl underlined_title)) (txt "pandoc") = Metadata.Meta m /\
    Metadata.title m = None.
Proof.
  split; [vm_compute; reflexivity|].
  eexists. split; [reflexivity|]. vm_compute. reflexivity.
Qed.

(** ** Facts about the matcher *)

Section EngineFacts.

Variable icase : bool.
Variable multiline : bool.

Lemma run_Seq_In (a b : regex) (s e : mstate) :
  In e (run icase multiline (Seq a b) s) <-> exists x, In x (run icase multiline a s) /\ In e (run icase multiline b x).
Proof. cbn [run]. apply in_flat_map. Qed.

Lemma run_Eps_In (s e : mstate) : In e (run icase multiline Eps s) <-> e = s.
Proof. cbn [run]. simpl. intuition. Qed.

Lemma run_Grp_In (n : nat) (a : regex) (s e : mstate) :
  In e (run icase multiline (Grp n a) s) <->
  exists x, In x (run icase multiline a s) /\ e = set_cap n (pos s) (pos x) x.
Proof.
  cbn [run]. rewrite in_map_iff. split; intros [x [H1 H2]]; exists x; auto.
Qed.

Lemma run_Chr_In (p : ascii -> bool) (s e : mstate) :
  In e (run icase multiline (Chr p) s) <->
  exists a t, rest s = a :: t /\ class_test icase p a = true /\ e = advance a t s.
Proof.
  cbn [run]. destruct (rest s) as [|a t].
  - split; [intros [] | intros [a [t [H _]]]; discriminate].
  - destruct (class_test icase p a) eqn:E; simpl.
    + split.
      * intros [<-|[]]. now exists a, t.
      * intros [a' [t' [H [_ ->]]]]. injection H as <- <-. now left.
    + split; [intros [] | intros [a' [t' [H [Hc _]]]]].
      injection H as <- <-. congruence.
Qed.

(** What a repeated character class consumes. *)
Lemma rep_chr_In (p : ascii -> bool) (lo : nat) (hi : option nat)
    (fuel cnt : nat) (s e : mstate) :
  In e (rep_loop (run icase multiline (Chr p)) lo hi fuel cnt s) ->
  exists pre,
    rest s = pre ++ rest e /\
    pos e = pos s + length pre /\
    caps e = caps s /\
    Forall (fun a => class_test icase p a = true) pre /\
    lo <= cnt + length pre /\
    (forall h, hi = Some h -> cnt + length pre <= Nat.max h cnt).
Proof.
  revert cnt s; induction fuel as [|fuel IH]; intros cnt s; cbn [rep_loop];
    [intros []|].
  intros H. apply in_app_or in H as [H|H].
  - destruct (below hi cnt) eqn:Hb; [|destruct H].
    apply in_flat_map in H as [s1 [H1 H]].
    apply run_Chr_In in H1 as [a [t [Hr [Hc ->]]]].
    destruct (pos s <? pos (advance a t s)); [|destruct H].
    apply IH in H as [pre [E1 [E2 [E3 [E4 [E5 E6]]]]]].
    exists (a :: pre). cbn [advance rest pos caps length] in *.
    repeat split.
    + rewrite Hr. simpl. now rewrite E1.
    + lia.
    + assumption.
    + now constructor.
    + lia.
    + intros h Hh. specialize (E6 h Hh). subst hi. simpl in Hb.
      apply Nat.ltb_lt in Hb. lia.
  - destruct (lo <=? cnt) eqn:Hl; [|destruct H].
    destruct H as [<-|[]]. apply Nat.leb_le in Hl. exists [].
    simpl. repeat split; trivial; lia.
Qed.

(** An optional part is either skipped or matched once. *)
Lemma run_opt_In (r : regex) (s e : mstate) :
  In e (run icase multiline (opt r) s) -> e = s \/ In e (run icase multiline r s).
Proof.
  unfold opt. cbn [run rep_loop]. intros H. apply in_app_or in H as [H|H].
  - right. simpl in H. apply in_flat_map in H as [s1 [H1 H]].
    destruct (pos s <? pos s1); [|destruct H].
    destruct (length (rest s)) as [|n]; cbn [rep_loop] in H; [destruct H|].
    simpl in H. destruct H as [<-|[]]. exact H1.
  - simpl in H. destruct H as [<-|[]]. now left.
Qed.

End EngineFacts.

(** ** The fuel of a repetition

    Every result of [run] keeps the end of the subject in place, so a
    round that advances shortens the input left, and a repetition never
    uses up fuel that exceeds that length: its results do not depend on the
    fuel. *)

Lemma flat_map_ext_In (A B : Type) (f g : A -> list B) (l : list A) :
  (forall x, In x l -> f x = g x) -> flat_map f l = flat_map g l.
Proof.
  induction l as [|x l IH]; intros H; simpl; trivial.
  rewrite (H x) by now left. f_equal. apply IH. intros y Hy. apply H.
  now right.
Qed.

Lemma rep_loop_keeps_end (body : mstate -> list mstate) (lo : nat)
    (hi : option nat) (fuel : nat) :
  keeps_end body ->
  forall cnt s e, In e (rep_loop body lo hi fuel cnt s) ->
    pos e + length (rest e) = pos s + length (rest s).
Proof.
  intros Hb. induction fuel as [|fuel IH]; intros cnt s e; cbn [rep_loop];
    [intros []|].
  intros H. apply in_app_or in H as [H|H].
  - destruct (below hi cnt); [|destruct H].
    apply in_flat_map in H as [s1 [H1 H]].
    destruct (pos s <? pos s1); [|destruct H].
    apply IH in H. apply Hb in H1. lia.
  - destruct (lo <=? cnt); [|destruct H]. now destruct H as [<-|[]].
Qed.

Lemma run_keeps_end (ic ml : bool) (r : regex) : keeps_end (run ic ml r).
Proof.
  induction r as [|p| |a IHa b IHb|a IHa b IHb|lo hi a IHa|n a IHa| | |];
    intros s e; cbn [run].
  - now intros [<-|[]].
  - destruct (rest s) as [|c t] eqn:E; [intros []|].
    destruct (class_test ic p c); [|intros []].
    intros [<-|[]]. simpl. lia.
  - destruct (rest s) as [|c t] eqn:E; [intros []|].
    destruct (ascii_eqb c newline); [intros []|].
    intros [<-|[]]. simpl. lia.
  - intros H. apply in_flat_map in H as [x [Hx He]].
    apply IHa in Hx. apply IHb in He. lia.
  - intros H. apply in_app_or in H as [H|H]; [now apply IHa | now apply IHb].
  - now apply rep_loop_keeps_end.
  - intros H. apply in_map_iff in H as [x [<- Hx]]. apply IHa in Hx.
    simpl. exact Hx.
  - destruct (at_boundary s); [now intros [<-|[]] | intros []].
  - destruct (at_bol ml s); [now intros [<-|[]] | intros []].
  - destruct (at_eol ml s); [now intros [<-|[]] | intros []].
Qed.

Lemma rep_loop_fuel (body : mstate -> list mstate) (lo : nat)
    (hi : option nat) :
  keeps_end body ->
  forall f1 f2 cnt s,
    length (rest s) < f1 -> length (rest s) < f2 ->
    rep_loop body lo hi f1 cnt s = rep_loop body lo hi f2 cnt s.
Proof.
  intros Hb. induction f1 as [|f1 IH]; intros f2 cnt s H1 H2; [lia|].
  destruct f2 as [|f2]; [lia|]. cbn [rep_loop]. f_equal.
  destruct (below hi cnt); trivial.
  apply flat_map_ext_In. intros s1 Hs1.
  destruct (pos s <? pos s1) eqn:E; trivial.
  apply Nat.ltb_lt in E. apply Hb in Hs1. apply IH; lia.
Qed.

(** The fuel that [run] gives a repetition is enough. *)
Lemma run_Rep_fuel (ic ml : bool) (lo : nat) (hi : option nat) (a : regex)
    (s : mstate) (fuel : nat) :
  length (rest s) < fuel ->
  run ic ml (Rep lo hi a) s = rep_loop (run ic ml a) lo hi fuel 0 s.
Proof.
  intros H. cbn [run]. apply rep_loop_fuel; [apply run_keeps_end | lia | exact H].
Qed.

(** Every match that [scan] reports is the first result of the pattern at
    some offset of the subject. *)
Lemma scan_In (ic ml : bool) (r : regex) (s : str) (i : nat)
    (p : option ascii) (skip : nat) (m : rmatch) :
  In m (scan ic ml r i p s skip) ->
  exists pre s' e l,
    s = pre ++ s' /\
    run ic ml r (MState (i + length pre) (prev_of pre p) s' []) = e :: l /\
    m = mk_match (i + length pre) e.
Proof.
  revert i p skip; induction s as [|a t IH]; intros i p skip H.
  - destruct skip as [|k]; cbn [scan] in H; [|destruct H].
    destruct (run ic ml r (MState i p [] [])) as [|e l] eqn:E; [destruct H|].
    destruct H as [<-|[]]. exists [], [], e, l. simpl.
    rewrite Nat.add_0_r. auto.
  - assert (Hrec : forall k, In m (scan ic ml r (S i) (Some a) t k) ->
              exists pre s' e l,
                a :: t = pre ++ s' /\
                run ic ml r (MState (i + length pre) (prev_of pre p) s' [])
                  = e :: l /\
                m = mk_match (i + length pre) e).
    { intros k Hk. apply IH in Hk as [pre [s' [e [l [E1 [E2 E3]]]]]].
      exists (a :: pre), s', e, l. simpl.
      replace (i + S (length pre)) with (S i + length pre) by lia.
      rewrite E1. auto. }
    destruct skip as [|k]; cbn [scan] in H; [|now apply Hrec in H].
    destruct (run ic ml r (MState i p (a :: t) [])) as [|e l] eqn:E;
      [now apply Hrec in H|].
    destruct H as [<-|H]; [|now apply Hrec in H].
    exists [], (a :: t), e, l. simpl. rewrite Nat.add_0_r. auto.
Qed.

Lemma finditer_In (ic ml : bool) (r : regex) (subject : str) (m : rmatch) :
  In m (finditer ic ml r subject) ->
  exists pre s' e l,
    subject = pre ++ s' /\
    run ic ml r (MState (length pre) (prev_of pre None) s' []) = e :: l /\
    m = mk_match (length pre) e.
Proof. intros H. apply scan_In in H. exact H. Qed.

(** Character classes under IGNORECASE *)

Lemma icase_upper (a : ascii) : class_test true is_upper a = is_alpha a.
Proof. destruct a as [[] [] [] [] [] [] [] []]; reflexivity. Qed.

Lemma icase_lower (a : ascii) : class_test true is_lower a = is_alpha a.
Proof. destruct a as [[] [] [] [] [] [] [] []]; reflexivity. Qed.

Lemma icase_digit (a : ascii) : class_test true is_digit a = is_digit a.
Proof. destruct a as [[] [] [] [] [] [] [] []]; reflexivity. Qed.

Lemma icase_symbol (c a : ascii) :
  is_alpha c = false -> class_test true (ascii_eqb c) a = true -> a = c.
Proof.
  unfold class_test. intros Hc H. cbn [andb] in H.
  apply orb_true_iff in H as [H|H].
  - apply Ascii.eqb_eq in H. congruence.
  - apply orb_true_iff in H as [H|H]; apply Ascii.eqb_eq in H;
      subst c; revert Hc;
      destruct a as [[] [] [] [] [] [] [] []]; vm_compute; congruence.
Qed.

Lemma upper_alpha (a : ascii) :
  is_alpha a = true -> is_upper (to_upper a) = true.
Proof. destruct a as [[] [] [] [] [] [] [] []]; vm_compute; congruence. Qed.

Lemma lower_alpha (a : ascii) :
  is_alpha a = true -> is_lower (to_lower a) = true.
Proof. destruct a as [[] [] [] [] [] [] [] []]; vm_compute; congruence. Qed.

(** Slices *)

Lemma slice_at (a b c : str) (i j : nat) :
  i = length a -> j = length a + length b -> slice (a ++ b ++ c) i j = b.
Proof.
  intros -> ->. unfold slice. rewrite skipn_app, skipn_all, Nat.sub_diag.
  simpl. replace (length a + length b - length a) with (length b + 0) by lia.
  rewrite firstn_app_2. simpl. apply app_nil_r.
Qed.

(** ** The shape of a control reference *)

Lemma grp_rep_stage (ic ml : bool) (n : nat) (p : ascii -> bool) (lo : nat)
    (hi : option nat) (s s' : mstate) :
  In s' (run ic ml (Grp n (Rep lo hi (Chr p))) s) ->
  exists pre,
    rest s = pre ++ rest s' /\
    pos s' = pos s + length pre /\
    caps s' = (n, (pos s, pos s + length pre)) :: caps s /\
    all_chars (class_test ic p) pre /\
    lo <= length pre /\
    (forall h, hi = Some h -> length pre <= h).
Proof.
  intros H. apply run_Grp_In in H as [x [H ->]].
  change (run ic ml (Rep lo hi (Chr p)) s)
    with (rep_loop (run ic ml (Chr p)) lo hi (S (length (rest s))) 0 s) in H.
  apply rep_chr_In in H as [pre [E1 [E2 [E3 [E4 [E5 E6]]]]]].
  exists pre. cbn [set_cap rest pos caps]. rewrite E2, E3.
  repeat split; trivial; try lia.
  intros h Hh. specialize (E6 h Hh). lia.
Qed.

Lemma symbol_stage (c : ascii) (s s' : mstate) :
  is_alpha c = false ->
  In s' (run true false (chr c) s) ->
  rest s = c :: rest s' /\ pos s' = S (pos s) /\ caps s' = caps s.
Proof.
  intros Hc H. unfold chr in H.
  apply run_Chr_In in H as [a [t [E [Hcl ->]]]].
  apply icase_symbol in Hcl; [|exact Hc]. subst a. auto.
Qed.

Lemma enhancement_stage (s s' : mstate) :
  In s' (run true false
           (opt (seqs [chr "("; Grp 3 (plus digit); chr ")"])) s) ->
  exists enh,
    rest s = enh_text enh ++ rest s' /\
    pos s' = pos s + length (enh_text enh) /\
    caps s' =
      match enh with
      | Some ds => [(3, (S (pos s), S (pos s) + length ds))]
      | None => []
      end ++ caps s /\
    (forall ds, enh = Some ds -> ds <> [] /\ all_chars is_digit ds).
Proof.
  intros H. apply run_opt_In in H as [->|H].
  - exists None. simpl. rewrite Nat.add_0_r. repeat split; discriminate.
  - unfold seqs in H. cbn [fold_right] in H.
    apply run_Seq_In in H as [s1 [H1 H]].
    apply symbol_stage in H1 as [R1 [P1 C1]]; [|reflexivity].
    apply run_Seq_In in H as [s2 [H2 H]]. unfold plus, digit in H2.
    apply grp_rep_stage in H2 as [ds [R2 [P2 [C2 [D2 [L2 _]]]]]].
    apply run_Seq_In in H as [s3 [H3 H]].
    apply symbol_stage in H3 as [R3 [P3 C3]]; [|reflexivity].
    apply run_Eps_In in H. subst s'.
    exists (Some ds). cbn [enh_text]. repeat split.
    + rewrite R1, R2, R3. simpl. now rewrite <- app_assoc.
    + rewrite P3, P2, P1. simpl. rewrite length_app. simpl. lia.
    + rewrite C3, C2, C1, P1. reflexivity.
    + injection H as <-. intros E. subst ds. simpl in L2. lia.
    + injection H as <-. unfold all_chars in *.
      eapply Forall_impl; [|exact D2]. intros a Ha. cbv beta in Ha.
      now rewrite icase_digit in Ha.
Qed.

Lemma part_stage (s s' : mstate) :
  In s' (run true false (opt (seqs [chr "."; Grp 4 (Chr is_lower)])) s) ->
  exists part,
    rest s = part_text part ++ rest s' /\
    pos s' = pos s + length (part_text part) /\
    caps s' =
      match part with
      | Some q => [(4, (S (pos s), S (pos s) + length q))]
      | None => []
      end ++ caps s /\
    (forall q, part = Some q -> exists c, q = [c] /\ is_alpha c = true).
Proof.
  intros H. apply run_opt_In in H as [->|H].
  - exists None. simpl. rewrite Nat.add_0_r. repeat split; discriminate.
  - unfold seqs in H. cbn [fold_right] in H.
    apply run_Seq_In in H as [s1 [H1 H]].
    apply symbol_stage in H1 as [R1 [P1 C1]]; [|reflexivity].
    apply run_Seq_In in H as [s2 [H2 H]].
    apply run_Grp_In in H2 as [x [H2 ->]].
    apply run_Chr_In in H2 as [c [t [R2 [D2 ->]]]].
    apply run_Eps_In in H. subst s'.
    exists (Some [c]). cbn [part_text set_cap advance rest pos caps length].
    repeat split.
    + rewrite R1, R2. reflexivity.
    + rewrite P1. simpl. lia.
    + rewrite C1, P1. simpl. now rewrite Nat.add_1_r.
    + intros q Hq. injection Hq as <-. exists c. split; trivial.
      now rewrite icase_lower in D2.
Qed.

(** The four groups of a match whose spans lie on the pieces of a
    reference. *)
Lemma parts_from_caps (line pre fam num tail : str) (enh part : option str)
    (m : rmatch) (a1 a2 a3 a4 : nat) :
  line = pre ++ fam ++ txt "-" ++ num ++ enh_text enh ++ part_text part
             ++ tail ->
  m_caps m =
    match part with Some q => [(4, (a4, a4 + length q))] | None => [] end
    ++ match enh with Some ds => [(3, (a3, a3 + length ds))] | None => [] end
    ++ [(2, (a2, a2 + length num)); (1, (a1, a1 + length fam))] ->
  a1 = length pre ->
  a2 = length pre + length fam + 1 ->
  a3 = a2 + length num + 1 ->
  a4 = a2 + length num + length (enh_text enh) + 1 ->
  Controls.parts_of line m = Controls.Parts (upper fam) num enh part.
Proof.
  intros Hline Hcaps E1 E2 E3 E4.
  unfold Controls.parts_of, group. rewrite Hcaps.
  assert (G1 : slice line a1 (a1 + length fam) = fam).
  { rewrite Hline. apply slice_at; lia. }
  assert (G2 : slice line a2 (a2 + length num) = num).
  { rewrite Hline.
    replace (pre ++ fam ++ txt "-" ++ num ++ enh_text enh ++ part_text part
               ++ tail)
      with ((pre ++ fam ++ txt "-") ++ num ++ enh_text enh ++ part_text part
               ++ tail)
      by (now rewrite <- !app_assoc).
    apply slice_at; rewrite !length_app; simpl; lia. }
  assert (G3 : forall ds, enh = Some ds ->
               slice line a3 (a3 + length ds) = ds).
  { intros ds ->. rewrite Hline. cbn [enh_text].
    replace (pre ++ fam ++ txt "-" ++ num ++ (txt "(" ++ ds ++ txt ")")
               ++ part_text part ++ tail)
      with ((pre ++ fam ++ txt "-" ++ num ++ txt "(") ++ ds
               ++ txt ")" ++ part_text part ++ tail)
      by (now rewrite <- !app_assoc).
    apply slice_at; rewrite !length_app; simpl; lia. }
  assert (G4 : forall q, part = Some q ->
               slice line a4 (a4 + length q) = q).
  { intros q ->. rewrite Hline. cbn [part_text].
    replace (pre ++ fam ++ txt "-" ++ num ++ enh_text enh
               ++ (txt "." ++ q) ++ tail)
      with ((pre ++ fam ++ txt "-" ++ num ++ enh_text enh ++ txt ".")
               ++ q ++ tail)
      by (now rewrite <- !app_assoc).
    apply slice_at; rewrite !length_app; simpl; lia. }
  destruct enh as [ds|], part as [q|]; cbn [app lookup_cap Nat.eqb];
    rewrite ?G1, ?G2, ?(G3 _ eq_refl), ?(G4 _ eq_refl); reflexivity.
Qed.

Lemma control_groups (line pre : str) (s e : mstate) :
  line = pre ++ rest s -> pos s = length pre -> caps s = [] ->
  In e (run true false Controls.CONTROL_PATTERN s) ->
  exists fam num enh part,
    rest s = fam ++ txt "-" ++ num ++ enh_text enh ++ part_text part ++ rest e /\
    pos e = pos s + length (fam ++ txt "-" ++ num ++ enh_text enh
                                ++ part_text part) /\
    length fam = 2 /\ all_chars is_alpha fam /\
    1 <= length num <= 2 /\ all_chars is_digit num /\
    (forall ds, enh = Some ds -> ds <> [] /\ all_chars is_digit ds) /\
    (forall q, part = Some q -> exists c, q = [c] /\ is_alpha c = true) /\
    Controls.parts_of line (mk_match (pos s) e) =
      Controls.Parts (upper fam) num enh part.
Proof.
  intros Hline Hpos Hcaps H.
  unfold Controls.CONTROL_PATTERN, seqs in H. cbn [fold_right] in H.
  apply run_Seq_In in H as [s1 [H1 H]]. cbn [run] in H1.
  destruct (at_boundary s); [|destruct H1]. destruct H1 as [<-|[]].
  apply run_Seq_In in H as [s2 [H2 H]].
  apply grp_rep_stage in H2 as [fam [R2 [P2 [C2 [D2 [L2 U2]]]]]].
  specialize (U2 2 eq_refl).
  apply run_Seq_In in H as [s3 [H3 H]].
  apply symbol_stage in H3 as [R3 [P3 C3]]; [|reflexivity].
  apply run_Seq_In in H as [s4 [H4 H]]. unfold digit in H4.
  apply grp_rep_stage in H4 as [num [R4 [P4 [C4 [D4 [L4 U4]]]]]].
  specialize (U4 2 eq_refl).
  apply run_Seq_In in H as [s5 [H5 H]].
  apply enhancement_stage in H5 as [enh [R5 [P5 [C5 D5]]]].
  apply run_Seq_In in H as [s6 [H6 H]].
  apply part_stage in H6 as [part [R6 [P6 [C6 D6]]]].
  apply run_Eps_In in H. subst s6.
  exists fam, num, enh, part.
  assert (Hrest : rest s = fam ++ txt "-" ++ num ++ enh_text enh
                           ++ part_text part ++ rest e).
  { rewrite R2, R3, R4, R5, R6. reflexivity. }
  split; [exact Hrest|].
  split.
  { rewrite P6, P5, P4, P3, P2. rewrite !length_app. simpl. lia. }
  split; [lia|].
  split.
  { unfold all_chars in *. eapply Forall_impl; [|exact D2].
    intros a Ha. cbv beta in Ha. now rewrite icase_upper in Ha. }
  split; [lia|].
  split.
  { unfold all_chars in *. eapply Forall_impl; [|exact D4].
    intros a Ha. cbv beta in Ha. now rewrite icase_digit in Ha. }
  split; [exact D5|]. split; [exact D6|].
  apply (@parts_from_caps line pre fam num (rest e) enh part
           (mk_match (pos s) e) (pos s) (pos s3) (S (pos s4)) (S (pos s5)));
    try lia.
  - now rewrite Hline, Hrest.
  - cbn [mk_match m_caps]. now rewrite C6, C5, C4, C3, C2, Hcaps.
Qed.



Lemma all_upper (s : str) : all_chars is_alpha s -> all_chars is_upper (upper s).
Proof.
  unfold all_chars, upper. induction 1; simpl; constructor; trivial.
  now apply upper_alpha.
Qed.



(** ** The first result of a pattern *)

Section FirstResult.

Variable ic : bool.
Variable ml : bool.

Lemma first_Seq (a b : regex) (s x e : mstate) :
  first_result ic ml a s x -> first_result ic ml b x e ->
  first_result ic ml (Seq a b) s e.
Proof.
  intros [l Hl] [l' Hl']. unfold first_result. cbn [run]. rewrite Hl.
  cbn [flat_map]. rewrite Hl'. simpl. eauto.
Qed.

Lemma first_Eps (s : mstate) : first_result ic ml Eps s s.
Proof. exists []. reflexivity. Qed.

Lemma first_Grp (n : nat) (a : regex) (s x : mstate) :
  first_result ic ml a s x ->
  first_result ic ml (Grp n a) s (set_cap n (pos s) (pos x) x).
Proof.
  intros [l Hl]. unfold first_result. cbn [run]. rewrite Hl. simpl. eauto.
Qed.

Lemma first_Chr (p : ascii -> bool) (s : mstate) (a : ascii) (t : str) :
  rest s = a :: t -> class_test ic p a = true ->
  first_result ic ml (Chr p) s (advance a t s).
Proof.
  intros Hr Hc. unfold first_result. cbn [run]. rewrite Hr, Hc. eauto.
Qed.

Lemma first_opt_skip (r : regex) (s : mstate) :
  run ic ml r s = [] -> first_result ic ml (opt r) s s.
Proof.
  intros H. unfold first_result, opt. cbn [run rep_loop]. rewrite H.
  simpl. eauto.
Qed.

Lemma first_opt_take (r : regex) (s x : mstate) :
  first_result ic ml r s x -> pos s < pos x -> rest s <> [] ->
  first_result ic ml (opt r) s x.
Proof.
  intros [l Hl] Hp Hr. unfold first_result, opt. cbn [run rep_loop].
  rewrite Hl. cbn [below flat_map].
  apply Nat.ltb_lt in Hp. rewrite Hp.
  destruct (rest s) as [|a t]; [contradiction|].
  cbn [length rep_loop below]. simpl. eauto.
Qed.

(** A greedy repetition of a character class takes the whole run of
    characters of the class, when it ends at the bound or at a character
    outside the class. *)
Lemma first_rep_chr (p : ascii -> bool) (lo : nat) (hi : option nat)
    (pre t : str) (fuel cnt : nat) (s : mstate) :
  all_chars (class_test ic p) pre ->
  (hi = Some (cnt + length pre) \/
   match t with a :: _ => class_test ic p a = false | [] => True end) ->
  rest s = pre ++ t ->
  length pre < fuel ->
  lo <= cnt + length pre ->
  (forall h, hi = Some h -> cnt + length pre <= h) ->
  exists e l,
    rep_loop (run ic ml (Chr p)) lo hi fuel cnt s = e :: l /\
    rest e = t /\ pos e = pos s + length pre /\ caps e = caps s.
Proof.
  intros Hall. revert fuel cnt s. set (body := run ic ml (Chr p)).
  induction Hall as [|a pre Ha Hpre IH]; intros fuel cnt s Hstop Hr Hf Hlo Hhi;
    (destruct fuel as [|fuel]; [simpl in Hf; lia|]); cbn [rep_loop].
  - cbn [length app] in *. rewrite Nat.add_0_r in *.
    assert (Hl : (lo <=? cnt) = true) by (apply Nat.leb_le; lia).
    rewrite Hl. exists s, [].
    repeat split; trivial.
    destruct Hstop as [->|Hstop].
    + simpl. now rewrite Nat.ltb_irrefl.
    + assert (Hbody : body s = []).
      { unfold body. cbn [run]. rewrite Hr.
        destruct t as [|b t]; trivial. now rewrite Hstop. }
      rewrite Hbody. now destruct (below hi cnt).
  - cbn [length app] in *.
    assert (Hb : below hi cnt = true).
    { destruct hi as [h|]; trivial. simpl. apply Nat.ltb_lt.
      specialize (Hhi h eq_refl). lia. }
    assert (Hbody : body s = [advance a (pre ++ t) s]).
    { unfold body. cbn [run]. now rewrite Hr, Ha. }
    rewrite Hb, Hbody. cbn [flat_map advance pos].
    assert (Hp : (pos s <? S (pos s)) = true) by (apply Nat.ltb_lt; lia).
    rewrite Hp.
    destruct (IH fuel (S cnt) (advance a (pre ++ t) s))
      as [e [l [E1 [E2 [E3 E4]]]]].
    + destruct Hstop as [->|Hstop]; [left; f_equal; lia | now right].
    + reflexivity.
    + lia.
    + lia.
    + intros h Hh. specialize (Hhi h Hh). lia.
    + rewrite E1. exists e. eexists. split; [reflexivity|].
      cbn [advance pos caps] in *. repeat split; trivial. lia.
Qed.

End FirstResult.

(** ** Canonical identifiers *)

Lemma first_grp_rep (ic ml : bool) (n : nat) (p : ascii -> bool) (lo : nat)
    (hi : option nat) (pre t : str) (s : mstate) :
  all_chars (class_test ic p) pre ->
  (hi = Some (length pre) \/
   match t with a :: _ => class_test ic p a = false | [] => True end) ->
  rest s = pre ++ t ->
  lo <= length pre ->
  (forall h, hi = Some h -> length pre <= h) ->
  exists e,
    first_result ic ml (Grp n (Rep lo hi (Chr p))) s e /\
    rest e = t /\ pos e = pos s + length pre /\
    caps e = (n, (pos s, pos s + length pre)) :: caps s.
Proof.
  intros Hall Hstop Hr Hlo Hhi.
  destruct (@first_rep_chr ic ml p lo hi pre t (S (length (rest s))) 0 s)
    as [x [l [E1 [E2 [E3 E4]]]]]; trivial.
  - rewrite Hr, length_app. lia.
  - exists (set_cap n (pos s) (pos x) x). split.
    + apply first_Grp. exists l. exact E1.
    + cbn [set_cap rest pos caps]. rewrite E3, E4. auto.
Qed.

Lemma first_symbol (c : ascii) (t : str) (s : mstate) :
  rest s = c :: t -> first_result true false (chr c) s (advance c t s).
Proof.
  intros H. apply first_Chr; trivial.
  unfold class_test. now rewrite Ascii.eqb_refl.
Qed.

Lemma no_symbol (c : ascii) (s : mstate) (r : regex) :
  is_alpha c = false ->
  match rest s with a :: _ => a <> c | [] => True end ->
  run true false (Seq (chr c) r) s = [].
Proof.
  intros Hc H. cbn [run chr]. destruct (rest s) as [|a t]; trivial.
  destruct (class_test true (ascii_eqb c) a) eqn:E; trivial.
  apply icase_symbol in E; trivial. contradiction.
Qed.

Lemma first_enhancement (enh : option str) (t : str) (s : mstate) :
  rest s = enh_text enh ++ t ->
  (forall ds, enh = Some ds -> ds <> [] /\ all_chars is_digit ds) ->
  (enh = None -> match t with a :: _ => a <> "("%char | [] => True end) ->
  exists e,
    first_result true false
      (opt (seqs [chr "("; Grp 3 (plus digit); chr ")"])) s e /\
    rest e = t /\ pos e = pos s + length (enh_text enh) /\
    caps e =
      match enh with
      | Some ds => [(3, (S (pos s), S (pos s) + length ds))]
      | None => []
      end ++ caps s.
Proof.
  intros Hr Hv Hn. destruct enh as [ds|]; cbn [enh_text] in *.
  - destruct (Hv ds eq_refl) as [Hne Hds].
    change (txt "(" ++ ds ++ txt ")") with ("("%char :: ds ++ [")"%char]) in *.
    cbn [app] in Hr. rewrite <- app_assoc in Hr. cbn [app] in Hr.
    pose proof (@first_symbol _ _ _ Hr) as F1.
    destruct (@first_grp_rep true false 3 is_digit 1 None ds (")"%char :: t)
                (advance "(" (ds ++ ")"%char :: t) s))
      as [x [F2 [E2 [E3 E4]]]]; trivial.
    + unfold all_chars in *. eapply Forall_impl; [|exact Hds].
      intros a Ha. cbv beta. now rewrite icase_digit.
    + right. reflexivity.
    + destruct ds; [contradiction | simpl; lia].
    + discriminate.
    + pose proof (@first_symbol _ _ _ E2) as F3.
      exists (advance ")" t x). split.
      * apply first_opt_take.
        -- unfold seqs. cbn [fold_right].
           eapply first_Seq; [exact F1|].
           eapply first_Seq; [exact F2|].
           eapply first_Seq; [exact F3|]. apply first_Eps.
        -- cbn [advance pos] in *. lia.
        -- rewrite Hr. discriminate.
      * cbn [advance rest pos caps] in *. rewrite E3, E4.
        repeat split; trivial. cbn [length]. rewrite length_app. simpl. lia.
  - cbn [app] in *. exists s. split.
    + apply first_opt_skip. unfold seqs. cbn [fold_right].
      apply no_symbol; [reflexivity|]. rewrite Hr. now apply Hn.
    + simpl. repeat split; trivial.
Qed.

Lemma first_part (part : option str) (s : mstate) :
  rest s = part_text part ->
  (forall q, part = Some q -> exists c, q = [c] /\ is_lower c = true) ->
  exists e,
    first_result true false (opt (seqs [chr "."; Grp 4 (Chr is_lower)])) s e /\
    rest e = [] /\ pos e = pos s + length (part_text part) /\
    caps e =
      match part with
      | Some q => [(4, (S (pos s), S (pos s) + length q))]
      | None => []
      end ++ caps s.
Proof.
  intros Hr Hv. destruct part as [q|]; cbn [part_text] in *.
  - destruct (Hv q eq_refl) as [c [-> Hc]].
    change (txt "." ++ [c]) with ["."%char; c] in Hr.
    pose proof (@first_symbol _ _ _ Hr) as F1.
    assert (F2 : first_result true false (Grp 4 (Chr is_lower))
                   (advance "." [c] s)
                   (set_cap 4 (S (pos s)) (S (S (pos s)))
                      (advance c [] (advance "." [c] s)))).
    { apply (@first_Grp true false 4 (Chr is_lower) (advance "." [c] s)
               (advance c [] (advance "." [c] s))).
      apply first_Chr; [reflexivity|].
      unfold class_test. now rewrite Hc. }
    eexists. split.
    + apply first_opt_take.
      * unfold seqs. cbn [fold_right].
        eapply first_Seq; [exact F1|].
        eapply first_Seq; [exact F2|]. apply first_Eps.
      * cbn [set_cap advance pos]. lia.
      * rewrite Hr. discriminate.
    + cbn [set_cap advance rest pos caps length]. repeat split.
      * simpl. lia.
      * now rewrite Nat.add_1_r.
  - exists s. split.
    + apply first_opt_skip. unfold seqs. cbn [fold_right].
      apply no_symbol; [reflexivity|]. now rewrite Hr.
    + simpl. repeat split; trivial.
Qed.

Lemma forallb_all_chars (p : ascii -> bool) (s : str) :
  forallb p s = true -> all_chars p s.
Proof.
  unfold all_chars. rewrite forallb_forall, Forall_forall. auto.
Qed.

Lemma is_canonical_spec (fam num : str) (enh part : option str) :
  is_canonical fam num enh part = true ->
  length fam = 2 /\ all_chars is_upper fam /\
  1 <= length num <= 2 /\ all_chars is_digit num /\
  (forall ds, enh = Some ds -> ds <> [] /\ all_chars is_digit ds) /\
  (forall q, part = Some q -> exists c, q = [c] /\ is_lower c = true).
Proof.
  unfold is_canonical. rewrite !andb_true_iff.
  intros [[[[[[H1 H2] H3] H4] H5] H6] H7].
  apply Nat.eqb_eq in H1. apply Nat.leb_le in H3, H4.
  repeat split; trivial; try now apply forallb_all_chars.
  - subst enh. cbn [opt_all] in H6. apply andb_true_iff in H6 as [H6 _].
    apply Nat.leb_le in H6. intros ->. simpl in H6. lia.
  - subst enh. cbn [opt_all] in H6. apply andb_true_iff in H6 as [_ H6].
    now apply forallb_all_chars.
  - intros q ->. cbn [opt_all] in H7. apply andb_true_iff in H7 as [H7 H8].
    apply Nat.eqb_eq in H7. destruct q as [|c [|c' q]]; try discriminate.
    exists c. split; trivial. simpl in H8. now rewrite andb_true_r in H8.
Qed.

Lemma upper_id (s : str) : all_chars is_upper s -> upper s = s.
Proof.
  unfold all_chars, upper. induction 1 as [|a s Ha _ IH]; simpl; trivial.
  rewrite IH. f_equal. revert Ha.
  destruct a as [[] [] [] [] [] [] [] []]; vm_compute; congruence.
Qed.

Lemma to_lower_id (a : ascii) : is_lower a = true -> to_lower a = a.
Proof. destruct a as [[] [] [] [] [] [] [] []]; vm_compute; congruence. Qed.

Lemma class_test_plain (ic : bool) (p : ascii -> bool) (s : str) :
  all_chars p s -> all_chars (class_test ic p) s.
Proof.
  unfold all_chars. intros H. eapply Forall_impl; [|exact H].
  intros a Ha. unfold class_test. now rewrite Ha.
Qed.

Lemma first_WordB (ic ml : bool) (s : mstate) :
  at_boundary s = true -> first_result ic ml WordB s s.
Proof. intros H. exists []. cbn [run]. now rewrite H. Qed.

Lemma upper_is_word (a : ascii) : is_upper a = true -> is_word a = true.
Proof. destruct a as [[] [] [] [] [] [] [] []]; vm_compute; congruence. Qed.

(** On a canonical identifier the pattern matches the whole string, and
    its groups are the pieces of the identifier. *)
Lemma canonical_first_match (fam num : str) (enh part : option str) :
  is_canonical fam num enh part = true ->
  exists e,
    first_result true false Controls.CONTROL_PATTERN
      (MState 0 None (canonical_id fam num enh part) []) e /\
    pos e = length (canonical_id fam num enh part) /\
    Controls.parts_of (canonical_id fam num enh part) (mk_match 0 e) =
      Controls.Parts fam num enh part.
Proof.
  intros Hc.
  destruct (is_canonical_spec _ _ _ _ Hc) as [L1 [U1 [L2 [D2 [V3 V4]]]]].
  set (input := canonical_id fam num enh part).
  set (s := MState 0 None input []).
  assert (F0 : first_result true false WordB s s).
  { apply first_WordB. unfold at_boundary, s, input, canonical_id.
    cbn [prev rest word_opt]. destruct fam as [|a fam]; [discriminate|].
    inversion U1; subst. simpl. now rewrite upper_is_word. }
  destruct (@first_grp_rep true false 1 is_upper 2 (Some 2) fam
              (txt "-" ++ num ++ enh_text enh ++ part_text part) s)
    as [s2 [F2 [R2 [P2 C2]]]]; trivial.
  { now apply class_test_plain. }
  { left. now rewrite L1. }
  { lia. }
  { intros h Hh. injection Hh as <-. lia. }
  pose proof (@first_symbol _ _ _ R2) as F3.
  destruct (@first_grp_rep true false 2 is_digit 1 (Some 2) num
              (enh_text enh ++ part_text part)
              (advance "-" (num ++ enh_text enh ++ part_text part) s2))
    as [s4 [F4 [R4 [P4 C4]]]]; trivial.
  { now apply class_test_plain. }
  { right. destruct enh as [ds|]; [reflexivity|].
    destruct part as [q|]; reflexivity. }
  { lia. }
  { intros h Hh. injection Hh as <-. lia. }
  destruct (@first_enhancement enh (part_text part) s4)
    as [s5 [F5 [R5 [P5 C5]]]]; trivial.
  { intros _. destruct part as [q|]; simpl; [discriminate | trivial]. }
  assert (V4' : forall q, part = Some q ->
                  exists c, q = [c] /\ is_lower c = true) by exact V4.
  destruct (@first_part part s5) as [e [F6 [R6 [P6 C6]]]]; trivial.
  exists e. split; [|split].
  - unfold Controls.CONTROL_PATTERN, seqs. cbn [fold_right].
    eapply first_Seq; [exact F0|].
    eapply first_Seq; [exact F2|].
    eapply first_Seq; [exact F3|].
    eapply first_Seq; [exact F4|].
    eapply first_Seq; [exact F5|].
    eapply first_Seq; [exact F6|]. apply first_Eps.
  - rewrite P6, P5, P4. cbn [advance pos]. rewrite P2.
    unfold input, canonical_id, s. cbn [pos]. rewrite !length_app. simpl. lia.
  - replace (Controls.Parts fam num enh part)
      with (Controls.Parts (upper fam) num enh part)
      by (now rewrite (upper_id U1)).
    apply (@parts_from_caps input [] fam num [] enh part (mk_match 0 e)
             0 (pos s2 + 1) (S (pos s4)) (S (pos s5))).
    + unfold input, canonical_id. cbn [app]. now rewrite app_nil_r.
    + cbn [mk_match m_caps]. rewrite C6, C5, C4. cbn [advance caps pos].
      rewrite C2. cbn [s pos caps]. rewrite P2. cbn [s pos].
      rewrite Nat.add_1_r. reflexivity.
    + reflexivity.
    + rewrite P2. cbn [s pos length]. lia.
    + rewrite P4, P2. cbn [advance s pos length]. rewrite P2. cbn [s pos]. lia.
    + rewrite P5, P4, P2. cbn [advance s pos length]. rewrite P2.
      cbn [s pos]. lia.
Qed.

Lemma control_no_empty_match (i : nat) (p : option ascii) :
  run true false Controls.CONTROL_PATTERN (MState i p [] []) = [].
Proof.
  unfold Controls.CONTROL_PATTERN, seqs. cbn [fold_right run rest].
  destruct (at_boundary (MState i p [] [])); reflexivity.
Qed.

(** Offsets inside the previous match are passed over. *)
Lemma scan_skip_all (ic ml : bool) (r : regex) (t : str) (i : nat)
    (p : option ascii) :
  (forall j q, run ic ml r (MState j q [] []) = []) ->
  scan ic ml r i p t (length t) = [].
Proof.
  intros Hr. revert i p; induction t as [|a t IH]; intros i p; cbn [length scan].
  - now rewrite Hr.
  - apply IH.
Qed.

Lemma split_lines_from_single (cur s : str) :
  all_chars (fun a => negb (ascii_eqb a newline)) s ->
  split_lines_from cur s = [rev cur ++ s].
Proof.
  unfold all_chars. intros H. revert cur.
  induction H as [|a s Ha _ IH]; intros cur; simpl.
  - now rewrite app_nil_r.
  - apply negb_true_iff in Ha. rewrite Ha, IH. simpl.
    now rewrite <- app_assoc.
Qed.

Lemma canonical_one_line (fam num : str) (enh part : option str) :
  is_canonical fam num enh part = true ->
  split_lines (canonical_id fam num enh part) = [canonical_id fam num enh part].
Proof.
  intros Hc.
  destruct (is_canonical_spec _ _ _ _ Hc) as [_ [U1 [_ [D2 [V3 V4]]]]].
  apply (split_lines_from_single []).
  assert (Hup : forall s, all_chars is_upper s ->
                  all_chars (fun a => negb (ascii_eqb a newline)) s).
  { intros s Hs. unfold all_chars in *. eapply Forall_impl; [|exact Hs].
    intros a. destruct a as [[] [] [] [] [] [] [] []]; vm_compute; congruence. }
  assert (Hdg : forall s, all_chars is_digit s ->
                  all_chars (fun a => negb (ascii_eqb a newline)) s).
  { intros s Hs. unfold all_chars in *. eapply Forall_impl; [|exact Hs].
    intros a. destruct a as [[] [] [] [] [] [] [] []]; vm_compute; congruence. }
  unfold canonical_id, all_chars. apply Forall_app; split.
  - now apply Hup.
  - apply Forall_app; split; [repeat constructor|].
    apply Forall_app; split; [now apply Hdg|].
    apply Forall_app; split.
    + destruct enh as [ds|]; [|constructor]. cbn [enh_text].
      destruct (V3 ds eq_refl) as [_ Hds].
      apply Forall_app; split; [repeat constructor|].
      apply Forall_app; split; [now apply Hdg | repeat constructor].
    + destruct part as [q|]; [|constructor]. cbn [part_text].
      destruct (V4 q eq_refl) as [c [-> Hl]].
      apply Forall_app; split; [repeat constructor|].
      constructor; [|constructor]. revert Hl.
      destruct c as [[] [] [] [] [] [] [] []]; vm_compute; congruence.
Qed.

Lemma build_id_canonical (fam num : str) (enh part : option str) :
  is_canonical fam num enh part = true ->
  Controls.build_id (Controls.Parts fam num enh part) =
  canonical_id fam num enh part.
Proof.
  intros Hc.
  destruct (is_canonical_spec _ _ _ _ Hc) as [_ [_ [_ [_ [V3 V4]]]]].
  unfold Controls.build_id, canonical_id.
  cbn [Controls.p_family Controls.p_number Controls.p_enhancement
       Controls.p_part].
  rewrite <- !app_assoc. do 3 f_equal.
  assert (E1 : (if truthy enh
                then txt "(" ++ or_empty enh ++ txt ")" else [])
               = enh_text enh).
  { destruct enh as [ds|]; trivial. destruct (V3 ds eq_refl) as [Hne _].
    destruct ds; [contradiction | reflexivity]. }
  assert (E2 : (if truthy part
                then txt "." ++ lower (or_empty part) else [])
               = part_text part).
  { destruct part as [q|]; trivial. destruct (V4 q eq_refl) as [c [-> Hl]].
    simpl. now rewrite to_lower_id. }
  now rewrite E1, E2.
Qed.

(** C6. For a canonical identifier [FF-N[(E)][.p]] given as the text of a
    file, the pattern has one match, the whole string; its groups are the
    family, the number, the enhancement and the part of the identifier;
    and the extractor emits one record, whose [control_id] is the input
    string, whose family is [FF], whose [base_control] is [FF-N], and whose
    [has_enhancement] and [enhancement_number] give [E]. *)
Theorem canonical_round_trip (name path tool fam num : str)
    (enh part : option str) :
  is_canonical fam num enh part = true ->
  let input := canonical_id fam num enh part in
  exists m ctx,
    Controls.line_matches input = [m] /\
    m_start m = 0 /\ m_end m = length input /\
    Controls.parts_of input m = Controls.Parts fam num enh part /\
    Controls.extract_controls_from_file (File name path (inl input)) tool =
      [ Controls.Control input fam (Controls.family_name fam)
          (fam ++ txt "-" ++ num) (is_some enh) enh
          name path tool 1 0 ctx ].
Proof.
  intros Hc input.
  destruct (canonical_first_match _ _ _ _ Hc) as [e [[l F] [P G]]].
  fold input in F, P, G.
  assert (Hm : Controls.line_matches input = [mk_match 0 e]).
  { unfold Controls.line_matches, finditer.
    destruct input as [|a t] eqn:E.
    - exfalso. unfold input, canonical_id in E.
      destruct (is_canonical_spec _ _ _ _ Hc) as [L1 _].
      destruct fam; discriminate.
    - cbn [scan]. rewrite F. f_equal. rewrite P. cbn [length].
      rewrite Nat.sub_0_r. cbn [pred].
      apply scan_skip_all. intros j q. apply control_no_empty_match. }
  exists (mk_match 0 e). eexists. split; [exact Hm|].
  split; [reflexivity|]. split; [exact P|]. split; [exact G|].
  unfold Controls.extract_controls_from_file, Controls.controls_of_text.
  cbn [f_read].
  pose proof (canonical_one_line _ _ _ _ Hc) as Hl. fold input in Hl.
  rewrite Hl.
  cbn [Controls.enumerate_from flat_map fst snd]. rewrite Hm. cbn [map app].
  unfold Controls.control_of. rewrite G.
  rewrite (build_id_canonical _ _ _ _ Hc).
  cbn [Controls.p_family Controls.p_number Controls.p_enhancement
       Controls.p_part f_name f_path mk_match m_start].
  reflexivity.
Qed.

Lemma canonical_round_trip_witness :
  is_canonical (txt "AC") (txt "2") (Some (txt "1")) (Some (txt "a")) = true /\
  exists m ctx,
    Controls.line_matches (txt "AC-2(1).a") = [m] /\
    Controls.extract_controls_from_file
      (File (txt "policy.md") (txt "pandoc/markdown/policy.md")
            (inl (txt "AC-2(1).a"))) (txt "pandoc") =
      [ Controls.Control (txt "AC-2(1).a") (txt "AC") (txt "Access Control")
          (txt "AC-2") true (Some (txt "1"))
          (txt "policy.md") (txt "pandoc/markdown/policy.md") (txt "pandoc")
          1 0 ctx ].
Proof.
  split; [reflexivity|].
  destruct (@canonical_round_trip (txt "policy.md")
              (txt "pandoc/markdown/policy.md") (txt "pandoc")
              (txt "AC") (txt "2") (Some (txt "1")) (Some (txt "a")) eq_refl)
    as [m [ctx [H1 [_ [_ [_ H2]]]]]].
  exists m, ctx. split; [exact H1 | exact H2].
Defined.

(** ** The family scan of extract-metadata.py *)

Lemma exact_symbol (c a : ascii) :
  class_test false (ascii_eqb c) a = true -> a = c.
Proof.
  unfold class_test. rewrite orb_false_r. intros H.
  apply Ascii.eqb_eq in H. congruence.
Qed.

Lemma exact_class (p : ascii -> bool) (a : ascii) :
  class_test false p a = p a.
Proof. unfold class_test. apply orb_false_r. Qed.

(** A match of the metadata pattern starts at a word boundary with two
    upper-case letters, a hyphen and a digit; group 1 spans the letters. *)
Lemma family_match_shape (s e : mstate) :
  In e (run false false Metadata.CONTROL_PATTERN s) ->
  at_boundary s = true /\
  exists a b d t,
    rest s = a :: b :: "-"%char :: d :: t /\
    is_upper a = true /\ is_upper b = true /\ is_digit d = true /\
    caps e = (1, (pos s, pos s + 2)) :: caps s.
Proof.
  intros H. unfold Metadata.CONTROL_PATTERN, seqs in H. cbn [fold_right] in H.
  apply run_Seq_In in H as [s1 [H1 H]]. cbn [run] in H1.
  destruct (at_boundary s) eqn:Hb; [|destruct H1]. destruct H1 as [<-|[]].
  split; [reflexivity|].
  apply run_Seq_In in H as [s2 [H2 H]].
  apply grp_rep_stage in H2 as [fam [R2 [P2 [C2 [D2 [L2 U2]]]]]].
  specialize (U2 2 eq_refl).
  apply run_Seq_In in H as [s3 [H3 H]]. unfold chr in H3.
  apply run_Chr_In in H3 as [c [t3 [R3 [C3 ->]]]].
  apply exact_symbol in C3. subst c.
  apply run_Seq_In in H as [s4 [H4 H]]. apply run_Eps_In in H. subst s4.
  unfold plus, digit in H4.
  change (run false false (Rep 1 None (Chr is_digit)) ?x)
    with (rep_loop (run false false (Chr is_digit)) 1 None
            (S (length (rest x))) 0 x) in H4.
  apply rep_chr_In in H4 as [ds [R4 [P4 [C4 [D4 [L4 _]]]]]].
  cbn [advance rest pos caps] in *.
  destruct fam as [|a [|b [|c fam]]]; simpl in L2, U2; try lia.
  destruct ds as [|d ds]; simpl in L4; [lia|].
  pose proof (Forall_inv D2) as Ha.
  pose proof (Forall_inv (Forall_inv_tail D2)) as Hb'.
  pose proof (Forall_inv D4) as Hd. cbv beta in Ha, Hb', Hd.
  rewrite exact_class in Ha, Hb', Hd.
  exists a, b, d, (ds ++ rest e). repeat split; trivial.
  - rewrite R2. simpl. rewrite R3, R4. reflexivity.
  - rewrite C4, C2. reflexivity.
Qed.

Lemma first_opt_exists (ic ml : bool) (r : regex) (s : mstate) :
  exists e, first_result ic ml (opt r) s e.
Proof.
  unfold first_result, opt. cbn [run rep_loop].
  destruct (if below (Some 1) 0
            then flat_map
                   (fun s1 => if pos s <? pos s1
                              then rep_loop (run ic ml r) 0 (Some 1)
                                            (length (rest s)) 1 s1
                              else [])
                   (run ic ml r s)
            else []) as [|x l].
  - exists s. simpl. eauto.
  - exists x. simpl. eauto.
Qed.

(** Where the metadata pattern can start, the pattern of the control
    extractor matches too. *)
Ltac rep_side :=
  first
    [ solve [trivial]
    | solve [simpl; lia]
    | solve [intros ? Hh; injection Hh as <-; simpl; lia]
    | solve [left; reflexivity]
    | solve [right; exact I]
    | solve [right; rewrite icase_digit; assumption]
    | solve [repeat constructor; cbv beta;
             rewrite ?icase_digit, ?icase_upper; assumption] ].

Lemma control_matches_at (s : mstate) (a b d : ascii) (t : str) :
  at_boundary s = true ->
  rest s = a :: b :: "-"%char :: d :: t ->
  is_alpha a = true -> is_alpha b = true -> is_digit d = true ->
  exists e l, run true false Controls.CONTROL_PATTERN s = e :: l.
Proof.
  intros Hb Hr Ha Hbb Hd.
  pose proof (first_WordB true false s Hb) as F0.
  destruct (@first_grp_rep true false 1 is_upper 2 (Some 2) [a; b]
              ("-"%char :: d :: t) s) as [s2 [F2 [R2 _]]]; [rep_side .. |].
  pose proof (@first_symbol _ _ _ R2) as F3.
  assert (F4 : exists s4,
            first_result true false (Grp 2 (Rep 1 (Some 2) digit))
                         (advance "-" (d :: t) s2) s4).
  { destruct t as [|d2 t'].
    - destruct (@first_grp_rep true false 2 is_digit 1 (Some 2) [d] []
                  (advance "-" [d] s2)) as [s4 [F4 _]]; [rep_side .. |].
      now exists s4.
    - destruct (is_digit d2) eqn:Hd2.
      + destruct (@first_grp_rep true false 2 is_digit 1 (Some 2) [d; d2] t'
                    (advance "-" (d :: d2 :: t') s2)) as [s4 [F4 _]];
          [rep_side .. |].
        now exists s4.
      + destruct (@first_grp_rep true false 2 is_digit 1 (Some 2) [d]
                    (d2 :: t') (advance "-" (d :: d2 :: t') s2))
          as [s4 [F4 _]]; [rep_side .. |].
        now exists s4. }
  destruct F4 as [s4 F4].
  destruct (first_opt_exists true false
              (seqs [chr "("; Grp 3 (plus digit); chr ")"]) s4) as [s5 F5].
  destruct (first_opt_exists true false
              (seqs [chr "."; Grp 4 (Chr is_lower)]) s5) as [s6 F6].
  assert (F : first_result true false Controls.CONTROL_PATTERN s s6).
  { unfold Controls.CONTROL_PATTERN, seqs. cbn [fold_right].
    eapply first_Seq; [exact F0|].
    eapply first_Seq; [exact F2|].
    eapply first_Seq; [exact F3|].
    eapply first_Seq; [exact F4|].
    eapply first_Seq; [exact F5|].
    eapply first_Seq; [exact F6|]. apply first_Eps. }
  destruct F as [l F]. now exists s6, l.
Qed.

(** [scan] reports a match over every offset, past the part still to be
    skipped, at which the pattern has a non-empty match. *)
Lemma scan_covers (ic ml : bool) (r : regex) (pre suf : str) (i : nat)
    (p : option ascii) (skip : nat) (e : mstate) (l : list mstate) :
  skip <= length pre ->
  run ic ml r (MState (i + length pre) (prev_of pre p) suf []) = e :: l ->
  i + length pre < pos e ->
  exists m,
    In m (scan ic ml r i p (pre ++ suf) skip) /\
    m_start m <= i + length pre < m_end m.
Proof.
  revert i p skip; induction pre as [|a pre IH]; intros i p skip Hs Hr He.
  - cbn [length] in *. rewrite Nat.add_0_r in *. cbn [prev_of fold_left] in Hr.
    assert (skip = 0) by lia. subst skip. cbn [app].
    exists (mk_match i e). split.
    + destruct suf; cbn [scan]; rewrite Hr; now left.
    + cbn [mk_match m_start m_end]. lia.
  - cbn [length app] in *.
    replace (i + S (length pre)) with (S i + length pre) in * by lia.
    change (prev_of (a :: pre) p) with (prev_of pre (Some a)) in Hr.
    destruct skip as [|k]; cbn [scan].
    + destruct (run ic ml r (MState i p (a :: pre ++ suf) [])) as [|e0 l0] eqn:E.
      * apply (IH (S i) (Some a) 0); trivial. lia.
      * destruct (le_lt_dec (pred (pos e0 - i)) (length pre)) as [Hk|Hk].
        -- destruct (IH (S i) (Some a) (pred (pos e0 - i)) Hk Hr He)
             as [m [Hm Hc]].
           exists m. split; [now right | exact Hc].
        -- exists (mk_match i e0). split; [now left|].
           cbn [mk_match m_start m_end]. lia.
    + apply (IH (S i) (Some a) k); trivial. lia.
Qed.

(** The line that holds an offset of the document. *)

Lemma split_lines_first (cur s : str) :
  exists ls, split_lines_from cur s = (rev cur ++ first_line s) :: ls.
Proof.
  revert cur; induction s as [|a t IH]; intros cur; cbn [split_lines_from first_line].
  - exists []. now rewrite app_nil_r.
  - destruct (ascii_eqb a newline).
    + eexists. now rewrite app_nil_r.
    + destruct (IH (a :: cur)) as [ls E]. exists ls. rewrite E.
      cbn [rev]. now rewrite <- app_assoc.
Qed.

Lemma split_lines_line_at (cur pre suf : str) :
  In (rev (cur_after cur pre) ++ first_line suf)
     (split_lines_from cur (pre ++ suf)).
Proof.
  revert cur; induction pre as [|a pre IH]; intros cur;
    cbn [app cur_after split_lines_from].
  - destruct (split_lines_first cur suf) as [ls E]. rewrite E. now left.
  - destruct (ascii_eqb a newline); [right|]; apply IH.
Qed.

Lemma prev_of_last (l : str) (a : ascii) (p : option ascii) :
  prev_of (l ++ [a]) p = Some a.
Proof. unfold prev_of. now rewrite fold_left_app. Qed.

Lemma prev_of_word (l : str) (p q : option ascii) :
  word_opt p = word_opt q -> word_opt (prev_of l p) = word_opt (prev_of l q).
Proof. destruct l as [|a l]; trivial. Qed.

Lemma newline_not_word (a : ascii) :
  ascii_eqb a newline = true -> word_opt (Some a) = false.
Proof.
  intros H. apply Ascii.eqb_eq in H. subst a. reflexivity.
Qed.

(** The character before an offset is a word character in the line exactly
    when it is one in the document. *)
Lemma line_prev_word (cur pre : str) :
  word_opt (prev_of (rev (cur_after cur pre)) None) =
  word_opt (prev_of pre (prev_of (rev cur) None)).
Proof.
  revert cur; induction pre as [|a pre IH]; intros cur; cbn [cur_after].
  - reflexivity.
  - change (prev_of (a :: pre) (prev_of (rev cur) None))
      with (prev_of pre (Some a)).
    destruct (ascii_eqb a newline) eqn:E.
    + rewrite IH. cbn [rev]. apply prev_of_word.
      symmetry. now apply newline_not_word.
    + rewrite IH. cbn [rev]. now rewrite prev_of_last.
Qed.

Lemma length_cur_after (cur pre : str) :
  length (cur_after cur pre) <= length cur + length pre.
Proof.
  revert cur; induction pre as [|a pre IH]; intros cur; cbn [cur_after length].
  - lia.
  - destruct (ascii_eqb a newline).
    + specialize (IH []). simpl in IH. lia.
    + specialize (IH (a :: cur)). simpl in IH. lia.
Qed.

Lemma slice_In (s : str) (i j k : nat) (a : ascii) :
  nth_error s k = Some a -> i <= k < j -> In a (slice s i j).
Proof.
  unfold slice. intros Hn [Hi Hj].
  assert (Hk : nth_error (skipn i s) (k - i) = Some a).
  { rewrite nth_error_skipn. now replace (i + (k - i)) with k by lia. }
  assert (Hlt : k - i < j - i) by lia.
  revert Hk Hlt. generalize (skipn i s) (k - i) (j - i). clear.
  induction l as [|x l IH]; intros [|n] [|m] Hn Hlt; simpl in *;
    try discriminate; try lia.
  - left. congruence.
  - right. apply (IH n m); [assumption | lia].
Qed.

Lemma upper_not_newline (a : ascii) :
  is_upper a = true -> ascii_eqb a newline = false.
Proof. destruct a as [[] [] [] [] [] [] [] []]; vm_compute; congruence. Qed.

Lemma digit_not_newline (a : ascii) :
  is_digit a = true -> ascii_eqb a newline = false.
Proof. destruct a as [[] [] [] [] [] [] [] []]; vm_compute; congruence. Qed.

Lemma upper_is_alpha (a : ascii) : is_upper a = true -> is_alpha a = true.
Proof. unfold is_alpha. intros ->. reflexivity. Qed.

(** In a document whose control references are all in lower case the
    metadata pattern matches nowhere. *)
Lemma no_family_match (content pre suf : str) (e : mstate) (l : list mstate) :
  all_refs_lower content = true ->
  content = pre ++ suf ->
  run false false Metadata.CONTROL_PATTERN
      (MState (length pre) (prev_of pre None) suf []) = e :: l ->
  False.
Proof.
  intros Hlow Hc Hrun.
  destruct (@family_match_shape (MState (length pre) (prev_of pre None) suf []) e)
    as [Hb [a [b [d [t [Hr [Ha [Hbb [Hd _]]]]]]]]].
  { rewrite Hrun. now left. }
  cbn [rest] in Hr. subst suf.
  set (lpre := rev (cur_after [] pre)).
  set (lsuf := a :: b :: "-"%char :: d :: first_line t).
  assert (Hline : In (lpre ++ lsuf) (split_lines content)).
  { pose proof (split_lines_line_at [] pre (a :: b :: "-"%char :: d :: t)) as H.
    rewrite <- Hc in H. cbn [first_line] in H.
    rewrite (upper_not_newline a Ha), (upper_not_newline b Hbb),
      (digit_not_newline d Hd) in H.
    change (ascii_eqb "-" newline) with false in H. exact H. }
  set (sl := MState (0 + length lpre) (prev_of lpre None) lsuf []).
  assert (Hbl : at_boundary sl = true).
  { unfold at_boundary in *. cbn [sl prev rest hd_error word_opt] in *.
    unfold lpre. rewrite (line_prev_word [] pre). exact Hb. }
  destruct (@control_matches_at sl a b d (first_line t))
    as [e' [l' Hrun']]; trivial; try now apply upper_is_alpha.
  destruct (@control_groups (lpre ++ lsuf) lpre sl e')
    as [fam [num [enh [part [_ [Hpos [Hfam _]]]]]]]; trivial.
  { rewrite Hrun'. now left. }
  assert (Hprog : 0 + length lpre < pos e').
  { rewrite Hpos. cbn [sl pos]. rewrite length_app. lia. }
  destruct (@scan_covers true false Controls.CONTROL_PATTERN lpre lsuf 0 None 0
              e' l') as [m [Hm Hcov]]; trivial; try lia.
  unfold all_refs_lower in Hlow. rewrite forallb_forall in Hlow.
  specialize (Hlow _ Hline). rewrite forallb_forall in Hlow.
  specialize (Hlow m Hm). rewrite forallb_forall in Hlow.
  assert (Hin : In a (matched (lpre ++ lsuf) m)).
  { unfold matched. apply (@slice_In _ _ _ (length lpre)).
    - rewrite nth_error_app2 by lia. now rewrite Nat.sub_diag.
    - simpl in Hcov. exact Hcov. }
  specialize (Hlow a Hin). rewrite Ha in Hlow. discriminate.
Qed.

Lemma no_family_matches (content : str) :
  all_refs_lower content = true -> Metadata.family_matches content = [].
Proof.
  intros Hlow. destruct (Metadata.family_matches content) as [|m ms] eqn:E;
    trivial.
  exfalso. assert (Hm : In m (Metadata.family_matches content))
    by (rewrite E; now left).
  apply finditer_In in Hm as [pre [s' [e [l [Hc [Hrun _]]]]]].
  eapply no_family_match; eassumption.
Qed.

(** C9. The family scan of the metadata extractor is case-sensitive: every
    entry of [control_families] is a pair of upper-case letters [A-Z] that
    stands in the document before a hyphen and one more character.  Hence
    a document in which every reference found by the control extractor is
    written in lower case has an empty [control_families]. *)
Theorem lower_case_refs_no_families (f : file) (tool content : str) :
  let families :=
    Metadata.control_families (Metadata.metadata_of_text f tool content) in
  (forall fam, In fam families ->
     length fam = 2 /\ all_chars is_upper fam /\
     exists pre suf d, content = pre ++ fam ++ "-"%char :: d :: suf) /\
  (all_refs_lower content = true -> families = []).
Proof.
  cbn [Metadata.control_families Metadata.metadata_of_text]. split.
  - intros fam H. unfold Metadata.extract_families in H.
    apply (proj1 (sorted_strs_In _ _)) in H.
    apply (proj1 (to_set_In _ _)) in H.
    apply in_map_iff in H as [m [<- Hm]].
    apply finditer_In in Hm as [pre [s' [e [l [Hc [Hrun ->]]]]]].
    destruct (@family_match_shape
                (MState (length pre) (prev_of pre None) s' []) e)
      as [_ [a [b [d [t [Hr [Ha [Hb [Hd Hcaps]]]]]]]]].
    { rewrite Hrun. now left. }
    cbn [rest pos caps] in Hr, Hcaps. subst s'.
    assert (G : Metadata.group1 content (mk_match (length pre) e) = [a; b]).
    { unfold Metadata.group1, group. cbn [mk_match m_caps]. rewrite Hcaps.
      cbn [lookup_cap Nat.eqb or_empty]. rewrite Hc.
      apply (slice_at pre [a; b] ("-"%char :: d :: t)); reflexivity. }
    rewrite G.
    assert (U : all_chars is_upper [a; b]) by (repeat constructor; assumption).
    rewrite (upper_id U). repeat split; trivial.
    exists pre, t, d. exact Hc.
  - intros Hlow. unfold Metadata.extract_families.
    now rewrite (no_family_matches _ Hlow).
Qed.

Lemma lower_case_refs_no_families_witness :
  all_refs_lower lower_case_refs = true /\
  Metadata.extract_families lower_case_refs = [] /\
  map Controls.control_id
      (Controls.controls_of_text sample_file (txt "pandoc") lower_case_refs)
    = [txt "AC-2"; txt "SC-7.a"].
Proof.
  assert (H : all_refs_lower lower_case_refs = true) by (vm_compute; reflexivity).
  split; [exact H|]. split.
  - exact (proj2 (lower_case_refs_no_families sample_file (txt "pandoc")
                    lower_case_refs) H).
  - vm_compute. reflexivity.
Defined.

(** ** The underline pattern of the title *)

Lemma rep_rest_suffix (body : mstate -> list mstate) (lo : nat)
    (hi : option nat) :
  (forall s x, In x (body s) -> exists pre, rest s = pre ++ rest x) ->
  forall fuel cnt s e,
    In e (rep_loop body lo hi fuel cnt s) -> exists pre, rest s = pre ++ rest e.
Proof.
  intros Hbody. induction fuel as [|fuel IH]; intros cnt s e; cbn [rep_loop];
    [intros []|].
  intros H. apply in_app_or in H as [H|H].
  - destruct (below hi cnt); [|destruct H].
    apply in_flat_map in H as [s1 [H1 H]].
    destruct (pos s <? pos s1); [|destruct H].
    apply Hbody in H1 as [pre1 E1]. apply IH in H as [pre2 E2].
    exists (pre1 ++ pre2). now rewrite E1, E2, app_assoc.
  - destruct (lo <=? cnt); [|destruct H]. destruct H as [<-|[]].
    now exists [].
Qed.

Lemma split_lines_from_no_newline (cur s line : str) :
  ~ In newline cur -> In line (split_lines_from cur s) -> ~ In newline line.
Proof.
  revert cur; induction s as [|a t IH]; intros cur Hcur; cbn [split_lines_from].
  - intros [<-|[]] H. apply Hcur. now apply in_rev.
  - destruct (ascii_eqb a newline) eqn:E.
    + intros [<-|H]; [intros H'; apply Hcur; now apply in_rev|].
      apply (IH []); [intros [] | exact H].
    + apply IH. intros [Ha|H]; [subst a|contradiction].
      unfold ascii_eqb in E. now rewrite Ascii.eqb_refl in E.
Qed.

(** The underline pattern matches no line of any document: a line holds no
    line break, and the pattern needs one after the text of the title. *)
Lemma underline_pattern_never_matches (content line : str) :
  In line (split_lines content) ->
  re_match false true UNDERLINE_PATTERN line = None.
Proof.
  intros Hl. unfold re_match.
  destruct (run false true UNDERLINE_PATTERN (MState 0 None line []))
    as [|e l] eqn:E; trivial.
  exfalso.
  apply (@split_lines_from_no_newline [] content line); trivial; [intros []|].
  assert (H : In e (run false true UNDERLINE_PATTERN (MState 0 None line [])))
    by (rewrite E; now left).
  unfold UNDERLINE_PATTERN in H. cbn [nth Metadata.TITLE_PATTERNS] in H.
  unfold seqs in H. cbn [fold_right] in H.
  apply run_Seq_In in H as [s1 [H1 H]]. cbn [run] in H1.
  destruct (at_bol true (MState 0 None line [])); [|destruct H1].
  destruct H1 as [<-|[]].
  apply run_Seq_In in H as [s2 [H2 H]].
  apply run_Grp_In in H2 as [x [H2 ->]].
  unfold plus in H2.
  change (run false true (Rep 1 None Any) ?y)
    with (rep_loop (run false true Any) 1 None (S (length (rest y))) 0 y) in H2.
  apply rep_rest_suffix in H2 as [pre Hpre].
  - cbn [rest] in Hpre.
    apply run_Seq_In in H as [s3 [H3 _]]. unfold chr in H3.
    apply run_Chr_In in H3 as [a [t [R3 [C3 _]]]].
    apply exact_symbol in C3. subst a. cbn [set_cap rest] in R3.
    rewrite Hpre, R3. apply in_or_app. right. now left.
  - intros s0 x0 Hx. cbn [run] in Hx. destruct (rest s0) as [|a t] eqn:R;
      [destruct Hx|].
    destruct (ascii_eqb a newline); [destruct Hx|].
    destruct Hx as [<-|[]]. now exists [a].
Qed.


(** So the title of a line only ever comes from the heading pattern. *)
Lemma title_only_from_heading (content line : str) :
  In line (split_lines content) ->
  Metadata.title_of_line Metadata.TITLE_PATTERNS line =
  Metadata.title_of_line [hd never Metadata.TITLE_PATTERNS] line.
Proof.
  intros Hl. pose proof (underline_pattern_never_matches _ _ Hl) as H.
  unfold UNDERLINE_PATTERN in H.
  cbn [nth hd Metadata.TITLE_PATTERNS Metadata.title_of_line] in *.
  now rewrite H.
Qed.

(** ** Order and bounds of the matches *)

Lemma rep_loop_consumes (body : mstate -> list mstate) (lo : nat)
    (hi : option nat) (fuel cnt : nat) :
  consumes body -> consumes (rep_loop body lo hi fuel cnt).
Proof.
  intros Hb. revert cnt. induction fuel as [|fuel IH]; intros cnt s e;
    cbn [rep_loop]; [intros []|].
  intros H. apply in_app_or in H as [H|H].
  - destruct (below hi cnt); [|destruct H].
    apply in_flat_map in H as [s1 [H1 H]].
    destruct (pos s <? pos s1); [|destruct H].
    apply Hb in H1 as [pre1 [E1 P1]]. apply IH in H as [pre2 [E2 P2]].
    exists (pre1 ++ pre2). rewrite E1, E2, app_assoc, length_app. split; [reflexivity | lia].
  - destruct (lo <=? cnt); [|destruct H]. destruct H as [<-|[]].
    exists []. simpl. split; [reflexivity | lia].
Qed.

Lemma run_consumes (ic ml : bool) (r : regex) : consumes (run ic ml r).
Proof.
  assert (Hself : forall s : mstate,
            exists pre, rest s = pre ++ rest s /\ pos s = pos s + length pre).
  { intros s. exists []. simpl. split; [reflexivity | lia]. }
  induction r as [|p| |a IHa b IHb|a IHa b IHb|lo hi a IHa|n a IHa| | |];
    intros s e; cbn [run].
  - intros [<-|[]]. apply Hself.
  - destruct (rest s) as [|c t] eqn:E; [intros []|].
    destruct (class_test ic p c); [|intros []].
    intros [<-|[]]. exists [c]. simpl. split; [reflexivity | lia].
  - destruct (rest s) as [|c t] eqn:E; [intros []|].
    destruct (ascii_eqb c newline); [intros []|].
    intros [<-|[]]. exists [c]. simpl. split; [reflexivity | lia].
  - intros H. apply in_flat_map in H as [x [Hx He]].
    apply IHa in Hx as [pre1 [E1 P1]]. apply IHb in He as [pre2 [E2 P2]].
    exists (pre1 ++ pre2). rewrite E1, E2, app_assoc, length_app.
    split; [reflexivity | lia].
  - intros H. apply in_app_or in H as [H|H]; [now apply IHa | now apply IHb].
  - now apply rep_loop_consumes.
  - intros H. apply in_map_iff in H as [x [<- Hx]].
    apply IHa in Hx as [pre [E P]]. exists pre. simpl. auto.
  - destruct (at_boundary s); [intros [<-|[]]; apply Hself | intros []].
  - destruct (at_bol ml s); [intros [<-|[]]; apply Hself | intros []].
  - destruct (at_eol ml s); [intros [<-|[]]; apply Hself | intros []].
Qed.

(** A match ends between its start and the end of the subject. *)
Lemma run_span (ic ml : bool) (r : regex) (s e : mstate) :
  In e (run ic ml r s) -> pos s <= pos e <= pos s + length (rest s).
Proof.
  intros H. apply run_consumes in H as [pre [E P]].
  rewrite E, length_app. lia.
Qed.

(** The matches of [scan] lie inside the subject, past the part to skip,
    in increasing order and without overlap. *)
Lemma scan_ordered (ic ml : bool) (r : regex) (s : str) (i : nat)
    (p : option ascii) (skip : nat) :
  Forall (match_within (i + skip) (i + length s)) (scan ic ml r i p s skip) /\
  StronglySorted match_before (scan ic ml r i p s skip).
Proof.
  revert i p skip; induction s as [|a t IH]; intros i p skip.
  - destruct skip as [|k]; cbn [scan]; [|split; constructor].
    destruct (run ic ml r (MState i p [] [])) as [|e l] eqn:E;
      [split; constructor|].
    assert (He : In e (run ic ml r (MState i p [] []))) by (rewrite E; now left).
    apply run_span in He. cbn [pos rest length] in He.
    split; repeat constructor; cbn [mk_match m_start m_end length]; lia.
  - assert (Hrec : forall k, i + skip <= S i + k ->
              Forall (match_within (i + skip) (i + length (a :: t)))
                     (scan ic ml r (S i) (Some a) t k)).
    { intros k Hk. destruct (IH (S i) (Some a) k) as [HF _].
      eapply Forall_impl; [|exact HF]. unfold match_within.
      cbn [length]. intros m. lia. }
    destruct skip as [|k]; cbn [scan].
    + destruct (run ic ml r (MState i p (a :: t) [])) as [|e l] eqn:E.
      * split; [apply Hrec; lia | apply IH].
      * assert (He : In e (run ic ml r (MState i p (a :: t) [])))
          by (rewrite E; now left).
        apply run_span in He. cbn [pos rest] in He.
        destruct (IH (S i) (Some a) (pred (pos e - i))) as [HF HS].
        split.
        -- constructor; [|apply Hrec; lia].
           unfold match_within. cbn [mk_match m_start m_end]. lia.
        -- constructor; [exact HS|].
           eapply Forall_impl; [|exact HF]. unfold match_within, match_before.
           cbn [mk_match m_start m_end]. intros m. lia.
    + split; [apply Hrec; lia | apply IH].
Qed.

Lemma finditer_ordered (ic ml : bool) (r : regex) (subject : str) :
  Forall (match_within 0 (length subject)) (finditer ic ml r subject) /\
  StronglySorted match_before (finditer ic ml r subject).
Proof. exact (scan_ordered ic ml r subject 0 None 0). Qed.

(** ** Where the control references are found *)

Lemma StronglySorted_app (A : Type) (R : A -> A -> Prop) (l1 l2 : list A) :
  StronglySorted R l1 -> StronglySorted R l2 ->
  (forall x y, In x l1 -> In y l2 -> R x y) ->
  StronglySorted R (l1 ++ l2).
Proof.
  induction 1 as [|a l1 Hs IH Ha]; intros H2 H12; simpl; trivial.
  constructor.
  - apply IH; trivial. intros x y Hx Hy. apply H12; [now right | exact Hy].
  - apply Forall_app. split; [exact Ha|].
    apply Forall_forall. intros y Hy. apply H12; [now left | exact Hy].
Qed.

Lemma StronglySorted_map (A B : Type) (R : A -> A -> Prop) (Q : B -> B -> Prop)
    (f : A -> B) (l : list A) :
  (forall x y, R x y -> Q (f x) (f y)) ->
  StronglySorted R l -> StronglySorted Q (map f l).
Proof.
  intros HRQ. induction 1 as [|a l Hs IH Ha]; simpl; constructor; trivial.
  apply Forall_forall. intros y Hy. apply in_map_iff in Hy as [x [<- Hx]].
  apply HRQ. rewrite Forall_forall in Ha. now apply Ha.
Qed.

Lemma enumerate_from_In (A : Type) (l : list A) (n k : nat) (x : A) :
  In (k, x) (Controls.enumerate_from n l) <->
  n <= k /\ nth_error l (k - n) = Some x.
Proof.
  revert n; induction l as [|y l IH]; intros n; cbn [Controls.enumerate_from].
  - split; [intros [] | intros [_ H]]. now destruct (k - n).
  - cbn [In]. rewrite IH. split.
    + intros [E|[Hk Hn]].
      * injection E as -> ->. rewrite Nat.sub_diag. auto.
      * split; [lia|]. replace (k - n) with (S (k - S n)) by lia. exact Hn.
    + intros [Hk Hn]. destruct (Nat.eq_dec n k) as [->|Hne].
      * rewrite Nat.sub_diag in Hn. left. simpl in Hn. congruence.
      * right. split; [lia|].
        replace (k - n) with (S (k - S n)) in Hn by lia. exact Hn.
Qed.

Lemma records_of_lines_sorted (f : file) (tool : str) (lines : list str)
    (n : nat) :
  let rs := flat_map
      (fun nl => map (Controls.control_of f tool (fst nl) (snd nl))
                     (Controls.line_matches (snd nl)))
      (Controls.enumerate_from n lines) in
  StronglySorted location_before rs /\
  Forall (fun c => n <= Controls.source_line c) rs.
Proof.
  revert n; induction lines as [|line lines IH]; intros n;
    cbn [Controls.enumerate_from flat_map fst snd].
  - split; constructor.
  - destruct (IH (S n)) as [HS HF]. cbv zeta in HS, HF.
    set (rest_rs := flat_map _ (Controls.enumerate_from (S n) lines)) in *.
    split.
    + apply StronglySorted_app; trivial.
      * apply (@StronglySorted_map _ _ match_before).
        -- intros m1 m2 [H _]. right. cbn. auto.
        -- apply finditer_ordered.
      * intros x y Hx Hy. apply in_map_iff in Hx as [m [<- _]].
        rewrite Forall_forall in HF. specialize (HF y Hy). left. cbn. lia.
    + apply Forall_app. split.
      * apply Forall_forall. intros x Hx. apply in_map_iff in Hx as [m [<- _]].
        cbn. lia.
      * eapply Forall_impl; [|exact HF]. intros c. cbv beta. lia.
Qed.

(** X1. The records of one file come in reading order: by line, and inside
    a line by column, each location strictly after the one before.  So no
    two records of a file share a line and a column. *)
Theorem controls_in_reading_order (f : file) (tool : str) :
  StronglySorted location_before (Controls.extract_controls_from_file f tool).
Proof.
  unfold Controls.extract_controls_from_file.
  destruct (f_read f) as [content|e]; [|constructor].
  apply (records_of_lines_sorted f tool (split_lines content) 1).
Qed.

Lemma line_match_text (line : str) (m : rmatch) :
  In m (Controls.line_matches line) ->
  exists pre fam num enh part tail,
    line = pre ++ reference_text fam num enh part ++ tail /\
    m_start m = length pre /\
    m_end m = length pre + length (reference_text fam num enh part) /\
    length fam = 2 /\ all_chars is_alpha fam /\
    1 <= length num <= 2 /\ all_chars is_digit num /\
    (forall ds, enh = Some ds -> ds <> [] /\ all_chars is_digit ds) /\
    (forall q, part = Some q -> exists c, q = [c] /\ is_alpha c = true) /\
    Controls.parts_of line m = Controls.Parts (upper fam) num enh part.
Proof.
  intros H. apply finditer_In in H as [pre [s' [e [l [E1 [E2 ->]]]]]].
  destruct (@control_groups line pre
              (MState (length pre) (prev_of pre None) s' []) e)
    as [fam [num [enh [part [F0 [P0 [F1 [F2 [F3 [F4 [F5 [F6 F7]]]]]]]]]]]];
    trivial.
  { rewrite E2. now left. }
  cbn [rest pos] in F0, P0, F7.
  exists pre, fam, num, enh, part, (rest e). unfold reference_text.
  repeat split; trivial; try lia.
  - rewrite E1, F0. now rewrite <- !app_assoc.
  - apply F5. assumption.
  - apply F5. assumption.
Qed.

Lemma extracted_control_at (f : file) (tool : str) (c : Controls.control) :
  In c (Controls.extract_controls_from_file f tool) ->
  exists content n line m,
    f_read f = inl content /\
    1 <= n /\ nth_error (split_lines content) (n - 1) = Some line /\
    In m (Controls.line_matches line) /\
    c = Controls.control_of f tool n line m.
Proof.
  unfold Controls.extract_controls_from_file, Controls.controls_of_text.
  destruct (f_read f) as [content|err]; [|intros []].
  intros H. apply in_flat_map in H as [[n line] [Hl H]].
  apply in_map_iff in H as [m [<- Hm]]. cbn [fst snd] in *.
  apply enumerate_from_In in Hl as [Hn Hl].
  exists content, n, line, m. auto.
Qed.

Lemma lower_upper (s : str) : lower (upper s) = lower s.
Proof.
  unfold lower, upper. rewrite map_map. apply map_ext. intros a.
  destruct a as [[] [] [] [] [] [] [] []]; reflexivity.
Qed.

Lemma lower_lower (s : str) : lower (lower s) = lower s.
Proof.
  unfold lower. rewrite map_map. apply map_ext. intros a.
  destruct a as [[] [] [] [] [] [] [] []]; reflexivity.
Qed.

Lemma lower_app (s t : str) : lower (s ++ t) = lower s ++ lower t.
Proof. apply map_app. Qed.

Lemma length_lower (s : str) : length (lower s) = length s.
Proof. apply length_map. Qed.

Lemma length_upper (s : str) : length (upper s) = length s.
Proof. apply length_map. Qed.

(** The identifier built from the groups of a match is the matched text
    with its family in upper case and its part in lower case. *)
Lemma build_id_reference (fam num : str) (enh part : option str) :
  (forall ds, enh = Some ds -> ds <> [] /\ all_chars is_digit ds) ->
  (forall q, part = Some q -> exists c, q = [c] /\ is_alpha c = true) ->
  Controls.build_id (Controls.Parts (upper fam) num enh part) =
  reference_text (upper fam) num enh (option_map lower part).
Proof.
  intros V3 V4. unfold Controls.build_id, reference_text.
  cbn [Controls.p_family Controls.p_number Controls.p_enhancement
       Controls.p_part].
  rewrite <- !app_assoc. do 3 f_equal.
  assert (E1 : (if truthy enh then txt "(" ++ or_empty enh ++ txt ")" else [])
               = enh_text enh).
  { destruct enh as [ds|]; trivial. destruct (V3 ds eq_refl) as [Hne _].
    destruct ds; [contradiction | reflexivity]. }
  assert (E2 : (if truthy part then txt "." ++ lower (or_empty part) else [])
               = part_text (option_map lower part)).
  { destruct part as [q|]; trivial. destruct (V4 q eq_refl) as [c [-> _]].
    reflexivity. }
  now rewrite E1, E2.
Qed.

Lemma reference_text_fold (fam num : str) (enh part : option str) :
  lower (reference_text (upper fam) num enh (option_map lower part)) =
  lower (reference_text fam num enh part) /\
  length (reference_text (upper fam) num enh (option_map lower part)) =
  length (reference_text fam num enh part).
Proof.
  unfold reference_text. split.
  - rewrite !lower_app, lower_upper. do 4 f_equal.
    destruct part as [q|]; trivial. cbn [option_map part_text].
    now rewrite !lower_app, lower_lower.
  - rewrite !length_app, length_upper. do 4 f_equal.
    destruct part as [q|]; trivial. cbn [option_map part_text].
    now rewrite !length_app, length_lower.
Qed.

(** X2. In an ASCII file [source_line] and [source_column] point at the
    reference: the line with that (one-based) number exists, and the text
    of that line from the column on, as long as [control_id], is the
    identifier up to letter case. *)
Theorem control_location_points_at_reference (f : file) (tool : str)
    (c : Controls.control) :
  ascii_file f ->
  In c (Controls.extract_controls_from_file f tool) ->
  exists content line,
    f_read f = inl content /\
    1 <= Controls.source_line c /\
    nth_error (split_lines content) (Controls.source_line c - 1) = Some line /\
    Controls.source_column c + length (Controls.control_id c) <= length line /\
    lower (slice line (Controls.source_column c)
                 (Controls.source_column c + length (Controls.control_id c)))
      = lower (Controls.control_id c).
Proof.
  intros _ H.
  apply extracted_control_at in H
    as [content [n [line [m [Hf [Hn [Hl [Hm ->]]]]]]]].
  exists content, line.
  apply line_match_text in Hm
    as [pre [fam [num [enh [part [tail [E [Hs [He [_ [_ [_ [_ [V3 [V4 G]]]]]]]]]]]]]]].
  unfold Controls.control_of.
  cbn [Controls.source_line Controls.source_column Controls.control_id].
  rewrite G, (build_id_reference _ _ V3 V4), Hs.
  destruct (reference_text_fold fam num enh part) as [Hlow Hlen].
  rewrite Hlen, Hlow. repeat split; trivial.
  - rewrite E, !length_app. lia.
  - f_equal. rewrite E. now apply slice_at.
Qed.

Lemma control_location_points_at_reference_witness :
  ascii_file sample_file /\
  In sample_control
     (Controls.extract_controls_from_file sample_file (txt "pandoc")) /\
  exists content line,
    f_read sample_file = inl content /\
    nth_error (split_lines content) (Controls.source_line sample_control - 1)
      = Some line /\
    lower (slice line (Controls.source_column sample_control)
                 (Controls.source_column sample_control
                  + length (Controls.control_id sample_control)))
      = lower (Controls.control_id sample_control).
Proof.
  assert (Ha : ascii_file sample_file) by reflexivity.
  assert (H : In sample_control
     (Controls.extract_controls_from_file sample_file (txt "pandoc")))
    by (vm_compute; left; reflexivity).
  split; [exact Ha|]. split; [exact H|].
  destruct (@control_location_points_at_reference _ _ _ Ha H)
    as [content [line [H1 [_ [H2 [_ H3]]]]]].
  exists content, line. auto.
Defined.

(** ** Stripping white space *)

Lemma lstrip_keeps (A M B : str) (c : ascii) (M' : str) :
  M = c :: M' -> is_space c = false ->
  exists w A', A = w ++ A' /\ lstrip (A ++ M ++ B) = A' ++ M ++ B.
Proof.
  intros -> Hc. induction A as [|a A IH].
  - exists [], []. simpl. now rewrite Hc.
  - cbn [app lstrip]. destruct (is_space a) eqn:Ha.
    + destruct IH as [w [A' [E1 E2]]]. exists (a :: w), A'. split; [|exact E2].
      simpl. now rewrite <- E1.
    + now exists [], (a :: A).
Qed.

Lemma lstrip_suffix (s : str) :
  exists w, s = w ++ lstrip s /\ all_chars is_space w.
Proof.
  induction s as [|a s IH]; cbn [lstrip].
  - exists []. split; [reflexivity | constructor].
  - destruct (is_space a) eqn:Ha.
    + destruct IH as [w [E Hw]]. exists (a :: w). split.
      * simpl. now rewrite <- E.
      * now constructor.
    + exists []. split; [reflexivity | constructor].
Qed.

Lemma lstrip_head (s : str) (a : ascii) (t : str) :
  lstrip s = a :: t -> is_space a = false.
Proof.
  induction s as [|b s IH]; cbn [lstrip]; [discriminate|].
  destruct (is_space b) eqn:Hb; [exact IH|]. intros E. injection E as <- _.
  exact Hb.
Qed.

Lemma lstrip_fixed (s : str) :
  (forall a t, s = a :: t -> is_space a = false) -> lstrip s = s.
Proof.
  destruct s as [|a s]; trivial. intros H. cbn [lstrip].
  now rewrite (H a s eq_refl).
Qed.

(** [strip] takes white space off both ends and nothing else. *)
Lemma strip_decompose (s : str) :
  exists w1 w2,
    s = w1 ++ strip s ++ w2 /\ all_chars is_space w1 /\ all_chars is_space w2.
Proof.
  unfold strip, rstrip.
  destruct (lstrip_suffix s) as [w1 [E1 H1]].
  destruct (lstrip_suffix (rev (lstrip s))) as [w2 [E2 H2]].
  exists w1, (rev w2). repeat split; trivial.
  - rewrite E1 at 1. f_equal.
    rewrite <- (rev_involutive (lstrip s)) at 1. rewrite E2 at 1.
    now rewrite rev_app_distr.
  - unfold all_chars in *. apply Forall_rev. exact H2.
Qed.

Lemma strip_trimmed (s : str) : trimmed (strip s).
Proof.
  unfold trimmed, strip, rstrip. split.
  - intros a t E.
    destruct (lstrip_suffix (rev (lstrip s))) as [w [Ew Hw]].
    destruct (lstrip s) as [|b u] eqn:El.
    + simpl in E. discriminate.
    + assert (Hb : is_space b = false) by (eapply lstrip_head; exact El).
      (* the first character of the stripped text is [b] *)
      assert (Hrev : rev (b :: u) = w ++ lstrip (rev (b :: u))) by exact Ew.
      apply (f_equal (@rev ascii)) in Hrev.
      rewrite rev_involutive, rev_app_distr, E in Hrev.
      cbn [app] in Hrev. injection Hrev as -> _. exact Hb.
  - intros a t E.
    apply (f_equal (@rev ascii)) in E.
    rewrite rev_involutive, rev_app_distr in E. cbn [rev app] in E.
    eapply lstrip_head. exact E.
Qed.

Lemma strip_length (s : str) : length (strip s) <= length s.
Proof.
  destruct (strip_decompose s) as [w1 [w2 [E _]]].
  rewrite E at 2. rewrite !length_app. lia.
Qed.

Lemma strip_In (s : str) (a : ascii) : In a (strip s) -> In a s.
Proof.
  destruct (strip_decompose s) as [w1 [w2 [E _]]]. intros H.
  rewrite E. apply in_or_app. right. apply in_or_app. now left.
Qed.

(** A text inside [s] that neither starts nor ends with white space is
    still inside [strip s], with no more text around it than before. *)
Lemma strip_keeps (A M B : str) :
  M <> [] -> trimmed M ->
  exists A' B',
    strip (A ++ M ++ B) = A' ++ M ++ B' /\
    length A' <= length A /\ length B' <= length B.
Proof.
  intros Hne [Hh Hl].
  destruct M as [|c M'] eqn:EM; [contradiction|]. rewrite <- EM in *.
  destruct (@lstrip_keeps A M B c M' EM (Hh c M' EM)) as [w1 [A' [EA E1]]].
  assert (HA : length A' <= length A).
  { rewrite EA, length_app. lia. }
  unfold strip, rstrip. rewrite E1.
  rewrite !rev_app_distr, <- app_assoc.
  destruct (rev M) as [|d R] eqn:ER.
  { apply (f_equal (@rev ascii)) in ER. rewrite rev_involutive in ER.
    simpl in ER. congruence. }
  assert (Hd : is_space d = false).
  { apply (Hl d (rev R)). apply (f_equal (@rev ascii)) in ER.
    rewrite rev_involutive in ER. exact ER. }
  destruct (@lstrip_keeps (rev B) (d :: R) (rev A') d R eq_refl Hd)
    as [w2 [B' [EB E2]]].
  rewrite E2. exists A', (rev B'). repeat split; trivial.
  - rewrite !rev_app_distr, rev_involutive, <- ER, rev_involutive.
    now rewrite <- app_assoc.
  - rewrite length_rev. rewrite <- (length_rev B), EB, length_app. lia.
Qed.

Lemma strip_fixed (s : str) : trimmed s -> strip s = s.
Proof.
  intros [Hh Hl]. unfold strip, rstrip. rewrite (lstrip_fixed Hh).
  rewrite lstrip_fixed; [apply rev_involutive|].
  intros a t E. apply (Hl a (rev t)).
  apply (f_equal (@rev ascii)) in E. rewrite rev_involutive in E. exact E.
Qed.

(** ** The context of a control reference *)

Lemma slice_window (pre M tail : str) (a b : nat) :
  slice (pre ++ M ++ tail) (length pre - a)
        (Nat.min (length (pre ++ M ++ tail)) (length pre + length M + b)) =
  skipn (length pre - a) pre ++ M ++ firstn b tail.
Proof.
  unfold slice. rewrite skipn_app.
  replace (length pre - a - length pre) with 0 by lia. cbn [skipn].
  assert (Hlen : length (skipn (length pre - a) pre) = length pre - (length pre - a))
    by apply length_skipn.
  rewrite firstn_app. rewrite firstn_all2 by (rewrite !length_app; lia).
  f_equal. rewrite firstn_app. rewrite firstn_all2 by (rewrite !length_app; lia).
  f_equal. rewrite !length_app, Hlen.
  destruct (le_lt_dec b (length tail)) as [Hb|Hb].
  - f_equal. lia.
  - rewrite !firstn_all2 by lia. reflexivity.
Qed.

Lemma slice_subject (s : str) (i j : nat) (a : ascii) :
  In a (slice s i j) -> In a s.
Proof.
  unfold slice. intros H. apply firstn_In in H.
  rewrite <- (firstn_skipn i s). apply in_or_app. now right.
Qed.

Lemma alpha_not_space (a : ascii) : is_alpha a = true -> is_space a = false.
Proof. destruct a as [[] [] [] [] [] [] [] []]; vm_compute; congruence. Qed.

Lemma digit_not_space (a : ascii) : is_digit a = true -> is_space a = false.
Proof. destruct a as [[] [] [] [] [] [] [] []]; vm_compute; congruence. Qed.

Lemma last_char (A : Type) (l t : list A) (a b : A) :
  l ++ [a] = t ++ [b] -> a = b.
Proof.
  intros H. apply (f_equal (@rev A)) in H. rewrite !rev_app_distr in H.
  simpl in H. congruence.
Qed.

(** A reference starts with a letter and ends with a digit, a closing
    parenthesis or a letter. *)
Lemma reference_text_trimmed (fam num : str) (enh part : option str) :
  length fam = 2 -> all_chars is_alpha fam ->
  1 <= length num -> all_chars is_digit num ->
  (forall q, part = Some q -> exists c, q = [c] /\ is_alpha c = true) ->
  reference_text fam num enh part <> [] /\
  trimmed (reference_text fam num enh part).
Proof.
  intros L1 A1 L2 D2 V4. unfold reference_text.
  destruct fam as [|f1 fam]; [discriminate|].
  pose proof (Forall_inv A1) as Hf1. cbv beta in Hf1.
  split; [discriminate|]. split.
  - intros a t E. cbn [app] in E. injection E as <- _.
    now apply alpha_not_space.
  - intros a t E.
    destruct part as [q|].
    + destruct (V4 q eq_refl) as [c [-> Hc]]. cbn [part_text] in E.
      change (txt "." ++ [c]) with (["."%char] ++ [c]) in E.
      rewrite !app_assoc in E. apply last_char in E. subst a.
      now apply alpha_not_space.
    + cbn [part_text] in E. rewrite app_nil_r in E.
      destruct enh as [ds|].
      * cbn [enh_text] in E. change (txt ")") with [")"%char] in E.
        rewrite !app_assoc in E. apply last_char in E. now subst a.
      * cbn [enh_text] in E. rewrite app_nil_r in E.
        destruct (exists_last (l:=num)) as [n' [d Hn]];
          [intros ->; simpl in L2; lia|].
        rewrite Hn in E. rewrite !app_assoc in E. apply last_char in E.
        subst a. apply digit_not_space.
        unfold all_chars in D2. rewrite Hn in D2.
        apply Forall_app in D2 as [_ D2]. now apply Forall_inv in D2.
Qed.

(** X3. In an ASCII file the context snippet of a record holds the
    reference as it stands in the line, with at most 50 characters of the
    line before it and at most 100 after it; it has no white space at
    either end and no line break. *)
Theorem context_snippet_window (f : file) (tool : str) (c : Controls.control) :
  ascii_file f ->
  In c (Controls.extract_controls_from_file f tool) ->
  exists content line before after,
    f_read f = inl content /\
    nth_error (split_lines content) (Controls.source_line c - 1) = Some line /\
    Controls.context_snippet c =
      before
      ++ slice line (Controls.source_column c)
               (Controls.source_column c + length (Controls.control_id c))
      ++ after /\
    length before <= 50 /\ length after <= 100 /\
    trimmed (Controls.context_snippet c) /\
    ~ In newline (Controls.context_snippet c).
Proof.
  intros _ H.
  apply extracted_control_at in H
    as [content [n [line [m [Hf [Hn [Hl [Hm ->]]]]]]]].
  pose proof Hm as Hm'.
  apply line_match_text in Hm'
    as [pre [fam [num [enh [part [tail [E [Hs [He [L1 [A1 [L2 [D2 [V3 [V4 G]]]]]]]]]]]]]]].
  set (M := reference_text fam num enh part) in *.
  destruct (@reference_text_trimmed fam num enh part) as [Hne Htr];
    trivial; try lia.
  fold M in Hne, Htr.
  unfold Controls.control_of.
  cbn [Controls.source_line Controls.source_column Controls.control_id
       Controls.context_snippet].
  rewrite G, (build_id_reference _ _ V3 V4), Hs, He.
  destruct (reference_text_fold fam num enh part) as [_ Hlen].
  rewrite Hlen. fold M.
  assert (HM : slice line (length pre) (length pre + length M) = M).
  { rewrite E. now apply slice_at. }
  assert (Hw : slice line (length pre - 50)
                 (Nat.min (length line) (length pre + length M + 100)) =
               skipn (length pre - 50) pre ++ M ++ firstn 100 tail).
  { rewrite E. apply slice_window. }
  destruct (@strip_keeps (skipn (length pre - 50) pre) M (firstn 100 tail))
    as [A' [B' [ES [HA HB]]]]; trivial.
  exists content, line, A', B'. rewrite HM, Hw.
  split; [exact Hf|]. split; [exact Hl|]. split; [exact ES|].
  split; [rewrite length_skipn in HA; lia|].
  split; [pose proof (firstn_le_length 100 tail); lia|].
  split; [apply strip_trimmed|].
  rewrite <- Hw. intros Hin.
  apply strip_In, slice_subject in Hin.
  apply nth_error_In in Hl.
  apply (@split_lines_from_no_newline [] content line); trivial.
  intros [].
Qed.

Lemma context_snippet_window_witness :
  ascii_file sample_file /\
  In sample_control
     (Controls.extract_controls_from_file sample_file (txt "pandoc")) /\
  exists line before after,
    Controls.context_snippet sample_control =
      before
      ++ slice line (Controls.source_column sample_control)
               (Controls.source_column sample_control
                + length (Controls.control_id sample_control))
      ++ after /\
    length before <= 50 /\ length after <= 100.
Proof.
  assert (Ha : ascii_file sample_file) by reflexivity.
  assert (H : In sample_control
     (Controls.extract_controls_from_file sample_file (txt "pandoc")))
    by (vm_compute; left; reflexivity).
  split; [exact Ha|]. split; [exact H|].
  destruct (@context_snippet_window _ _ _ Ha H)
    as [content [line [before [after [_ [_ [H1 [H2 [H3 _]]]]]]]]].
  exists line, before, after. auto.
Defined.

(** ** Tallies *)

Section TallyFacts.

Variable X : Type.
Variable key : X -> str.
Variable w : X -> nat.

Lemma total_dict_add (k : str) (n : nat) (d : dict nat) :
  total (dict_add k n d) = total d + n.
Proof.
  unfold total, dict_add. induction d as [|[k' v] d IH]; simpl; [lia|].
  destruct (str_eqb k' k); simpl; lia.
Qed.

Lemma tally_total (xs : list X) (d : dict nat) :
  total (fold_left (tally_step key w) xs d) = total d + list_sum (map w xs).
Proof.
  revert d; induction xs as [|x xs IH]; intros d; simpl; [lia|].
  rewrite IH. unfold tally_step. rewrite total_dict_add. lia.
Qed.

Lemma tally_get (k : str) (xs : list X) (d : dict nat) :
  dict_get k (fold_left (tally_step key w) xs d) =
  match dict_get k d with
  | Some v => Some (v + sum_by key w k xs)
  | None =>
      if existsb (fun x => str_eqb (key x) k) xs
      then Some (sum_by key w k xs) else None
  end.
Proof.
  revert d; induction xs as [|x xs IH]; intros d; cbn [fold_left].
  - unfold sum_by. simpl. destruct (dict_get k d); [|reflexivity].
    now rewrite Nat.add_0_r.
  - rewrite IH. unfold tally_step, dict_add, sum_by.
    cbn [filter existsb].
    destruct (str_eqb (key x) k) eqn:E.
    + apply str_eqb_eq in E. rewrite E, dict_get_upd_same.
      destruct (dict_get k d); cbn [map orb]; f_equal; simpl; lia.
    + apply str_eqb_neq in E. rewrite dict_get_upd_other by exact E.
      reflexivity.
Qed.

Lemma tally_NoDup (xs : list X) (d : dict nat) :
  NoDup (keys d) -> NoDup (keys (fold_left (tally_step key w) xs d)).
Proof.
  revert d; induction xs as [|x xs IH]; intros d H; simpl; trivial.
  apply IH. unfold tally_step, dict_add. now apply keys_upd_NoDup.
Qed.

(** The entries of a tally are the keys that occur, each with the total
    weight filed under it. *)
Lemma tally_entry (k : str) (n : nat) (xs : list X) :
  In (k, n) (fold_left (tally_step key w) xs []) <->
  (exists x, In x xs /\ key x = k) /\ n = sum_by key w k xs.
Proof.
  rewrite dict_get_In by (apply tally_NoDup; constructor).
  rewrite tally_get. cbn [dict_get].
  destruct (existsb (fun x => str_eqb (key x) k) xs) eqn:E.
  - apply existsb_exists in E as [x [Hx Hk]]. apply str_eqb_eq in Hk.
    split.
    + intros H. injection H as <-. split; [now exists x | reflexivity].
    + intros [_ ->]. reflexivity.
  - split; [discriminate|]. intros [[x [Hx Hk]] _].
    assert (Ht : existsb (fun x => str_eqb (key x) k) xs = true).
    { apply existsb_exists. exists x. split; trivial. now apply str_eqb_eq. }
    congruence.
Qed.

End TallyFacts.

Lemma sum_by_one (X : Type) (key : X -> str) (k : str) (xs : list X) :
  sum_by key (@one X) k xs =
  length (filter (fun x => str_eqb (key x) k) xs).
Proof.
  unfold sum_by. induction (filter (fun x => str_eqb (key x) k) xs) as [|x l IH];
    simpl; [reflexivity | now rewrite IH].
Qed.

Lemma list_sum_one (X : Type) (xs : list X) :
  list_sum (map (@one X) xs) = length xs.
Proof. induction xs as [|x xs IH]; simpl; [reflexivity | now rewrite IH]. Qed.

Lemma tally_family (cs : list Controls.control) (t : Controls.tallies) :
  Controls.t_family (fold_left Controls.tally cs t) =
  fold_left (tally_step Controls.control_family (@one _)) cs
            (Controls.t_family t).
Proof.
  revert t; induction cs as [|c cs IH]; intros t; simpl;
    [reflexivity | apply IH].
Qed.

Lemma total_perm (d1 d2 : dict nat) :
  Permutation d1 d2 -> total d1 = total d2.
Proof.
  unfold total. induction 1; simpl; lia.
Qed.

(** X4. The counts of the control summary add up: [total_references] is
    the number of records, each of [by_family], [by_tool] and
    [by_document] sums to that number, and an entry of one of them is the
    number of records with that family, tool or document, which is at least
    one. *)
Theorem controls_counts_exact (cs : list Controls.control) :
  let s := Controls.summarize cs in
  let count key k := length (filter (fun c => str_eqb (key c) k) cs) in
  Controls.total_references s = length cs /\
  total (Controls.by_family s) = length cs /\
  total (Controls.by_tool s) = length cs /\
  total (Controls.by_document s) = length cs /\
  (forall k n, In (k, n) (Controls.by_family s) <->
     1 <= n /\ n = count Controls.control_family k) /\
  (forall k n, In (k, n) (Controls.by_tool s) <->
     1 <= n /\ n = count Controls.conversion_tool k) /\
  (forall k n, In (k, n) (Controls.by_document s) <->
     1 <= n /\ n = count Controls.source_document k).
Proof.
  assert (Hpos : forall (key : Controls.control -> str) k,
            (exists x, In x cs /\ key x = k) <->
            1 <= length (filter (fun c => str_eqb (key c) k) cs)).
  { intros key k. split.
    - intros [x [Hx Hk]].
      assert (Hin : In x (filter (fun c => str_eqb (key c) k) cs)).
      { apply filter_In. split; trivial. now apply str_eqb_eq. }
      destruct (filter _ cs); [destruct Hin | simpl; lia].
    - intros H. destruct (filter (fun c => str_eqb (key c) k) cs) as [|x l] eqn:E;
        [simpl in H; lia|].
      assert (Hin : In x (filter (fun c => str_eqb (key c) k) cs))
        by (rewrite E; now left).
      apply filter_In in Hin as [Hx Hk]. apply str_eqb_eq in Hk. now exists x. }
  assert (Hentry : forall (key : Controls.control -> str) k n,
            In (k, n) (fold_left (tally_step key (@one _)) cs []) <->
            1 <= n /\ n = length (filter (fun c => str_eqb (key c) k) cs)).
  { intros key k n. rewrite tally_entry, sum_by_one, Hpos.
    split; intros [H1 H2]; split; trivial; lia. }
  cbv zeta. unfold Controls.summarize, Controls.tally_all.
  cbn [Controls.total_references Controls.by_family Controls.by_tool
       Controls.by_document].
  rewrite tally_family, tally_tool, tally_document.
  cbn [Controls.t_family Controls.t_tool Controls.t_document].
  change (fun d c => dict_add (Controls.conversion_tool c) 1 d)
    with (tally_step Controls.conversion_tool (@one Controls.control)).
  change (fun d c => dict_add (Controls.source_document c) 1 d)
    with (tally_step Controls.source_document (@one Controls.control)).
  split; [reflexivity|].
  split.
  { rewrite (total_perm (sorted_items_perm _)), tally_total, list_sum_one.
    reflexivity. }
  split; [now rewrite tally_total, list_sum_one|].
  split; [now rewrite tally_total, list_sum_one|].
  split; [|split].
  - intros k n. rewrite <- Hentry. split; apply Permutation_in;
      [apply sorted_items_perm | apply Permutation_sym, sorted_items_perm].
  - apply Hentry.
  - apply Hentry.
Qed.

(** ** The sets of the control summary *)

Lemma to_set_fixed_from (l s : list str) :
  NoDup (s ++ l) -> fold_left (fun s x => set_add x s) l s = s ++ l.
Proof.
  revert s; induction l as [|x l IH]; intros s H; simpl.
  - now rewrite app_nil_r.
  - assert (Hx : str_in x s = false).
    { destruct (str_in x s) eqn:E; trivial. apply str_in_In in E.
      apply NoDup_remove_2 in H. exfalso. apply H. apply in_or_app. now left. }
    unfold set_add at 2. rewrite Hx. rewrite IH.
    + now rewrite <- app_assoc.
    + now rewrite <- app_assoc.
Qed.

Lemma to_set_fixed (l : list str) : NoDup l -> to_set l = l.
Proof. intros H. apply (to_set_fixed_from l []). exact H. Qed.

Lemma sorted_unique (l1 l2 : list str) :
  StronglySorted str_le l1 -> StronglySorted str_le l2 ->
  Permutation l1 l2 -> l1 = l2.
Proof.
  intros H1. revert l2. induction H1 as [|a l1 Hs IH Ha]; intros l2 H2 Hp.
  - apply Permutation_nil in Hp. now subst.
  - destruct H2 as [|b l2 Hs2 Hb].
    + apply Permutation_sym, Permutation_nil in Hp. discriminate.
    + assert (Hab : a = b).
      { rewrite Forall_forall in Ha, Hb.
        assert (Hb1 : In b (a :: l1))
          by (eapply Permutation_in; [apply Permutation_sym; exact Hp | now left]).
        assert (Ha2 : In a (b :: l2))
          by (eapply Permutation_in; [exact Hp | now left]).
        destruct Hb1 as [E|Hb1]; [exact E|].
        destruct Ha2 as [E|Ha2]; [now symmetry|].
        apply str_leb_antisym; [now apply Ha | now apply Hb]. }
      subst b. f_equal. apply IH; [exact Hs2|].
      eapply Permutation_cons_inv. exact Hp.
Qed.

Lemma keys_perm (V : Type) (d1 d2 : dict V) :
  Permutation d1 d2 -> Permutation (keys d1) (keys d2).
Proof. apply Permutation_map. Qed.

Lemma filter_keys_NoDup (V : Type) (P : str * V -> bool) (d : dict V) :
  NoDup (keys d) -> NoDup (map fst (filter P d)).
Proof.
  unfold keys. induction d as [|[k v] d IH]; simpl; intros H; [constructor|].
  inversion H as [|? ? Hk Hd]; subst.
  destruct (P (k, v)); simpl; [|now apply IH].
  constructor; [|now apply IH].
  intros Hin. apply Hk. apply in_map_iff in Hin as [[k' v'] [E Hin]].
  apply filter_In in Hin as [Hin _]. simpl in E. subst k'.
  apply in_map_iff. now exists (k, v').
Qed.

(** X5. [unique_controls] is the number of distinct identifiers among the
    records; [controls_found_by_all_tools] is sorted, without repetition
    and made of identifiers of records; [control_families_covered] is the
    key list of [by_family], without repetition. *)
Theorem controls_summary_sets (cs : list Controls.control) :
  let s := Controls.summarize cs in
  let ids := to_set (map Controls.control_id cs) in
  NoDup ids /\ (forall x, In x ids <-> In x (map Controls.control_id cs)) /\
  Controls.unique_controls s = length ids /\
  StronglySorted str_le (Controls.controls_found_by_all_tools s) /\
  NoDup (Controls.controls_found_by_all_tools s) /\
  (forall x, In x (Controls.controls_found_by_all_tools s) -> In x ids) /\
  Controls.control_families_covered s = keys (Controls.by_family s) /\
  NoDup (Controls.control_families_covered s).
Proof.
  cbv zeta. unfold Controls.summarize, Controls.tally_all.
  cbn [Controls.unique_controls Controls.controls_found_by_all_tools
       Controls.control_families_covered Controls.by_family].
  rewrite tally_control, tally_family.
  cbn [Controls.t_control Controls.t_family].
  set (kxs := map (fun c => (Controls.control_id c, Controls.conversion_tool c)) cs).
  assert (Hkeys : keys (group_into kxs []) = to_set (map Controls.control_id cs)).
  { unfold group_into, dict_append.
    rewrite (keys_fold_upd (fun kx : str * str => fst kx)). unfold kxs.
    rewrite map_map. reflexivity. }
  assert (Hnd : NoDup (keys (group_into kxs []))).
  { apply group_into_NoDup. constructor. }
  assert (Hfam : NoDup (keys (fold_left
             (tally_step Controls.control_family (@one _)) cs []))).
  { apply tally_NoDup. constructor. }
  split; [apply to_set_NoDup|].
  split; [intros x; apply to_set_In|].
  split; [rewrite Hkeys, to_set_fixed by apply to_set_NoDup; reflexivity|].
  split; [apply sorted_strs_sorted|].
  split; [apply sorted_strs_NoDup, filter_keys_NoDup, Hnd|].
  split.
  { intros x Hx. apply (proj1 (sorted_strs_In _ _)) in Hx. rewrite <- Hkeys.
    unfold Controls.controls_all_tools in Hx.
    apply in_map_iff in Hx as [kv [<- Hkv]]. apply filter_In in Hkv as [Hkv _].
    unfold keys. now apply in_map. }
  split.
  - apply sorted_unique.
    + apply sorted_strs_sorted.
    + apply sorted_items_keys_sorted.
    + eapply Permutation_trans; [apply sorted_strs_perm|].
      apply Permutation_sym, keys_perm, sorted_items_perm.
  - apply sorted_strs_NoDup. exact Hfam.
Qed.

(** ** The order of the tools in [by_tool] *)

Lemma set_add_present (x : str) (s : list str) : In x s -> set_add x s = s.
Proof.
  intros H. unfold set_add. apply str_in_In in H. now rewrite H.
Qed.

Lemma set_add_absent (x : str) (s : list str) :
  ~ In x s -> set_add x s = s ++ [x].
Proof.
  intros H. unfold set_add. destruct (str_in x s) eqn:E; trivial.
  apply str_in_In in E. contradiction.
Qed.

Lemma fold_set_add_const (t : str) (l s : list str) :
  (forall x, In x l -> x = t) ->
  fold_left (fun s x => set_add x s) l s =
  if nonempty l then set_add t s else s.
Proof.
  revert s; induction l as [|x l IH]; intros s H; cbn [fold_left nonempty];
    trivial.
  rewrite (H x) by now left. rewrite IH by (intros y Hy; apply H; now right).
  destruct (nonempty l); trivial.
  apply set_add_present. apply set_add_In. now left.
Qed.

(** A list made of one block per key, in the order of the keys, has its
    distinct keys in that order. *)
Lemma to_set_blocks (A : Type) (f : A -> str) (g : str -> list A)
    (ts acc : list str) :
  (forall t x, In x (g t) -> f x = t) ->
  NoDup (acc ++ ts) ->
  fold_left (fun s x => set_add x s) (map f (flat_map g ts)) acc =
  acc ++ filter (fun t => nonempty (g t)) ts.
Proof.
  intros Hf. revert acc; induction ts as [|t ts IH]; intros acc Hnd;
    cbn [flat_map filter map fold_left].
  - now rewrite app_nil_r.
  - rewrite map_app, fold_left_app.
    rewrite (@fold_set_add_const t (map f (g t)) acc).
    + assert (Hne : nonempty (map f (g t)) = nonempty (g t))
        by now destruct (g t).
      rewrite Hne. destruct (nonempty (g t)).
      * rewrite set_add_absent.
        -- rewrite IH; [now rewrite <- app_assoc|]. now rewrite <- app_assoc.
        -- apply NoDup_remove_2 in Hnd. intros Hin. apply Hnd.
           apply in_or_app. now left.
      * apply IH. eapply NoDup_remove_1. exact Hnd.
    + intros x Hx. apply in_map_iff in Hx as [y [<- Hy]]. now apply Hf.
Qed.

(** X6. In a run of [main] the keys of [by_tool] are the tools that
    produced a record, in the order [main] visits them: pandoc, markitdown,
    docling. *)
Theorem by_tool_in_tool_order (fs : tree) :
  keys (Controls.by_tool (snd (Controls.main fs))) =
  filter (fun tool =>
            existsb (fun c => str_eqb (Controls.conversion_tool c) tool)
                    (fst (Controls.main fs)))
         TOOLS.
Proof.
  unfold Controls.main. cbn [fst snd].
  unfold Controls.summarize, Controls.tally_all. cbn [Controls.by_tool].
  rewrite tally_tool. cbn [Controls.t_tool]. unfold dict_add.
  rewrite (keys_fold_upd Controls.conversion_tool). cbn [keys map].
  set (g := fun tool =>
              match fs tool with
              | Some files =>
                  flat_map (fun f => Controls.extract_controls_from_file f tool)
                           files
              | None => []
              end).
  assert (Hg : forall t x, In x (g t) -> Controls.conversion_tool x = t).
  { intros t x Hx. unfold g in Hx. destruct (fs t) as [files|]; [|destruct Hx].
    apply in_flat_map in Hx as [f [_ Hx]]. now apply extracted_tool in Hx. }
  change (Controls.all_controls fs) with (flat_map g TOOLS).
  rewrite (@to_set_blocks _ Controls.conversion_tool g TOOLS [] Hg)
    by exact TOOLS_NoDup.
  cbn [app]. apply filter_ext_in. intros t Ht.
  destruct (g t) as [|c l] eqn:E; cbn [nonempty].
  - symmetry. apply not_true_is_false. intros H.
    apply existsb_exists in H as [c [Hc Hk]]. apply str_eqb_eq in Hk.
    apply in_flat_map in Hc as [t' [_ Hc]]. pose proof (Hg _ _ Hc) as Ht'.
    assert (Heq : t' = t) by congruence. rewrite Heq, E in Hc. destruct Hc.
  - symmetry. apply existsb_exists. exists c. split.
    + apply in_flat_map. exists t. split; trivial. rewrite E. now left.
    + apply str_eqb_eq. apply Hg. rewrite E. now left.
Qed.

(** ** References in any letter case *)

Lemma alpha_is_word (a : ascii) : is_alpha a = true -> is_word a = true.
Proof. unfold is_word. intros ->. reflexivity. Qed.

Lemma first_part_any_case (part : option str) (s : mstate) :
  rest s = part_text part ->
  (forall q, part = Some q -> exists c, q = [c] /\ is_alpha c = true) ->
  exists e,
    first_result true false (opt (seqs [chr "."; Grp 4 (Chr is_lower)])) s e /\
    rest e = [] /\ pos e = pos s + length (part_text part) /\
    caps e =
      match part with
      | Some q => [(4, (S (pos s), S (pos s) + length q))]
      | None => []
      end ++ caps s.
Proof.
  intros Hr Hv. destruct part as [q|]; cbn [part_text] in *.
  - destruct (Hv q eq_refl) as [c [-> Hc]].
    change (txt "." ++ [c]) with ["."%char; c] in Hr.
    pose proof (@first_symbol _ _ _ Hr) as F1.
    assert (F2 : first_result true false (Grp 4 (Chr is_lower))
                   (advance "." [c] s)
                   (set_cap 4 (S (pos s)) (S (S (pos s)))
                      (advance c [] (advance "." [c] s)))).
    { apply (@first_Grp true false 4 (Chr is_lower) (advance "." [c] s)
               (advance c [] (advance "." [c] s))).
      apply first_Chr; [reflexivity|]. now rewrite icase_lower. }
    eexists. split.
    + apply first_opt_take.
      * unfold seqs. cbn [fold_right].
        eapply first_Seq; [exact F1|].
        eapply first_Seq; [exact F2|]. apply first_Eps.
      * cbn [set_cap advance pos]. lia.
      * rewrite Hr. discriminate.
    + cbn [set_cap advance rest pos caps length]. repeat split.
      * simpl. lia.
      * now rewrite Nat.add_1_r.
  - exists s. split.
    + apply first_opt_skip. unfold seqs. cbn [fold_right].
      apply no_symbol; [reflexivity|]. now rewrite Hr.
    + simpl. repeat split; trivial.
Qed.

Lemma class_test_alpha (s : str) :
  all_chars is_alpha s -> all_chars (class_test true is_upper) s.
Proof.
  unfold all_chars. intros H. eapply Forall_impl; [|exact H].
  intros a Ha. now rewrite icase_upper.
Qed.

(** On a reference in any letter case the pattern matches the whole
    string, and its groups are the pieces of the reference. *)
Lemma reference_first_match (fam num : str) (enh part : option str) :
  reference_ok fam num enh part ->
  exists e,
    first_result true false Controls.CONTROL_PATTERN
      (MState 0 None (reference_text fam num enh part) []) e /\
    pos e = length (reference_text fam num enh part) /\
    Controls.parts_of (reference_text fam num enh part) (mk_match 0 e) =
      Controls.Parts (upper fam) num enh part.
Proof.
  intros [L1 [U1 [L2 [D2 [V3 V4]]]]].
  set (input := reference_text fam num enh part).
  set (s := MState 0 None input []).
  assert (F0 : first_result true false WordB s s).
  { apply first_WordB. unfold at_boundary, s, input, reference_text.
    cbn [prev rest word_opt]. destruct fam as [|a fam]; [discriminate|].
    pose proof (Forall_inv U1) as Ha. cbv beta in Ha. simpl.
    now rewrite alpha_is_word. }
  destruct (@first_grp_rep true false 1 is_upper 2 (Some 2) fam
              (txt "-" ++ num ++ enh_text enh ++ part_text part) s)
    as [s2 [F2 [R2 [P2 C2]]]]; trivial.
  { now apply class_test_alpha. }
  { left. now rewrite L1. }
  { lia. }
  { intros h Hh. injection Hh as <-. lia. }
  pose proof (@first_symbol _ _ _ R2) as F3.
  destruct (@first_grp_rep true false 2 is_digit 1 (Some 2) num
              (enh_text enh ++ part_text part)
              (advance "-" (num ++ enh_text enh ++ part_text part) s2))
    as [s4 [F4 [R4 [P4 C4]]]]; trivial.
  { now apply class_test_plain. }
  { right. destruct enh as [ds|]; [reflexivity|].
    destruct part as [q|]; reflexivity. }
  { lia. }
  { intros h Hh. injection Hh as <-. lia. }
  destruct (@first_enhancement enh (part_text part) s4)
    as [s5 [F5 [R5 [P5 C5]]]]; trivial.
  { intros _. destruct part as [q|]; simpl; [discriminate | trivial]. }
  destruct (@first_part_any_case part s5) as [e [F6 [R6 [P6 C6]]]]; trivial.
  exists e. split; [|split].
  - unfold Controls.CONTROL_PATTERN, seqs. cbn [fold_right].
    eapply first_Seq; [exact F0|].
    eapply first_Seq; [exact F2|].
    eapply first_Seq; [exact F3|].
    eapply first_Seq; [exact F4|].
    eapply first_Seq; [exact F5|].
    eapply first_Seq; [exact F6|]. apply first_Eps.
  - rewrite P6, P5, P4. cbn [advance pos]. rewrite P2.
    unfold input, reference_text, s. cbn [pos]. rewrite !length_app. simpl. lia.
  - apply (@parts_from_caps input [] fam num [] enh part (mk_match 0 e)
             0 (pos s2 + 1) (S (pos s4)) (S (pos s5))).
    + unfold input, reference_text. cbn [app]. now rewrite app_nil_r.
    + cbn [mk_match m_caps]. rewrite C6, C5, C4. cbn [advance caps pos].
      rewrite C2. cbn [s pos caps]. rewrite P2. cbn [s pos].
      rewrite Nat.add_1_r. reflexivity.
    + reflexivity.
    + rewrite P2. cbn [s pos length]. lia.
    + rewrite P4, P2. cbn [advance s pos length]. rewrite P2. cbn [s pos]. lia.
    + rewrite P5, P4, P2. cbn [advance s pos length]. rewrite P2.
      cbn [s pos]. lia.
Qed.

Lemma alpha_not_newline (a : ascii) :
  is_alpha a = true -> ascii_eqb a newline = false.
Proof. destruct a as [[] [] [] [] [] [] [] []]; vm_compute; congruence. Qed.

Lemma reference_one_line (fam num : str) (enh part : option str) :
  reference_ok fam num enh part ->
  split_lines (reference_text fam num enh part) =
  [reference_text fam num enh part].
Proof.
  intros [_ [U1 [_ [D2 [V3 V4]]]]].
  apply (split_lines_from_single []).
  assert (Hal : forall s, all_chars is_alpha s ->
                  all_chars (fun a => negb (ascii_eqb a newline)) s).
  { intros s Hs. unfold all_chars in *. eapply Forall_impl; [|exact Hs].
    intros a Ha. cbv beta in *. now rewrite alpha_not_newline. }
  assert (Hdg : forall s, all_chars is_digit s ->
                  all_chars (fun a => negb (ascii_eqb a newline)) s).
  { intros s Hs. unfold all_chars in *. eapply Forall_impl; [|exact Hs].
    intros a Ha. cbv beta in *. now rewrite digit_not_newline. }
  unfold reference_text, all_chars. apply Forall_app; split.
  - now apply Hal.
  - apply Forall_app; split; [repeat constructor|].
    apply Forall_app; split; [now apply Hdg|].
    apply Forall_app; split.
    + destruct enh as [ds|]; [|constructor]. cbn [enh_text].
      destruct (V3 ds eq_refl) as [_ Hds].
      apply Forall_app; split; [repeat constructor|].
      apply Forall_app; split; [now apply Hdg | repeat constructor].
    + destruct part as [q|]; [|constructor]. cbn [part_text].
      destruct (V4 q eq_refl) as [c [-> Hl]].
      apply Forall_app; split; [repeat constructor|].
      constructor; [|constructor]. now rewrite alpha_not_newline.
Qed.

Lemma reference_extraction (name path tool fam num : str)
    (enh part : option str) :
  reference_ok fam num enh part ->
  let input := reference_text fam num enh part in
  Controls.extract_controls_from_file (File name path (inl input)) tool =
  [ Controls.Control
      (reference_text (upper fam) num enh (option_map lower part))
      (upper fam) (Controls.family_name (upper fam))
      (upper fam ++ txt "-" ++ num) (is_some enh) enh
      name path tool 1 0
      (strip (slice input 0 (Nat.min (length input) (length input + 100)))) ].
Proof.
  intros Hok. set (input := reference_text fam num enh part).
  destruct (reference_first_match Hok) as [e [[l F] [P G]]].
  fold input in F, P, G.
  pose proof Hok as [L1 [_ [_ [_ [V3 V4]]]]].
  assert (Hm : Controls.line_matches input = [mk_match 0 e]).
  { unfold Controls.line_matches, finditer.
    destruct input as [|a t] eqn:E.
    - exfalso. unfold input, reference_text in E. destruct fam; discriminate.
    - cbn [scan]. rewrite F. f_equal. rewrite P. cbn [length].
      rewrite Nat.sub_0_r. cbn [pred].
      apply scan_skip_all. intros j q. apply control_no_empty_match. }
  cbv zeta. fold input.
  unfold Controls.extract_controls_from_file, Controls.controls_of_text.
  cbn [f_read].
  pose proof (reference_one_line Hok) as Hl. fold input in Hl. rewrite Hl.
  cbn [Controls.enumerate_from flat_map fst snd]. rewrite Hm. cbn [map app].
  unfold Controls.control_of. rewrite G.
  rewrite (build_id_reference _ _ V3 V4).
  cbn [Controls.p_family Controls.p_number Controls.p_enhancement
       Controls.p_part f_name f_path mk_match m_start m_end].
  rewrite P. reflexivity.
Qed.

(** X7. A file whose whole text is one reference, written in any letter
    case, gives exactly one record, at line 1 and column 0: its family is
    the upper-cased family, its part the lower-cased part, number and
    enhancement are kept as written, and the context snippet is the
    reference as written. *)
Theorem reference_normalized (name path tool fam num : str)
    (enh part : option str) :
  reference_ok fam num enh part ->
  Controls.extract_controls_from_file
    (File name path (inl (reference_text fam num enh part))) tool =
  [ Controls.Control
      (reference_text (upper fam) num enh (option_map lower part))
      (upper fam) (Controls.family_name (upper fam))
      (upper fam ++ txt "-" ++ num) (is_some enh) enh
      name path tool 1 0 (reference_text fam num enh part) ].
Proof.
  intros Hok. rewrite (reference_extraction name path tool Hok).
  pose proof Hok as [L1 [A1 [L2 [D2 [_ V4]]]]].
  destruct (@reference_text_trimmed fam num enh part) as [_ Ht]; trivial;
    [lia|].
  do 2 f_equal. rewrite Nat.min_l by lia.
  unfold slice. rewrite Nat.sub_0_r. cbn [skipn]. rewrite firstn_all.
  now apply strip_fixed.
Qed.

Lemma reference_normalized_witness :
  reference_ok (txt "aC") (txt "2") (Some (txt "1")) (Some (txt "B")) /\
  Controls.extract_controls_from_file
    (File (txt "policy.md") (txt "pandoc/markdown/policy.md")
          (inl (txt "aC-2(1).B"))) (txt "pandoc") =
  [ Controls.Control (txt "AC-2(1).b") (txt "AC") (txt "Access Control")
      (txt "AC-2") true (Some (txt "1"))
      (txt "policy.md") (txt "pandoc/markdown/policy.md") (txt "pandoc")
      1 0 (txt "aC-2(1).B") ].
Proof.
  assert (H : reference_ok (txt "aC") (txt "2") (Some (txt "1"))
                           (Some (txt "B"))).
  { unfold reference_ok. split; [reflexivity|].
    split; [repeat constructor|]. split; [simpl; lia|].
    split; [repeat constructor|]. split.
    - intros ds E. injection E as <-. split; [discriminate|repeat constructor].
    - intros q E. injection E as <-. exists "B"%char. split; reflexivity. }
  split; [exact H|].
  exact (@reference_normalized (txt "policy.md")
           (txt "pandoc/markdown/policy.md") (txt "pandoc")
           (txt "aC") (txt "2") (Some (txt "1")) (Some (txt "B")) H).
Defined.

Lemma upper_upper (s : str) : upper (upper s) = upper s.
Proof.
  unfold upper. rewrite map_map. apply map_ext. intros a.
  destruct a as [[] [] [] [] [] [] [] []]; reflexivity.
Qed.

Lemma upper_keeps_alpha (s : str) :
  all_chars is_alpha s -> all_chars is_alpha (upper s).
Proof.
  unfold all_chars, upper. induction 1 as [|a s Ha _ IH]; simpl;
    constructor; trivial.
  revert Ha. destruct a as [[] [] [] [] [] [] [] []]; vm_compute; congruence.
Qed.

Lemma lower_keeps_alpha (a : ascii) :
  is_alpha a = true -> is_alpha (to_lower a) = true.
Proof. destruct a as [[] [] [] [] [] [] [] []]; vm_compute; congruence. Qed.

(** The identifier of a record is itself a reference, in normal form. *)
Lemma control_id_reference (f : file) (tool : str) (c : Controls.control) :
  In c (Controls.extract_controls_from_file f tool) ->
  exists fam num enh part,
    reference_ok fam num enh part /\
    upper fam = fam /\ option_map lower part = part /\
    Controls.control_id c = reference_text fam num enh part /\
    Controls.control_family c = fam /\
    Controls.base_control c = fam ++ txt "-" ++ num /\
    Controls.enhancement_number c = enh.
Proof.
  intros H.
  apply extracted_control_at in H as [content [n [line [m [_ [_ [_ [Hm ->]]]]]]]].
  apply line_match_text in Hm
    as [pre [fam [num [enh [part [tail [_ [_ [_ [L1 [A1 [L2 [D2 [V3 [V4 G]]]]]]]]]]]]]]].
  exists (upper fam), num, enh, (option_map lower part).
  unfold Controls.control_of.
  cbn [Controls.control_id Controls.control_family Controls.base_control
       Controls.enhancement_number].
  rewrite G, (build_id_reference _ _ V3 V4).
  cbn [Controls.p_family Controls.p_number Controls.p_enhancement].
  split; [|split; [|split; [|auto]]].
  - unfold reference_ok. split; [now rewrite length_upper|].
    split; [now apply upper_keeps_alpha|].
    split; [exact L2|]. split; [exact D2|]. split; [exact V3|].
    intros q Hq. destruct part as [q0|]; [|discriminate].
    injection Hq as <-. destruct (V4 q0 eq_refl) as [ch [-> Hch]].
    exists (to_lower ch). split; [reflexivity | now apply lower_keeps_alpha].
  - apply upper_upper.
  - destruct part as [q|]; trivial. cbn [option_map]. now rewrite lower_lower.
Qed.

(** X8. The identifier of a record of an ASCII file is in normal form: a
    file whose whole text is that identifier gives exactly one record,
    with the same identifier, family, base control and enhancement. *)
Theorem control_id_is_fixed_point (f : file) (tool : str)
    (c : Controls.control) (name path tool' : str) :
  ascii_file f ->
  In c (Controls.extract_controls_from_file f tool) ->
  exists c',
    Controls.extract_controls_from_file
      (File name path (inl (Controls.control_id c))) tool' = [c'] /\
    Controls.control_id c' = Controls.control_id c /\
    Controls.control_family c' = Controls.control_family c /\
    Controls.base_control c' = Controls.base_control c /\
    Controls.has_enhancement c' = Controls.has_enhancement c /\
    Controls.enhancement_number c' = Controls.enhancement_number c.
Proof.
  intros _ H. pose proof H as H0.
  apply control_id_reference in H
    as [fam [num [enh [part [Hok [Hu [Hl [Hid [Hfam [Hbase Henh]]]]]]]]]].
  assert (Hhas : Controls.has_enhancement c = is_some enh).
  { apply extracted_control_at in H0 as [? [? [? [? [_ [_ [_ [_ ->]]]]]]]].
    cbn in Henh |- *. now rewrite Henh. }
  pose proof (@reference_extraction name path tool' fam num enh part Hok)
    as E. cbv zeta in E.
  rewrite Hu, Hl in E. rewrite Hid, E. eexists. split; [reflexivity|].
  cbn. rewrite Hfam, Hbase, Henh, Hhas. auto.
Qed.

Lemma control_id_is_fixed_point_witness :
  ascii_file sample_file /\
  In sample_control
     (Controls.extract_controls_from_file sample_file (txt "pandoc")) /\
  exists c',
    Controls.extract_controls_from_file
      (File (txt "id.md") (txt "id.md")
            (inl (Controls.control_id sample_control))) (txt "docling") = [c'] /\
    Controls.control_id c' = Controls.control_id sample_control.
Proof.
  assert (Ha : ascii_file sample_file) by reflexivity.
  assert (H : In sample_control
     (Controls.extract_controls_from_file sample_file (txt "pandoc")))
    by (vm_compute; left; reflexivity).
  split; [exact Ha|]. split; [exact H|].
  destruct (@control_id_is_fixed_point sample_file (txt "pandoc")
              sample_control (txt "id.md") (txt "id.md") (txt "docling") Ha H)
    as [c' [H1 [H2 _]]].
  exists c'. auto.
Defined.

(** ** Every match of an entity pattern is counted once *)

Lemma dict_append_sizes (V : Type) (k : str) (x : V) (d : dict (list V)) :
  list_sum (map (fun kv => length (snd kv)) (dict_append k x d)) =
  S (list_sum (map (fun kv => length (snd kv)) d)).
Proof.
  unfold dict_append. induction d as [|[k' v] d IH]; [reflexivity|].
  cbn [dict_upd]. destruct (str_eqb k' k).
  - cbn [map list_sum snd]. rewrite length_app. simpl. lia.
  - change (list_sum (map (fun kv : str * list V => length (snd kv))
                      ((k', v) :: ?t)))
      with (length v + list_sum (map (fun kv : str * list V => length (snd kv)) t)).
    rewrite IH. lia.
Qed.

Lemma group_into_sizes (V : Type) (kxs : list (str * V)) (d : dict (list V)) :
  list_sum (map (fun kv => length (snd kv)) (group_into kxs d)) =
  list_sum (map (fun kv => length (snd kv)) d) + length kxs.
Proof.
  unfold group_into. revert d.
  induction kxs as [|kx kxs IH]; intros d; cbn [fold_left length]; [lia|].
  rewrite IH, dict_append_sizes. lia.
Qed.

Lemma length_flat_map_map (A B C : Type) (g : A -> list B) (h : A -> B -> C)
    (l : list A) :
  length (flat_map (fun a => map (h a) (g a)) l) = length (flat_map g l).
Proof.
  induction l as [|a l IH]; [reflexivity|].
  cbn [flat_map]. now rewrite !length_app, length_map, IH.
Qed.

Lemma records_of_type_occurrences (f : file) (tool content : str)
    (tp : str * list regex) :
  occurrences_sum (Entities.records_of_type f tool content tp) =
  length (flat_map (Entities.pattern_matches content) (snd tp)).
Proof.
  unfold occurrences_sum, Entities.records_of_type. rewrite map_map.
  cbn [Entities.occurrences].
  change (Entities.found_values ?r) with (group_into r []).
  rewrite group_into_sizes. cbn [map list_sum Nat.add].
  unfold Entities.raw_matches.
  apply (length_flat_map_map (Entities.pattern_matches content)
           (fun _ m => (Entities.normalize (fst tp) (or_empty (group content m 1)),
                        Entities.context_of content m))).
Qed.

Lemma occurrences_sum_app (l1 l2 : list Entities.entity_record) :
  occurrences_sum (l1 ++ l2) = occurrences_sum l1 + occurrences_sum l2.
Proof.
  unfold occurrences_sum. rewrite map_app.
  induction (map Entities.occurrences l1) as [|n l IH]; simpl; lia.
Qed.

(** X9. Every match of every entity pattern in a file is counted in
    exactly one record of that file: the [occurrences] of the records add
    up to the number of matches, and to zero for a file that cannot be
    read. *)
Theorem every_entity_match_counted (f : file) (tool : str) :
  occurrences_sum (Entities.extract_entities_from_file f tool) =
  match f_read f with
  | inl content => length (all_entity_matches content)
  | inr _ => 0
  end.
Proof.
  unfold Entities.extract_entities_from_file.
  destruct (f_read f) as [content|e]; [|reflexivity].
  unfold Entities.entities_of_text, all_entity_matches.
  induction Entities.ENTITY_PATTERNS as [|tp tps IH]; [reflexivity|].
  cbn [flat_map]. rewrite occurrences_sum_app, length_app, IH.
  now rewrite records_of_type_occurrences.
Qed.

(** ** Normalized entity values *)

Lemma upper_space (a : ascii) : is_space (to_upper a) = is_space a.
Proof. destruct a as [[] [] [] [] [] [] [] []]; reflexivity. Qed.

Lemma lower_space (a : ascii) : is_space (to_lower a) = is_space a.
Proof. destruct a as [[] [] [] [] [] [] [] []]; reflexivity. Qed.

Lemma upper_alpha_same (a : ascii) : is_alpha (to_upper a) = is_alpha a.
Proof. destruct a as [[] [] [] [] [] [] [] []]; reflexivity. Qed.

Lemma lower_alpha_same (a : ascii) : is_alpha (to_lower a) = is_alpha a.
Proof. destruct a as [[] [] [] [] [] [] [] []]; reflexivity. Qed.

Lemma to_upper_twice (a : ascii) : to_upper (to_upper a) = to_upper a.
Proof. destruct a as [[] [] [] [] [] [] [] []]; reflexivity. Qed.

Lemma to_lower_twice (a : ascii) : to_lower (to_lower a) = to_lower a.
Proof. destruct a as [[] [] [] [] [] [] [] []]; reflexivity. Qed.

Lemma to_upper_lower (a : ascii) : to_upper (to_lower a) = to_upper a.
Proof. destruct a as [[] [] [] [] [] [] [] []]; reflexivity. Qed.

Lemma title_spaces (b : bool) (s : str) :
  map is_space (title_from b s) = map is_space s.
Proof.
  revert b. induction s as [|a s IH]; intros b; [reflexivity|].
  cbn [title_from map]. rewrite IH. f_equal.
  destruct b; [apply lower_space | apply upper_space].
Qed.

Lemma upper_spaces (s : str) : map is_space (upper s) = map is_space s.
Proof.
  unfold upper. rewrite map_map. apply map_ext, upper_space.
Qed.

Lemma lower_spaces (s : str) : map is_space (lower s) = map is_space s.
Proof.
  unfold lower. rewrite map_map. apply map_ext, lower_space.
Qed.

(** Whether a string is trimmed depends on where its white space is. *)
Lemma trimmed_spaces (s s' : str) :
  map is_space s = map is_space s' -> trimmed s -> trimmed s'.
Proof.
  intros E [Hh Hl]. split.
  - intros a' t' ->. destruct s as [|a t]; [discriminate|].
    cbn [map] in E. injection E as E _. rewrite <- E. now apply (Hh a t).
  - intros a' t' ->. rewrite map_app in E. cbn [map] in E.
    apply map_eq_app in E as [t [l [-> [_ E]]]].
    destruct l as [|a [|? ?]]; try discriminate.
    cbn [map] in E. injection E as E. rewrite <- E. now apply (Hl a t).
Qed.

Lemma lstrip_map (g : ascii -> ascii) (s : str) :
  (forall a, is_space (g a) = is_space a) ->
  lstrip (map g s) = map g (lstrip s).
Proof.
  intros Hg. induction s as [|a s IH]; [reflexivity|].
  cbn [map lstrip]. rewrite Hg. now destruct (is_space a).
Qed.

Lemma strip_map (g : ascii -> ascii) (s : str) :
  (forall a, is_space (g a) = is_space a) ->
  strip (map g s) = map g (strip s).
Proof.
  intros Hg. unfold strip, rstrip.
  now rewrite (lstrip_map _ _ Hg), <- map_rev, (lstrip_map _ _ Hg), map_rev.
Qed.

Lemma length_title_from (b : bool) (s : str) :
  length (title_from b s) = length s.
Proof.
  revert b. induction s as [|a s IH]; intros b; [reflexivity|].
  cbn [title_from length]. now rewrite IH.
Qed.

Lemma title_from_twice (b : bool) (s : str) :
  title_from b (title_from b s) = title_from b s.
Proof.
  revert b. induction s as [|a s IH]; intros b; [reflexivity|].
  cbn [title_from]. destruct b.
  - now rewrite to_lower_twice, lower_alpha_same, IH.
  - now rewrite to_upper_twice, upper_alpha_same, IH.
Qed.

Lemma title_from_lower (b : bool) (s : str) :
  title_from b (lower s) = title_from b s.
Proof.
  revert b. induction s as [|a s IH]; intros b; [reflexivity|].
  cbn [lower map title_from]. fold (lower s).
  rewrite lower_alpha_same, IH. now destruct b;
    [rewrite to_lower_twice | rewrite to_upper_lower].
Qed.

Lemma upper_of_lower (s : str) : upper (lower s) = upper s.
Proof.
  unfold upper, lower. rewrite map_map. apply map_ext, to_upper_lower.
Qed.

Lemma normalize_trimmed (tp v : str) : trimmed (Entities.normalize tp v).
Proof.
  unfold Entities.normalize.
  destruct (str_in tp Entities.ACRONYM_TYPES); [|apply strip_trimmed].
  destruct (length (strip v) <=? 5).
  - apply (@trimmed_spaces (strip v)); [|apply strip_trimmed].
    symmetry. apply upper_spaces.
  - apply (@trimmed_spaces (strip v)); [|apply strip_trimmed].
    symmetry. apply title_spaces.
Qed.

Lemma normalize_idempotent (tp v : str) :
  Entities.normalize tp (Entities.normalize tp v) = Entities.normalize tp v.
Proof.
  pose proof (normalize_trimmed tp v) as Ht. apply strip_fixed in Ht.
  unfold Entities.normalize at 1. rewrite Ht.
  unfold Entities.normalize.
  destruct (str_in tp Entities.ACRONYM_TYPES); [|reflexivity].
  destruct (length (strip v) <=? 5) eqn:E.
  - rewrite length_upper, E. apply upper_upper.
  - unfold title. rewrite length_title_from, E. apply title_from_twice.
Qed.

(** X10. The value of an entity record of an ASCII file is in normal
    form: normalizing it again under its own type leaves it unchanged, and
    it has no white space at either end. *)
Theorem entity_values_normal (f : file) (tool : str)
    (e : Entities.entity_record) :
  ascii_file f ->
  In e (Entities.extract_entities_from_file f tool) ->
  Entities.normalize (Entities.entity_type e) (Entities.value e)
    = Entities.value e /\
  trimmed (Entities.value e).
Proof.
  intros _. unfold Entities.extract_entities_from_file.
  destruct (f_read f) as [content|err]; [|intros []].
  unfold Entities.entities_of_text. intros H.
  apply in_flat_map in H as [tp [_ H]].
  apply records_of_type_In in H as [v [Hv ->]]. cbn.
  apply in_map_iff in Hv as [[n c] [<- Hin]]. cbn [fst].
  unfold Entities.raw_matches in Hin.
  apply in_flat_map in Hin as [pattern [_ Hin]].
  apply in_map_iff in Hin as [m [E _]]. injection E as <- _.
  split; [apply normalize_idempotent | apply normalize_trimmed].
Qed.

Lemma entity_values_normal_witness :
  ascii_file (File (txt "policy.md") (txt "pandoc/markdown/policy.md")
                   (inl two_roles)) /\
  In ciso_record
     (Entities.extract_entities_from_file
        (File (txt "policy.md") (txt "pandoc/markdown/policy.md")
              (inl two_roles)) (txt "pandoc")) /\
  Entities.normalize (Entities.entity_type ciso_record)
                     (Entities.value ciso_record)
    = Entities.value ciso_record.
Proof.
  assert (Ha : ascii_file (File (txt "policy.md")
                                (txt "pandoc/markdown/policy.md")
                                (inl two_roles))) by reflexivity.
  assert (H : In ciso_record
     (Entities.extract_entities_from_file
        (File (txt "policy.md") (txt "pandoc/markdown/policy.md")
              (inl two_roles)) (txt "pandoc")))
    by (vm_compute; left; reflexivity).
  split; [exact Ha|]. split; [exact H|].
  exact (proj1 (@entity_values_normal _ _ _ Ha H)).
Defined.

(** X11. For the types role, organization, system and standard the
    normalized value of an ASCII text does not depend on letter case: two
    ASCII texts that agree once lower-cased normalize to the same value,
    so their matches are counted in one record. *)
Theorem normalize_ignores_case (tp v w : str) :
  In tp Entities.ACRONYM_TYPES ->
  ascii_text v -> ascii_text w ->
  lower v = lower w ->
  Entities.normalize tp v = Entities.normalize tp w.
Proof.
  intros Htp _ _ E. unfold Entities.normalize.
  assert (Hin : str_in tp Entities.ACRONYM_TYPES = true).
  { unfold str_in. apply existsb_exists. exists tp. split; trivial.
    apply str_eqb_refl. }
  rewrite Hin.
  assert (En : lower (strip v) = lower (strip w)).
  { unfold lower. rewrite <- !(strip_map _ _ lower_space). fold (lower v).
    fold (lower w). now rewrite E. }
  assert (El : length (strip v) = length (strip w)).
  { rewrite <- (length_lower (strip v)), En. apply length_lower. }
  rewrite El. destruct (length (strip w) <=? 5).
  - now rewrite <- (upper_of_lower (strip v)), En, upper_of_lower.
  - unfold title.
    now rewrite <- (title_from_lower false (strip v)), En, title_from_lower.
Qed.

Lemma normalize_ignores_case_witness :
  In (txt "role") Entities.ACRONYM_TYPES /\
  ascii_text (txt "Ciso") /\ ascii_text (txt "cISO") /\
  lower (txt "Ciso") = lower (txt "cISO") /\
  Entities.normalize (txt "role") (txt "Ciso") =
  Entities.normalize (txt "role") (txt "cISO").
Proof.
  assert (H1 : In (txt "role") Entities.ACRONYM_TYPES) by (left; reflexivity).
  assert (A1 : ascii_text (txt "Ciso")) by reflexivity.
  assert (A2 : ascii_text (txt "cISO")) by reflexivity.
  assert (H2 : lower (txt "Ciso") = lower (txt "cISO")) by reflexivity.
  split; [exact H1|]. split; [exact A1|]. split; [exact A2|].
  split; [exact H2|].
  exact (@normalize_ignores_case (txt "role") (txt "Ciso") (txt "cISO")
           H1 A1 A2 H2).
Defined.

(** ** The sample contexts of an entity *)

Lemma length_slice (s : str) (i j : nat) : length (slice s i j) <= j - i.
Proof. unfold slice. rewrite length_firstn. lia. Qed.

Lemma flatten_no_newline (s : str) : ~ In newline (Entities.flatten_newlines s).
Proof.
  unfold Entities.flatten_newlines. intros H.
  apply in_map_iff in H as [a [E _]].
  destruct (ascii_eqb a newline) eqn:Ha; [discriminate|].
  subst a. vm_compute in Ha. discriminate.
Qed.

Lemma context_of_bounds (content : str) (m : rmatch) :
  match_within 0 (length content) m ->
  trimmed (Entities.context_of content m) /\
  ~ In newline (Entities.context_of content m) /\
  length (Entities.context_of content m) <= (m_end m - m_start m) + 60.
Proof.
  intros [_ [H1 H2]]. unfold Entities.context_of. split; [|split].
  - apply strip_trimmed.
  - intros H. apply strip_In in H. now apply flatten_no_newline in H.
  - eapply Nat.le_trans; [apply strip_length|].
    unfold Entities.flatten_newlines. rewrite length_map.
    eapply Nat.le_trans; [apply length_slice|]. lia.
Qed.

(** X12. Every sample context of an entity record is the context of a
    match of a pattern of the record's type whose text normalizes to the
    record's value; it has no white space at either end, no line break,
    and at most 60 characters more than the match. *)
Theorem entity_context_window (f : file) (tool : str)
    (e : Entities.entity_record) (ctx : str) :
  In e (Entities.extract_entities_from_file f tool) ->
  In ctx (Entities.sample_contexts e) ->
  exists content pattern m,
    f_read f = inl content /\
    In pattern (patterns_of (Entities.entity_type e)) /\
    In m (Entities.pattern_matches content pattern) /\
    Entities.normalize (Entities.entity_type e)
      (or_empty (group content m 1)) = Entities.value e /\
    ctx = Entities.context_of content m /\
    trimmed ctx /\ ~ In newline ctx /\
    length ctx <= (m_end m - m_start m) + 60.
Proof.
  unfold Entities.extract_entities_from_file.
  destruct (f_read f) as [content|err]; [|intros []].
  unfold Entities.entities_of_text. intros H Hc.
  apply in_flat_map in H as [tp [Htp H]].
  apply records_of_type_In in H as [v [_ ->]].
  cbn [Entities.sample_contexts Entities.entity_type Entities.value] in *.
  apply firstn_In in Hc. unfold values_of in Hc.
  apply in_map_iff in Hc as [[n c] [Ec Hc]]. cbn [snd] in Ec. subst c.
  apply filter_In in Hc as [Hin Hn]. cbn [fst] in Hn.
  apply str_eqb_eq in Hn. subst n.
  unfold Entities.raw_matches in Hin.
  apply in_flat_map in Hin as [pattern [Hp Hin]].
  apply in_map_iff in Hin as [m [E Hm]].
  exists content, pattern, m.
  rewrite (@patterns_of_entry tp Htp).
  pose proof (f_equal fst E) as E1. pose proof (f_equal snd E) as E2.
  cbn [fst snd] in E1, E2.
  assert (Hw : match_within 0 (length content) m).
  { unfold Entities.pattern_matches in Hm.
    destruct (finditer_ordered true false pattern content) as [Hf _].
    rewrite Forall_forall in Hf. now apply Hf. }
  destruct (@context_of_bounds content m Hw) as [B1 [B2 B3]].
  subst ctx. split; [reflexivity|]. split; [exact Hp|]. split; [exact Hm|].
  split; [exact E1|]. split; [reflexivity|]. auto.
Qed.

Lemma entity_context_window_witness :
  In ciso_record
     (Entities.extract_entities_from_file
        (File (txt "policy.md") (txt "pandoc/markdown/policy.md")
              (inl two_roles)) (txt "pandoc")) /\
  In two_roles (Entities.sample_contexts ciso_record) /\
  exists m,
    two_roles = Entities.context_of two_roles m /\
    length two_roles <= (m_end m - m_start m) + 60.
Proof.
  assert (H : In ciso_record
     (Entities.extract_entities_from_file
        (File (txt "policy.md") (txt "pandoc/markdown/policy.md")
              (inl two_roles)) (txt "pandoc")))
    by (vm_compute; left; reflexivity).
  assert (Hc : In two_roles (Entities.sample_contexts ciso_record))
    by (left; reflexivity).
  split; [exact H|]. split; [exact Hc|].
  destruct (@entity_context_window _ _ _ _ H Hc)
    as [content [pattern [m [E [_ [_ [_ [H1 [_ [_ H2]]]]]]]]]].
  cbn [f_read] in E. injection E as <-.
  exists m. auto.
Defined.

(** ** The summary of extract-entities.py *)

Lemma unique_of_tally (k : str) (es : list Entities.entity_record) :
  Entities.unique_of k (Entities.tally_unique es) = to_set (type_values k es).
Proof.
  unfold Entities.unique_of, Entities.tally_unique.
  rewrite tally_unique_get. cbn [dict_get].
  destruct (type_values k es) as [|v l]; reflexivity.
Qed.

Lemma length_set_add (x : str) (s : list str) :
  length (set_add x s) <= S (length s).
Proof.
  unfold set_add. destruct (str_in x s); [lia|].
  rewrite length_app. simpl. lia.
Qed.

Lemma length_fold_set_add (l s : list str) :
  length (fold_left (fun s x => set_add x s) l s) <= length s + length l.
Proof.
  revert s. induction l as [|x l IH]; intros s; cbn [fold_left length]; [lia|].
  eapply Nat.le_trans; [apply IH|]. pose proof (length_set_add x s). lia.
Qed.

Lemma length_to_set (l : list str) : length (to_set l) <= length l.
Proof. unfold to_set. apply (length_fold_set_add l []). Qed.

Lemma to_set_nonempty (l : list str) : l <> [] -> 1 <= length (to_set l).
Proof.
  destruct l as [|x l]; [congruence|]. intros _.
  assert (H : In x (to_set (x :: l))) by (apply to_set_In; now left).
  destruct (to_set (x :: l)); [destruct H | simpl; lia].
Qed.

Lemma by_type_entry (es : list Entities.entity_record) (k : str)
    (tc : Entities.type_count) :
  In (k, tc) (Entities.by_type (Entities.summarize es)) <->
  (exists e, In e es /\ Entities.entity_type e = k) /\
  tc = Entities.TypeCount
         (sum_by Entities.entity_type Entities.occurrences k es)
         (length (to_set (type_values k es))).
Proof.
  unfold Entities.summarize. cbn [Entities.by_type].
  rewrite in_map_iff. split.
  - intros [[k' n] [E Hin]]. cbn [fst snd] in E.
    injection E as -> <-.
    apply (Permutation_in _ (sorted_items_perm _)) in Hin.
    apply (tally_entry Entities.entity_type Entities.occurrences) in Hin
      as [Hex ->].
    split; trivial. now rewrite unique_of_tally.
  - intros [Hex ->].
    exists (k, sum_by Entities.entity_type Entities.occurrences k es).
    cbn [fst snd]. rewrite unique_of_tally. split; trivial.
    apply (Permutation_in _ (Permutation_sym (sorted_items_perm _))).
    apply (tally_entry Entities.entity_type Entities.occurrences).
    split; trivial.
Qed.

(** X13. The counts of the entity summary add up: [total_entities] is the
    number of records, [total_occurrences] the sum of their occurrences,
    which is also the sum of the [total_occurrences] of [by_type]; the
    entry of a type holds the sum of the occurrences of the records of that
    type and the number of their distinct values. *)
Theorem entities_summary_counts (es : list Entities.entity_record) :
  let s := Entities.summarize es in
  Entities.total_entities s = length es /\
  Entities.total_occurrences s = occurrences_sum es /\
  type_totals (Entities.by_type s) = occurrences_sum es /\
  (forall k tc, In (k, tc) (Entities.by_type s) <->
     (exists e, In e es /\ Entities.entity_type e = k) /\
     tc = Entities.TypeCount
            (sum_by Entities.entity_type Entities.occurrences k es)
            (length (to_set (type_values k es)))).
Proof.
  cbv zeta. split; [reflexivity|]. split; [|split].
  - unfold Entities.summarize, occurrences_sum.
    cbn [Entities.total_occurrences].
    induction es as [|e es IH]; [reflexivity|]. cbn [fold_right map list_sum].
    now rewrite IH.
  - unfold Entities.summarize, type_totals. cbn [Entities.by_type].
    rewrite map_map. cbn [snd Entities.tc_total_occurrences].
    change (list_sum (map (fun x : str * nat => snd x) ?d)) with (total d).
    rewrite (total_perm (sorted_items_perm _)).
    unfold Entities.tally_by_type.
    change (fold_left _ es []) with
      (fold_left (tally_step Entities.entity_type Entities.occurrences) es []).
    rewrite tally_total. reflexivity.
  - intros k tc. apply by_type_entry.
Qed.

Lemma sum_by_at_least (X : Type) (key : X -> str) (w : X -> nat) (k : str)
    (xs : list X) :
  (forall x, In x xs -> 1 <= w x) ->
  length (filter (fun x => str_eqb (key x) k) xs) <= sum_by key w k xs.
Proof.
  intros H. unfold sum_by. induction xs as [|x xs IH]; [reflexivity|].
  cbn [filter]. assert (Hx := H x (or_introl eq_refl)).
  assert (IH' := IH (fun y Hy => H y (or_intror Hy))).
  destruct (str_eqb (key x) k); [|exact IH'].
  change (S (length (filter (fun x => str_eqb (key x) k) xs))
          <= w x + list_sum (map w (filter (fun x => str_eqb (key x) k) xs))).
  lia.
Qed.

Lemma entity_occurs (fs : tree) (e : Entities.entity_record) :
  In e (Entities.all_entities fs) -> 1 <= Entities.occurrences e.
Proof.
  unfold Entities.all_entities. intros H.
  apply walk_In in H as [tool [files [f [_ [_ [_ H]]]]]].
  unfold Entities.extract_entities_from_file in H.
  destruct (f_read f) as [content|err]; [|destruct H].
  apply in_flat_map in H as [tp [_ H]].
  apply records_of_type_In in H as [v [Hv ->]]. cbn [Entities.occurrences].
  apply in_map_iff in Hv as [[n c] [E Hin]]. cbn [fst] in E. subst n.
  assert (Hc : In c (values_of v (Entities.raw_matches (fst tp) (snd tp) content))).
  { unfold values_of. apply in_map_iff. exists (v, c). split; trivial.
    apply filter_In. split; trivial. apply str_eqb_refl. }
  destruct (values_of v _); [destruct Hc | simpl; lia].
Qed.

(** X14. In a run of [main] every entry of [by_type] has at least one
    unique value and no more unique values than occurrences. *)
Theorem unique_values_at_most_occurrences (fs : tree) (k : str)
    (tc : Entities.type_count) :
  In (k, tc) (Entities.by_type (snd (Entities.main fs))) ->
  1 <= Entities.tc_unique_values tc /\
  Entities.tc_unique_values tc <= Entities.tc_total_occurrences tc.
Proof.
  unfold Entities.main. cbn [snd]. intros H.
  apply by_type_entry in H as [[e [He Hk]] ->].
  cbn [Entities.tc_unique_values Entities.tc_total_occurrences]. split.
  - apply to_set_nonempty. unfold type_values. intros E.
    assert (Hin : In (Entities.value e)
                     (map Entities.value
                        (filter (fun e => str_eqb (Entities.entity_type e) k)
                                (Entities.all_entities fs)))).
    { apply in_map, filter_In. split; trivial. apply str_eqb_eq. exact Hk. }
    rewrite E in Hin. destruct Hin.
  - eapply Nat.le_trans; [apply length_to_set|].
    unfold type_values. rewrite length_map.
    apply sum_by_at_least. intros x. apply entity_occurs.
Qed.

Lemma unique_values_at_most_occurrences_witness :
  In (txt "role", Entities.TypeCount 9 2)
     (Entities.by_type
        (snd (Entities.main
                (three_tools_tree "The CISO met the CTO and the ciso.")))) /\
  1 <= 2 /\ 2 <= 9.
Proof.
  assert (H : In (txt "role", Entities.TypeCount 9 2)
     (Entities.by_type
        (snd (Entities.main
                (three_tools_tree "The CISO met the CTO and the ciso.")))))
    by (vm_compute; left; reflexivity).
  split; [exact H|].
  exact (@unique_values_at_most_occurrences _ _ _ H).
Defined.

(** ** The statistics of extract-metadata.py *)

Lemma length_split_lines_from (cur s : str) (i : nat) :
  length (split_lines_from cur s) = S (length (newline_positions i s)).
Proof.
  revert cur i. induction s as [|a s IH]; intros cur i; [reflexivity|].
  cbn [split_lines_from newline_positions].
  destruct (ascii_eqb a newline).
  - cbn [length app]. now rewrite (IH [] (S i)).
  - cbn [app]. apply IH.
Qed.

Lemma length_newline_positions (s : str) (i : nat) :
  length (newline_positions i s) = count_occ ascii_dec s newline.
Proof.
  revert i. induction s as [|a s IH]; intros i; [reflexivity|].
  cbn [newline_positions count_occ]. unfold ascii_eqb.
  destruct (ascii_dec a newline) as [->|Hn].
  - rewrite Ascii.eqb_refl. cbn [app length]. now rewrite IH.
  - destruct (Ascii.eqb a newline) eqn:E.
    + apply Ascii.eqb_eq in E. contradiction.
    + cbn [app]. apply IH.
Qed.

Lemma newline_positions_In (p : str) (a : ascii) (t : str) (i : nat) :
  ascii_eqb a newline = true ->
  In (i + length p) (newline_positions i (p ++ a :: t)).
Proof.
  intros Ha. revert i. induction p as [|b p IH]; intros i.
  - cbn [app newline_positions length]. rewrite Ha, Nat.add_0_r. now left.
  - cbn [app newline_positions length]. apply in_or_app. right.
    replace (i + S (length p)) with (S i + length p) by lia. apply IH.
Qed.

Lemma starts_NoDup (l : list rmatch) :
  StronglySorted match_before l -> NoDup (map m_start l).
Proof.
  induction 1 as [|m l _ IH Hall]; cbn [map]; constructor; trivial.
  intros Hin. apply in_map_iff in Hin as [m' [E Hm']].
  rewrite Forall_forall in Hall. destruct (Hall m' Hm') as [Hlt _]. lia.
Qed.

(** A match of [^r] under [re.MULTILINE] starts where a line starts. *)
Lemma bol_match (r : regex) (p : ascii -> bool) (content : str) (m : rmatch) :
  starts_with false true r p ->
  In m (finditer false true (Seq Bol r) content) ->
  In (m_start m) (line_starts content) /\
  exists a, nth_error content (m_start m) = Some a /\ p a = true.
Proof.
  intros Hr H. apply finditer_In in H as [pre [s' [e [l [-> [Hrun ->]]]]]].
  assert (He : In e (run false true (Seq Bol r)
                         (MState (length pre) (prev_of pre None) s' []))).
  { rewrite Hrun. now left. }
  cbn [run] in He. apply in_flat_map in He as [x [Hx He]].
  destruct (at_bol true (MState (length pre) (prev_of pre None) s' []))
    eqn:Hb; [|destruct Hx].
  destruct Hx as [<-|[]]. apply Hr in He as [a [t [E Ha]]].
  cbn [rest] in E. subst s'. cbn [mk_match m_start]. split.
  - unfold at_bol in Hb. cbn [prev] in Hb.
    destruct pre as [|b q _] using rev_ind; [now left|].
    rewrite prev_of_last in Hb. cbn [andb] in Hb.
    right. rewrite <- app_assoc. cbn [app]. rewrite length_app.
    cbn [length]. replace (length q + 1) with (S (0 + length q)) by lia.
    apply in_map. now apply newline_positions_In.
  - exists a. split; trivial.
    rewrite nth_error_app2 by lia. now rewrite Nat.sub_diag.
Qed.

Lemma class_test_exact (p : ascii -> bool) (a : ascii) :
  class_test false p a = p a.
Proof. unfold class_test. cbn [andb]. apply orb_false_r. Qed.

Lemma heading_starts : starts_with false true
                         (seqs [plus (chr "#"); space]) (ascii_eqb "#").
Proof.
  intros s e H. cbn [seqs fold_right] in H.
  apply (run_Seq_In false true) in H as [x [Hx _]].
  unfold plus in Hx.
  change (run false true (Rep 1 None (chr "#")) s)
    with (rep_loop (run false true (Chr (ascii_eqb "#"))) 1 None
            (S (length (rest s))) 0 s) in Hx.
  apply rep_chr_In in Hx as [pre [E [_ [_ [Hall [Hlo _]]]]]].
  destruct pre as [|a pre]; [simpl in Hlo; lia|].
  exists a, (pre ++ rest x). split; [exact E|].
  apply Forall_inv in Hall. now rewrite class_test_exact in Hall.
Qed.

Lemma chr_starts (p : ascii -> bool) (r : regex) :
  starts_with false true (Seq (Chr p) r) p.
Proof.
  intros s e H. apply (run_Seq_In false true) in H as [x [Hx _]].
  apply (run_Chr_In false true) in Hx as [a [t [E [Hc _]]]].
  exists a, t. split; trivial. now rewrite class_test_exact in Hc.
Qed.

Lemma count_as_starts (r : regex) (content : str) :
  Metadata.count_matches (Seq Bol r) content =
  length (map m_start (finditer false true (Seq Bol r) content)).
Proof. unfold Metadata.count_matches. now rewrite length_map. Qed.

(** X15. [line_count] is one more than the number of line breaks of the
    text, and the heading, table row and list item counts together do not
    exceed it: each of them counts lines, and no line is counted twice. *)
Theorem line_kinds_bounded (f : file) (tool content : str) :
  let st := Metadata.stats (Metadata.metadata_of_text f tool content) in
  Metadata.line_count st = S (count_occ ascii_dec content newline) /\
  Metadata.heading_count st + Metadata.table_row_count st
    + Metadata.list_item_count st <= Metadata.line_count st.
Proof.
  cbv zeta. unfold Metadata.metadata_of_text.
  cbn [Metadata.stats Metadata.line_count Metadata.heading_count
       Metadata.table_row_count Metadata.list_item_count].
  split.
  { unfold split_lines. rewrite (length_split_lines_from [] content 0).
    now rewrite length_newline_positions. }
  change (seqs [Bol; plus (chr "#"); space])
    with (Seq Bol (seqs [plus (chr "#"); space])).
  change (seqs [Bol; chr "|"]) with (Seq Bol (Seq (Chr (ascii_eqb "|")) Eps)).
  change (seqs [Bol; Chr (one_of "-*"); space])
    with (Seq Bol (Seq (Chr (one_of "-*")) (seqs [space]))).
  rewrite !count_as_starts, <- !length_app.
  unfold split_lines. rewrite (length_split_lines_from [] content 0).
  replace (S (length (newline_positions 0 content)))
    with (length (line_starts content))
    by (unfold line_starts; cbn [length]; now rewrite length_map).
  set (h := finditer false true (Seq Bol (seqs [plus (chr "#"); space])) content).
  set (t := finditer false true (Seq Bol (Seq (Chr (ascii_eqb "|")) Eps)) content).
  set (i := finditer false true
              (Seq Bol (Seq (Chr (one_of "-*")) (seqs [space]))) content).
  assert (Hh : forall n, In n (map m_start h) ->
             In n (line_starts content) /\
             exists a, nth_error content n = Some a /\ ascii_eqb "#" a = true).
  { intros n Hn. apply in_map_iff in Hn as [m [<- Hm]].
    apply (@bol_match _ _ content m heading_starts Hm). }
  assert (Ht : forall n, In n (map m_start t) ->
             In n (line_starts content) /\
             exists a, nth_error content n = Some a /\ ascii_eqb "|" a = true).
  { intros n Hn. apply in_map_iff in Hn as [m [<- Hm]].
    apply (@bol_match _ _ content m (chr_starts (ascii_eqb "|") Eps) Hm). }
  assert (Hi : forall n, In n (map m_start i) ->
             In n (line_starts content) /\
             exists a, nth_error content n = Some a /\ one_of "-*" a = true).
  { intros n Hn. apply in_map_iff in Hn as [m [<- Hm]].
    apply (@bol_match _ _ content m (chr_starts (one_of "-*") (seqs [space])) Hm). }
  apply NoDup_incl_length.
  - apply NoDup_app; [apply NoDup_app| |].
    + apply starts_NoDup, finditer_ordered.
    + apply starts_NoDup, finditer_ordered.
    + intros n H1 H2. destruct (Hh n H1) as [_ [a [E1 A1]]].
      destruct (Ht n H2) as [_ [b [E2 A2]]].
      rewrite E1 in E2. injection E2 as <-.
      apply Ascii.eqb_eq in A1. subst a. discriminate A2.
    + apply starts_NoDup, finditer_ordered.
    + intros n H1 H2. destruct (Hi n H2) as [_ [b [E2 A2]]].
      apply in_app_or in H1 as [H1|H1].
      * destruct (Hh n H1) as [_ [a [E1 A1]]].
        rewrite E1 in E2. injection E2 as <-.
        apply Ascii.eqb_eq in A1. subst a. discriminate A2.
      * destruct (Ht n H1) as [_ [a [E1 A1]]].
        rewrite E1 in E2. injection E2 as <-.
        apply Ascii.eqb_eq in A1. subst a. discriminate A2.
  - intros n Hn. apply in_app_or in Hn as [Hn|Hn]; [|now apply Hi].
    apply in_app_or in Hn as [Hn|Hn]; [now apply Hh | now apply Ht].
Qed.

(** ** The document type of extract-metadata.py *)

Lemma prefixb_spec (p s : str) :
  prefixb p s = true <-> exists post, s = p ++ post.
Proof.
  revert s. induction p as [|a p IH]; intros s; cbn [prefixb].
  - split; [intros _; now exists s | trivial].
  - destruct s as [|b s].
    + split; [discriminate | intros [post E]; discriminate].
    + rewrite andb_true_iff, IH. unfold ascii_eqb. rewrite Ascii.eqb_eq.
      split.
      * intros [-> [post ->]]. now exists post.
      * intros [post E]. injection E as -> ->. split; trivial. now exists post.
Qed.

Lemma contains_spec (kw s : str) :
  contains kw s = true <-> exists pre post, s = pre ++ kw ++ post.
Proof.
  induction s as [|b s IH]; cbn [contains].
  - rewrite orb_false_r, prefixb_spec. split.
    + intros [post E]. now exists [], post.
    + intros [pre [post E]]. destruct pre; [now exists post|discriminate].
  - rewrite orb_true_iff, prefixb_spec, IH. split.
    + intros [[post E]|[pre [post E]]].
      * now exists [], post.
      * exists (b :: pre), post. now rewrite E.
    + intros [pre [post E]]. destruct pre as [|c pre].
      * left. now exists post.
      * right. injection E as _ E. now exists pre, post.
Qed.

Lemma existsb_mentions (kws : list str) (content : str) :
  existsb (fun kw => contains kw (lower content)) kws = true <->
  mentions kws content.
Proof.
  rewrite existsb_exists. unfold mentions. split.
  - intros [kw [Hin H]]. apply contains_spec in H as [pre [post E]].
    now exists kw, pre, post.
  - intros [kw [pre [post [Hin E]]]]. exists kw. split; trivial.
    apply contains_spec. now exists pre, post.
Qed.

Lemma type_of_first (content : str) (before : list (str * list str))
    (t : str) (kws : list str) (after : list (str * list str)) :
  mentions kws content ->
  (forall t' kws', In (t', kws') before -> ~ mentions kws' content) ->
  Metadata.type_of (before ++ (t, kws) :: after) (lower content) = t.
Proof.
  intros Hm. induction before as [|[t' kws'] before IH]; intros Hb.
  - cbn [app Metadata.type_of].
    apply existsb_mentions in Hm. now rewrite Hm.
  - cbn [app Metadata.type_of].
    destruct (existsb _ kws') eqn:E.
    + apply existsb_mentions in E. exfalso. apply (Hb t' kws'); [now left|exact E].
    + apply IH. intros t2 k2 H2. apply (Hb t2 k2). now right.
Qed.

Lemma type_of_unknown (content : str) (table : list (str * list str)) :
  ~ In (txt "unknown") (keys table) ->
  (Metadata.type_of table (lower content) = txt "unknown" <->
   forall t kws, In (t, kws) table -> ~ mentions kws content).
Proof.
  induction table as [|[t kws] table IH]; intros Hk.
  - cbn [Metadata.type_of]. split; [intros _ t kws [] | trivial].
  - cbn [Metadata.type_of].
    assert (Hk' : ~ In (txt "unknown") (keys table)).
    { intros H. apply Hk. now right. }
    destruct (existsb _ kws) eqn:E.
    + apply existsb_mentions in E. split.
      * intros ->. exfalso. apply Hk. now left.
      * intros H. exfalso. apply (H t kws); [now left | exact E].
    + rewrite (IH Hk'). split.
      * intros H t2 k2 [Eq|H2]; [|now apply (H t2 k2)].
        injection Eq as <- <-. intros Hm. apply existsb_mentions in Hm.
        congruence.
      * intros H t2 k2 H2. apply (H t2 k2). now right.
Qed.

(** X16. The document type is that of the first entry of
    [DOCUMENT_TYPE_KEYWORDS], in the order of the table, one of whose
    keywords occurs in the lower-cased text, anywhere and also inside a
    longer word; it is [unknown] exactly when no keyword of the table
    occurs. *)
Theorem document_type_by_keywords (f : file) (tool content : str) :
  let dt := Metadata.document_type (Metadata.metadata_of_text f tool content) in
  (dt = txt "unknown" <->
   forall t kws, In (t, kws) Metadata.DOCUMENT_TYPE_KEYWORDS ->
                 ~ mentions kws content) /\
  (forall before t kws after,
     Metadata.DOCUMENT_TYPE_KEYWORDS = before ++ (t, kws) :: after ->
     mentions kws content ->
     (forall t' kws', In (t', kws') before -> ~ mentions kws' content) ->
     dt = t).
Proof.
  cbv zeta. unfold Metadata.metadata_of_text. cbn [Metadata.document_type].
  split.
  - apply type_of_unknown. unfold keys. cbn [map Metadata.DOCUMENT_TYPE_KEYWORDS fst].
    intros H. repeat (destruct H as [H|H]; [discriminate H|]). destruct H.
  - intros before t kws after E Hm Hb. rewrite E. now apply type_of_first.
Qed.

(** ** The summary of extract-metadata.py *)

Lemma count_entry (X : Type) (key : X -> str) (xs : list X) (k : str) (n : nat) :
  In (k, n) (fold_left (tally_step key (@one X)) xs []) <->
  1 <= n /\ n = length (filter (fun x => str_eqb (key x) k) xs).
Proof.
  rewrite tally_entry, sum_by_one. split.
  - intros [[x [Hx Hk]] ->]. split; trivial.
    assert (Hin : In x (filter (fun x => str_eqb (key x) k) xs)).
    { apply filter_In. split; trivial. now apply str_eqb_eq. }
    destruct (filter _ xs); [destruct Hin | simpl; lia].
  - intros [H ->]. split; trivial.
    destruct (filter (fun x => str_eqb (key x) k) xs) as [|x l] eqn:E;
      [simpl in H; lia|].
    assert (Hin : In x (filter (fun x => str_eqb (key x) k) xs))
      by (rewrite E; now left).
    apply filter_In in Hin as [Hx Hk]. apply str_eqb_eq in Hk. now exists x.
Qed.

Lemma fold_add_sum (X : Type) (w : X -> nat) (xs : list X) (n : nat) :
  fold_left (fun n x => n + w x) xs n = n + list_sum (map w xs).
Proof.
  revert n. induction xs as [|x xs IH]; intros n; cbn [fold_left map list_sum].
  - simpl. lia.
  - rewrite IH. simpl. lia.
Qed.

Lemma union_In (X : Type) (g : X -> list str) (xs : list X) (s : list str)
    (y : str) :
  In y (fold_left (fun s x => fold_left (fun s x => set_add x s) (g x) s) xs s)
  <-> (exists x, In x xs /\ In y (g x)) \/ In y s.
Proof.
  revert s. induction xs as [|x xs IH]; intros s; cbn [fold_left].
  - split; [now right | intros [[x [[] _]]|H]; exact H].
  - rewrite IH, fold_set_add_In. split.
    + intros [[x' [H1 H2]]|[H|H]].
      * left. exists x'. split; [now right | exact H2].
      * left. exists x. split; [now left | exact H].
      * now right.
    + intros [[x' [[<-|H1] H2]]|H].
      * right. now left.
      * left. now exists x'.
      * right. now right.
Qed.

Lemma union_NoDup (X : Type) (g : X -> list str) (xs : list X) (s : list str) :
  NoDup s ->
  NoDup (fold_left (fun s x => fold_left (fun s x => set_add x s) (g x) s) xs s).
Proof.
  revert s. induction xs as [|x xs IH]; intros s H; cbn [fold_left]; trivial.
  apply IH. now apply fold_set_add_NoDup.
Qed.

(** X17. The counts of the metadata summary add up: [total_documents] is
    the number of entries, [by_type] sums to that number and counts the
    entries of each document type, [total_word_count] is the sum of the
    word counts, and [all_control_families] is the sorted union, without
    repetition, of the families of the entries.  An entry for a file that
    could not be read counts as a document of type [unknown] with no words
    and no families. *)
Theorem metadata_summary_counts (ms : list Metadata.meta_dict) :
  let s := Metadata.summarize ms in
  Metadata.total_documents s = length ms /\
  total (Metadata.by_type s) = length ms /\
  (forall k n, In (k, n) (Metadata.by_type s) <->
     1 <= n /\
     n = length (filter (fun m => str_eqb (Metadata.get_document_type m) k) ms)) /\
  Metadata.total_word_count s = list_sum (map Metadata.get_word_count ms) /\
  StronglySorted str_le (Metadata.all_control_families s) /\
  NoDup (Metadata.all_control_families s) /\
  (forall x, In x (Metadata.all_control_families s) <->
     exists m, In m ms /\ In x (Metadata.get_control_families m)).
Proof.
  cbv zeta. unfold Metadata.summarize.
  cbn [Metadata.total_documents Metadata.by_type Metadata.total_word_count
       Metadata.all_control_families].
  change (fun d meta => dict_add (Metadata.get_document_type meta) 1 d)
    with (tally_step Metadata.get_document_type (@one Metadata.meta_dict)).
  split; [reflexivity|].
  split; [now rewrite tally_total, list_sum_one|].
  split; [intros k n; apply count_entry|].
  split; [apply (fold_add_sum Metadata.get_word_count ms 0)|].
  split; [apply sorted_strs_sorted|].
  split; [apply sorted_strs_NoDup, union_NoDup; constructor|].
  intros x. rewrite sorted_strs_In, union_In. split.
  - intros [H|[]]. exact H.
  - intros H. now left.
Qed.

(** ** The control families of a document *)

Lemma family_match_text (s e : mstate) :
  In e (run false false Metadata.CONTROL_PATTERN s) ->
  at_boundary s = true /\
  exists a b ds,
    rest s = a :: b :: "-"%char :: ds ++ rest e /\
    is_upper a = true /\ is_upper b = true /\
    ds <> [] /\ all_chars is_digit ds /\
    pos e = pos s + 3 + length ds /\
    caps e = (1, (pos s, pos s + 2)) :: caps s.
Proof.
  intros H. unfold Metadata.CONTROL_PATTERN, seqs in H. cbn [fold_right] in H.
  apply run_Seq_In in H as [s1 [H1 H]]. cbn [run] in H1.
  destruct (at_boundary s) eqn:Hb; [|destruct H1]. destruct H1 as [<-|[]].
  split; [reflexivity|].
  apply run_Seq_In in H as [s2 [H2 H]].
  apply grp_rep_stage in H2 as [fam [R2 [P2 [C2 [D2 [L2 U2]]]]]].
  specialize (U2 2 eq_refl).
  apply run_Seq_In in H as [s3 [H3 H]]. unfold chr in H3.
  apply run_Chr_In in H3 as [c [t3 [R3 [C3 ->]]]].
  apply exact_symbol in C3. subst c.
  apply run_Seq_In in H as [s4 [H4 H]]. apply run_Eps_In in H. subst s4.
  unfold plus, digit in H4.
  change (run false false (Rep 1 None (Chr is_digit)) ?x)
    with (rep_loop (run false false (Chr is_digit)) 1 None
            (S (length (rest x))) 0 x) in H4.
  apply rep_chr_In in H4 as [ds [R4 [P4 [C4 [D4 [L4 _]]]]]].
  cbn [advance rest pos caps] in *.
  destruct fam as [|a [|b [|c fam]]]; simpl in L2, U2; try lia.
  pose proof (Forall_inv D2) as Ha.
  pose proof (Forall_inv (Forall_inv_tail D2)) as Hb'.
  cbv beta in Ha, Hb'. rewrite exact_class in Ha, Hb'.
  exists a, b, ds. repeat split; trivial.
  - rewrite R2. simpl. rewrite R3, R4. reflexivity.
  - intros ->. simpl in L4. lia.
  - unfold all_chars. eapply Forall_impl; [|exact D4].
    intros x Hx. cbv beta in Hx. now rewrite exact_class in Hx.
  - rewrite P4, P2. simpl. lia.
  - rewrite C4, C2. reflexivity.
Qed.

Lemma digit_span (s : str) :
  exists ds t,
    s = ds ++ t /\ all_chars is_digit ds /\
    match t with a :: _ => is_digit a = false | [] => True end.
Proof.
  induction s as [|a s [ds [t [E [Hd Ht]]]]].
  - exists [], []. repeat split. constructor.
  - destruct (is_digit a) eqn:Ha.
    + exists (a :: ds), t. rewrite E. repeat split; trivial. now constructor.
    + exists [], (a :: s). repeat split; trivial. constructor.
Qed.

Lemma family_matches_at (s : mstate) (a b d : ascii) (t : str) :
  at_boundary s = true ->
  rest s = a :: b :: "-"%char :: d :: t ->
  is_upper a = true -> is_upper b = true -> is_digit d = true ->
  exists e l,
    run false false Metadata.CONTROL_PATTERN s = e :: l /\ pos s < pos e.
Proof.
  intros Hb R Ha Hb' Hd.
  pose proof (@first_WordB false false s Hb) as F0.
  destruct (@first_grp_rep false false 1 is_upper 2 (Some 2) [a; b]
              ("-"%char :: d :: t) s) as [s2 [F2 [R2 [P2 C2]]]].
  { repeat constructor; now rewrite exact_class. }
  { now left. }
  { exact R. }
  { simpl. lia. }
  { intros h Hh. injection Hh as <-. simpl. lia. }
  assert (F3 : first_result false false (chr "-") s2
                 (advance "-" (d :: t) s2)).
  { apply first_Chr; [exact R2|]. now rewrite exact_class. }
  destruct (digit_span t) as [ds [t' [Et [Hds Ht']]]].
  destruct (@first_rep_chr false false is_digit 1 None (d :: ds) t'
              (S (length (d :: t))) 0 (advance "-" (d :: t) s2))
    as [e [l [F4 [R4 [P4 C4]]]]].
  { constructor; [now rewrite exact_class|].
    unfold all_chars in *. eapply Forall_impl; [|exact Hds].
    intros x Hx. cbv beta in Hx |- *. now rewrite exact_class. }
  { right. destruct t' as [|c t']; trivial. now rewrite exact_class. }
  { cbn [advance rest app]. now rewrite Et. }
  { rewrite Et. cbn [length]. rewrite length_app. lia. }
  { simpl. lia. }
  { discriminate. }
  assert (F : first_result false false Metadata.CONTROL_PATTERN s e).
  { unfold Metadata.CONTROL_PATTERN, seqs. cbn [fold_right].
    eapply first_Seq; [exact F0|].
    eapply first_Seq; [exact F2|].
    eapply first_Seq; [exact F3|].
    eapply first_Seq; [|apply first_Eps].
    exists l. exact F4. }
  destruct F as [l' F]. exists e, l'. split; [exact F|].
  rewrite P4. cbn [advance pos]. rewrite P2. simpl. lia.
Qed.

Lemma nth_error_app_at (pre u : str) (k : nat) :
  nth_error (pre ++ u) (length pre + k) = nth_error u k.
Proof.
  rewrite nth_error_app2 by lia. f_equal. lia.
Qed.

Lemma upper_not_digit (a : ascii) :
  is_upper a = true -> is_digit a = true -> False.
Proof. destruct a as [[] [] [] [] [] [] [] []]; vm_compute; congruence. Qed.

Lemma family_of_match (content : str) (m : rmatch) :
  In m (Metadata.family_matches content) ->
  exists pre a b ds post,
    content = pre ++ a :: b :: "-"%char :: ds ++ post /\
    is_upper a = true /\ is_upper b = true /\
    ds <> [] /\ all_chars is_digit ds /\
    word_opt (prev_of pre None) = false /\
    m_start m = length pre /\ m_end m = length pre + 3 + length ds /\
    upper (Metadata.group1 content m) = [a; b].
Proof.
  intros H. unfold Metadata.family_matches in H.
  apply finditer_In in H as [pre [s' [e [l [E [Hrun ->]]]]]].
  assert (He : In e (run false false Metadata.CONTROL_PATTERN
                         (MState (length pre) (prev_of pre None) s' [])))
    by (rewrite Hrun; now left).
  apply family_match_text in He
    as [Hb [a [b [ds [R [Ha [Hb' [Hne [Hds [P C]]]]]]]]]].
  cbn [rest pos caps] in R, P, C. subst s'.
  exists pre, a, b, ds, (rest e). repeat split; trivial.
  - unfold at_boundary in Hb. cbn [prev rest hd_error word_opt] in Hb.
    rewrite (upper_is_word _ Ha) in Hb.
    destruct (word_opt (prev_of pre None)); [discriminate | reflexivity].
  - unfold Metadata.group1, group. cbn [mk_match m_caps]. rewrite C.
    cbn [lookup_cap Nat.eqb or_empty]. subst content.
    rewrite (@slice_at pre [a; b] ("-"%char :: ds ++ rest e)); trivial.
    apply upper_id. repeat constructor; trivial.
Qed.

(** X18. The control families of a document are sorted and distinct.  In
    an ASCII document they are exactly the pairs of upper-case letters
    that stand in the text before a hyphen and a digit and do not follow a
    word character. *)
Theorem families_exact (f : file) (tool content : str) :
  let fams := Metadata.control_families
                (Metadata.metadata_of_text f tool content) in
  StronglySorted str_le fams /\ NoDup fams /\
  (ascii_text content -> forall x, In x fams <-> family_occurs content x).
Proof.
  cbv zeta. unfold Metadata.metadata_of_text.
  cbn [Metadata.control_families]. unfold Metadata.extract_families.
  split; [apply sorted_strs_sorted|].
  split; [apply sorted_strs_NoDup, to_set_NoDup|].
  intros _ x. rewrite sorted_strs_In, to_set_In, in_map_iff. split.
  - intros [m [<- Hm]].
    apply family_of_match in Hm
      as [pre [a [b [ds [post [E [Ha [Hb [Hne [Hds [Hw [_ [_ G]]]]]]]]]]]]].
    destruct ds as [|d ds]; [congruence|].
    exists pre, a, b, d, (ds ++ post). repeat split; trivial.
    now apply Forall_inv in Hds.
  - intros [pre [a [b [d [post [-> [E [Ha [Hb [Hd Hw]]]]]]]]]].
    destruct (@family_matches_at
                (MState (length pre) (prev_of pre None)
                        (a :: b :: "-"%char :: d :: post) []) a b d post)
      as [e [l [Hrun Hpos]]]; trivial.
    { unfold at_boundary. cbn [prev rest hd_error word_opt].
      now rewrite Hw, (upper_is_word _ Ha). }
    cbn [pos] in Hpos.
    destruct (@scan_covers false false Metadata.CONTROL_PATTERN pre
                (a :: b :: "-"%char :: d :: post) 0 None 0 e l)
      as [m [Hm [Hlo Hhi]]]; trivial; [lia|].
    rewrite <- E in Hm. fold (finditer false false Metadata.CONTROL_PATTERN content) in Hm.
    exists m. split; [|exact Hm].
    apply family_of_match in Hm
      as [pre' [a' [b' [ds [post' [E' [Ha' [Hb' [_ [Hds [_ [Hs [He G]]]]]]]]]]]]].
    rewrite G. cbn [Nat.add] in Hlo, Hhi. rewrite Hs in Hlo. rewrite He in Hhi.
    assert (N0 : nth_error content (length pre) = Some a).
    { rewrite E. now rewrite <- (Nat.add_0_r (length pre)), nth_error_app_at. }
    assert (N1 : nth_error content (length pre + 1) = Some b).
    { rewrite E. now rewrite nth_error_app_at. }
    assert (M : forall k, nth_error content (length pre' + k) =
                          nth_error (a' :: b' :: "-"%char :: ds ++ post') k).
    { intros k. rewrite E'. apply nth_error_app_at. }
    destruct (Nat.eq_dec (length pre) (length pre')) as [K0|K0].
    { rewrite K0 in N0, N1. rewrite <- (Nat.add_0_r (length pre')) in N0.
      rewrite M in N0, N1. simpl in N0, N1. congruence. }
    exfalso.
    destruct (Nat.eq_dec (length pre) (length pre' + 1)) as [K1|K1].
    { rewrite K1 in N1. replace (length pre' + 1 + 1) with (length pre' + 2) in N1 by lia.
      rewrite M in N1. simpl in N1. injection N1 as <-. discriminate Hb. }
    destruct (Nat.eq_dec (length pre) (length pre' + 2)) as [K2|K2].
    { rewrite K2, M in N0. simpl in N0. injection N0 as <-. discriminate Ha. }
    assert (K : exists j, length pre = length pre' + (3 + j) /\ j < length ds).
    { exists (length pre - length pre' - 3). lia. }
    destruct K as [j [K Hj]]. rewrite K, M in N0.
    cbn [Nat.add nth_error] in N0. rewrite nth_error_app1 in N0 by exact Hj.
    apply nth_error_In in N0. unfold all_chars in Hds.
    rewrite Forall_forall in Hds. apply (upper_not_digit a Ha). now apply Hds.
Qed.

Lemma families_exact_witness :
  ascii_text (txt "see AC-2, xSC-7 and IA-5") /\
  forall x,
    In x (Metadata.control_families
            (Metadata.metadata_of_text sample_file (txt "pandoc")
               (txt "see AC-2, xSC-7 and IA-5"))) <->
    family_occurs (txt "see AC-2, xSC-7 and IA-5") x.
Proof.
  assert (Ha : ascii_text (txt "see AC-2, xSC-7 and IA-5")) by reflexivity.
  split; [exact Ha|].
  exact (proj2 (proj2 (families_exact sample_file (txt "pandoc")
                         (txt "see AC-2, xSC-7 and IA-5"))) Ha).
Defined.

(** ** The dates of a document below the limit *)

Lemma dates_of_pattern_In (dates found : list str) (d : str) :
  In d (Metadata.dates_of_pattern dates found) -> In d dates \/ In d found.
Proof.
  revert found. induction dates as [|x dates IH]; intros found;
    cbn [Metadata.dates_of_pattern]; [now right|].
  destruct (str_in x found).
  - intros H. apply IH in H as [H|H]; [left; now right | now right].
  - destruct (5 <=? length (found ++ [x])).
    + intros H. apply in_app_or in H as [H|[<-|[]]]; [now right | left; now left].
    + intros H. apply IH in H as [H|H]; [left; now right|].
      apply in_app_or in H as [H|[<-|[]]]; [now right | left; now left].
Qed.

Lemma dates_fold_In (P : Type) (g : P -> list str) (ps : list P)
    (found : list str) (d : str) :
  In d (fold_left (fun found p => Metadata.dates_of_pattern (g p) found)
                  ps found) ->
  In d (flat_map g ps) \/ In d found.
Proof.
  revert found. induction ps as [|p ps IH]; intros found; cbn [fold_left flat_map];
    [now right|].
  intros H. apply IH in H as [H|H].
  - left. apply in_or_app. now right.
  - apply dates_of_pattern_In in H as [H|H]; [|now right].
    left. apply in_or_app. now left.
Qed.

Lemma set_add_grows (x : str) (s : list str) : length s <= length (set_add x s).
Proof.
  unfold set_add. destruct (str_in x s); [lia|]. rewrite length_app. lia.
Qed.

Lemma fold_set_add_grows (l s : list str) :
  length s <= length (fold_left (fun s x => set_add x s) l s).
Proof.
  revert s. induction l as [|x l IH]; intros s; cbn [fold_left]; [lia|].
  eapply Nat.le_trans; [apply set_add_grows | apply IH].
Qed.

(** Below five dates the inner loop is never left early. *)
Lemma dates_of_pattern_all (dates found : list str) :
  length (fold_left (fun s x => set_add x s) dates found) < 5 ->
  Metadata.dates_of_pattern dates found =
  fold_left (fun s x => set_add x s) dates found.
Proof.
  revert found. induction dates as [|x dates IH]; intros found H;
    cbn [Metadata.dates_of_pattern fold_left] in *; [reflexivity|].
  assert (Hs : set_add x found = if str_in x found then found else found ++ [x])
    by reflexivity.
  rewrite Hs in H |- *. destruct (str_in x found).
  - now apply IH.
  - pose proof (fold_set_add_grows dates (found ++ [x])) as G.
    destruct (5 <=? length (found ++ [x])) eqn:E.
    + apply Nat.leb_le in E. lia.
    + now apply IH.
Qed.

Lemma dates_fold_all (P : Type) (g : P -> list str) (ps : list P)
    (found : list str) :
  length (fold_left (fun s x => set_add x s) (flat_map g ps) found) < 5 ->
  fold_left (fun found p => Metadata.dates_of_pattern (g p) found) ps found =
  fold_left (fun s x => set_add x s) (flat_map g ps) found.
Proof.
  revert found. induction ps as [|p ps IH]; intros found H;
    cbn [fold_left flat_map] in *; [reflexivity|].
  rewrite fold_left_app in H |- *.
  pose proof (fold_set_add_grows (flat_map g ps)
                (fold_left (fun s x => set_add x s) (g p) found)) as G.
  rewrite dates_of_pattern_all by lia. now apply IH.
Qed.

(** X19. [dates_found] has no repetition, at most eight entries, and only
    strings captured by a date pattern in the text. *)
Theorem dates_found_are_matches (f : file) (tool content : str) :
  let ds := Metadata.dates_found (Metadata.metadata_of_text f tool content) in
  NoDup ds /\ length ds <= 8 /\
  forall d, In d ds -> In d (all_date_strings content).
Proof.
  cbv zeta. unfold Metadata.metadata_of_text. cbn [Metadata.dates_found].
  destruct (dates_found_bound content) as [H1 H2].
  split; [exact H1|]. split; [exact H2|].
  intros d H. unfold Metadata.extract_dates in H.
  apply (dates_fold_In
           (fun pattern => map (Metadata.group1 content)
                               (finditer false false pattern content))) in H
    as [H|[]].
  exact H.
Qed.

(** X20. When the text holds fewer than five distinct date strings,
    [dates_found] is all of them, each once, in the order of the patterns
    and of the matches of each pattern. *)
Theorem dates_complete_below_limit (f : file) (tool content : str) :
  length (to_set (all_date_strings content)) < 5 ->
  Metadata.dates_found (Metadata.metadata_of_text f tool content) =
  to_set (all_date_strings content).
Proof.
  intros H. unfold Metadata.metadata_of_text. cbn [Metadata.dates_found].
  unfold Metadata.extract_dates, to_set, all_date_strings in *.
  now apply (dates_fold_all
               (fun pattern => map (Metadata.group1 content)
                                   (finditer false false pattern content))).
Qed.

Lemma dates_complete_below_limit_witness :
  length (to_set (all_date_strings (txt "Date: 2024-01-05, 3/4/2024"))) < 5 /\
  Metadata.dates_found
    (Metadata.metadata_of_text sample_file (txt "pandoc")
       (txt "Date: 2024-01-05, 3/4/2024")) =
  to_set (all_date_strings (txt "Date: 2024-01-05, 3/4/2024")).
Proof.
  assert (H : length (to_set (all_date_strings
                                (txt "Date: 2024-01-05, 3/4/2024"))) < 5)
    by (vm_compute; lia).
  split; [exact H|].
  exact (@dates_complete_below_limit sample_file (txt "pandoc")
           (txt "Date: 2024-01-05, 3/4/2024") H).
Defined.

(** ** The title of a document *)

Lemma lstrip_spaces (ws s : str) :
  all_chars is_space ws -> lstrip (ws ++ s) = lstrip s.
Proof.
  unfold all_chars. induction 1 as [|a ws Ha _ IH]; [reflexivity|].
  cbn [app lstrip]. now rewrite Ha.
Qed.

Lemma strip_spaces (ws s : str) :
  all_chars is_space ws -> strip (ws ++ s) = strip s.
Proof. intros H. unfold strip. now rewrite lstrip_spaces. Qed.

Lemma no_newline_eol (ml : bool) (s : mstate) :
  ~ In newline (rest s) -> at_eol ml s = true -> rest s = [].
Proof.
  unfold at_eol. destruct (rest s) as [|a t]; trivial. intros Hn H.
  apply andb_true_iff in H as [H _]. apply Ascii.eqb_eq in H. subst a.
  exfalso. apply Hn. now left.
Qed.

Lemma slice_tail (a b : str) (i j : nat) :
  i = length a -> j = length a + length b -> slice (a ++ b) i j = b.
Proof.
  intros Hi Hj. rewrite <- (app_nil_r b) at 1. now apply slice_at.
Qed.

(** What the heading pattern takes from a line. *)
Lemma heading_match_shape (line : str) (m : rmatch) :
  ~ In newline line ->
  re_match false true HEADING_PATTERN line = Some m ->
  exists c rest,
    line = "#"%char :: c :: rest /\ is_space c = true /\
    strip (Metadata.group1 line m) = strip (c :: rest).
Proof.
  intros Hn H. unfold re_match in H.
  destruct (run false true HEADING_PATTERN (MState 0 None line []))
    as [|e l] eqn:E; [discriminate|].
  injection H as <-.
  assert (H : In e (run false true HEADING_PATTERN (MState 0 None line [])))
    by (rewrite E; now left).
  clear E. unfold HEADING_PATTERN in H.
  cbn [hd Metadata.TITLE_PATTERNS] in H. unfold seqs in H. cbn [fold_right] in H.
  apply run_Seq_In in H as [s1 [H1 H]]. cbn [run] in H1.
  destruct (at_bol true (MState 0 None line [])); [|destruct H1].
  destruct H1 as [<-|[]].
  apply run_Seq_In in H as [s2 [H2 H]]. unfold chr in H2.
  apply run_Chr_In in H2 as [a [t [R2 [C2 ->]]]].
  apply exact_symbol in C2. subst a. cbn [rest] in R2.
  apply run_Seq_In in H as [s3 [H3 H]]. unfold plus, space in H3.
  change (run false true (Rep 1 None (Chr is_space)) ?x)
    with (rep_loop (run false true (Chr is_space)) 1 None
            (S (length (rest x))) 0 x) in H3.
  apply rep_chr_In in H3 as [ws [R3 [P3 [_ [D3 [L3 _]]]]]].
  cbn [advance rest pos] in R3, P3.
  apply run_Seq_In in H as [s4 [H4 H]].
  apply run_Grp_In in H4 as [x [H4 ->]].
  destruct (@run_consumes false true (plus Any) s3 x H4) as [pre [R4 P4]].
  apply run_Seq_In in H as [s5 [H5 H]]. apply run_Eps_In in H. subst s5.
  cbn [run] in H5.
  destruct (at_eol true (set_cap 1 (pos s3) (pos x) x)) eqn:He; [|destruct H5].
  destruct H5 as [<-|[]].
  assert (Hx : rest x = []).
  { apply (@no_newline_eol true (set_cap 1 (pos s3) (pos x) x)); trivial.
    cbn [set_cap rest]. intros Hin. apply Hn. rewrite R2, R3, R4.
    right. apply in_or_app. right. apply in_or_app. now right. }
  rewrite Hx, app_nil_r in R4.
  destruct ws as [|c ws]; [simpl in L3; lia|].
  exists c, (ws ++ pre). split; [|split].
  - rewrite R2, R3, R4. reflexivity.
  - apply Forall_inv in D3. now rewrite exact_class in D3.
  - unfold Metadata.group1, group. cbn [mk_match set_cap caps m_caps lookup_cap Nat.eqb or_empty].
    assert (Eline : line = ("#"%char :: c :: ws) ++ pre)
      by (rewrite R2, R3, R4; reflexivity).
    rewrite P4, P3, Eline.
    rewrite (@slice_tail ("#"%char :: c :: ws) pre); [|simpl; lia|simpl; lia].
    symmetry. apply (@strip_spaces (c :: ws) pre).
    unfold all_chars. eapply Forall_impl; [|exact D3].
    intros y Hy. cbv beta in Hy. now rewrite exact_class in Hy.
Qed.

Lemma title_of_line_sound (content line t : str) :
  In line (split_lines content) ->
  Metadata.title_of_line Metadata.TITLE_PATTERNS line = Some t ->
  exists c rest,
    line = "#"%char :: c :: rest /\ is_space c = true /\ t = strip (c :: rest).
Proof.
  intros Hl H. rewrite (title_only_from_heading _ _ Hl) in H.
  cbn [Metadata.title_of_line] in H. fold HEADING_PATTERN in H.
  destruct (re_match false true HEADING_PATTERN line) as [m|] eqn:E;
    [|discriminate].
  injection H as <-.
  apply heading_match_shape in E as [c [rest [E1 [E2 E3]]]].
  - now exists c, rest.
  - apply (@split_lines_from_no_newline [] content line); trivial. intros [].
Qed.

Lemma title_loop_sound (lines : list str) (title : option str) (t : str) :
  Metadata.title_loop lines title = Some t ->
  title = Some t \/
  exists line,
    In line lines /\
    Metadata.title_of_line Metadata.TITLE_PATTERNS line = Some t.
Proof.
  revert title. induction lines as [|line lines IH]; intros title;
    cbn [Metadata.title_loop]; [now left|].
  destruct (Metadata.title_of_line Metadata.TITLE_PATTERNS line) as [t'|] eqn:E.
  - destruct (truthy (Some t')).
    + intros H. injection H as ->. right. exists line. split; [now left|exact E].
    + intros H. apply IH in H as [H|[l [H1 H2]]].
      * injection H as ->. right. exists line. split; [now left|exact E].
      * right. exists l. split; [now right|exact H2].
  - destruct (truthy title).
    + now left.
    + intros H. apply IH in H as [H|[l [H1 H2]]]; [now left|].
      right. exists l. split; [now right|exact H2].
Qed.

(** X21. In an ASCII document a title is the text of a line among the
    first twenty that starts with [#] and a white-space character: it is
    what follows the [#], without the white space at both ends.  The
    underline pattern never gives a title. *)
Theorem title_from_heading_line (f : file) (tool content t : str) :
  ascii_text content ->
  Metadata.title (Metadata.metadata_of_text f tool content) = Some t ->
  trimmed t /\
  exists line c rest,
    In line (firstn 20 (split_lines content)) /\
    line = "#"%char :: c :: rest /\ is_space c = true /\
    t = strip (c :: rest).
Proof.
  intros _. unfold Metadata.metadata_of_text. cbn [Metadata.title].
  unfold Metadata.extract_title. intros H.
  apply title_loop_sound in H as [H|[line [Hl H]]]; [discriminate|].
  apply (@title_of_line_sound content) in H as [c [rest [E1 [E2 E3]]]];
    [|now apply firstn_In in Hl].
  split; [rewrite E3; apply strip_trimmed|].
  now exists line, c, rest.
Qed.

Lemma title_from_heading_line_witness :
  ascii_text (txt "#  Access Policy ") /\
  Metadata.title
    (Metadata.metadata_of_text sample_file (txt "pandoc")
       (txt "#  Access Policy ")) = Some (txt "Access Policy") /\
  exists line c rest,
    In line (firstn 20 (split_lines (txt "#  Access Policy "))) /\
    line = "#"%char :: c :: rest /\
    txt "Access Policy" = strip (c :: rest).
Proof.
  assert (Ha : ascii_text (txt "#  Access Policy ")) by reflexivity.
  assert (H : Metadata.title
                (Metadata.metadata_of_text sample_file (txt "pandoc")
                   (txt "#  Access Policy ")) = Some (txt "Access Policy"))
    by (vm_compute; reflexivity).
  split; [exact Ha|]. split; [exact H|].
  destruct (@title_from_heading_line _ _ _ _ Ha H)
    as [_ [line [c [rest [H1 [H2 [_ H3]]]]]]].
  exists line, c, rest. auto.
Defined.

(** ** The first heading with a text gives the title *)

Lemma rep_loop_ext (body1 body2 : mstate -> list mstate) (lo : nat)
    (hi : option nat) (fuel cnt : nat) (s : mstate) :
  (forall x, body1 x = body2 x) ->
  rep_loop body1 lo hi fuel cnt s = rep_loop body2 lo hi fuel cnt s.
Proof.
  intros Hb. revert cnt s. induction fuel as [|fuel IH]; intros cnt s;
    cbn [rep_loop]; [reflexivity|].
  rewrite Hb. f_equal. destruct (below hi cnt); trivial.
  apply flat_map_ext. intros x. now rewrite IH.
Qed.

Lemma run_any_chr (ml : bool) (s : mstate) :
  run false ml Any s = run false ml (Chr not_newline) s.
Proof.
  cbn [run]. destruct (rest s) as [|a t]; trivial.
  rewrite exact_class. unfold not_newline. now destruct (ascii_eqb a newline).
Qed.

Lemma run_text_group (ml : bool) (s : mstate) :
  run false ml (Grp 1 (plus Any)) s =
  run false ml (Grp 1 (Rep 1 None (Chr not_newline))) s.
Proof.
  unfold plus. cbn [run]. f_equal. apply rep_loop_ext. intros x. apply (run_any_chr ml x).
Qed.

Lemma strip_nonempty (b : ascii) (body : str) :
  is_space b = false -> truthy (Some (strip (b :: body))) = true.
Proof.
  intros Hb.
  destruct (@strip_keeps [] [b] body) as [A' [B' [E _]]].
  - discriminate.
  - split; intros a t H.
    + injection H as <- _. exact Hb.
    + destruct t as [|? [|? ?]]; try discriminate. injection H as <-. exact Hb.
  - cbn [app] in E. rewrite E. now destruct A'.
Qed.

(** A heading with a text: the pattern takes all of the white space after
    [#], and its group is the rest of the line. *)
Lemma heading_first_match (ws : str) (b : ascii) (body : str) :
  ws <> [] -> all_chars is_space ws -> is_space b = false ->
  ~ In newline (b :: body) ->
  Metadata.title_of_line Metadata.TITLE_PATTERNS
    ("#"%char :: ws ++ b :: body) = Some (strip (b :: body)).
Proof.
  intros Hne Hws Hb Hn.
  set (line := "#"%char :: ws ++ b :: body).
  set (s := MState 0 None line []).
  assert (F1 : first_result false true Bol s s) by (exists []; reflexivity).
  assert (F2 : first_result false true (chr "#") s
                 (advance "#" (ws ++ b :: body) s)).
  { apply first_Chr; [reflexivity|]. now rewrite exact_class. }
  set (s2 := advance "#" (ws ++ b :: body) s) in *.
  destruct (@first_rep_chr false true is_space 1 None ws (b :: body)
              (S (length (rest s2))) 0 s2) as [s3 [l3 [F3 [R3 [P3 C3]]]]].
  { unfold all_chars in *. eapply Forall_impl; [|exact Hws].
    intros y Hy. cbv beta. now rewrite exact_class. }
  { right. now rewrite exact_class. }
  { reflexivity. }
  { cbn [s2 advance rest]. rewrite length_app. lia. }
  { destruct ws; [congruence | simpl; lia]. }
  { discriminate. }
  destruct (@first_grp_rep false true 1 not_newline 1 None (b :: body) [] s3)
    as [s4 [F4 [R4 [P4 C4]]]].
  { unfold all_chars. apply Forall_forall. intros y Hy.
    rewrite exact_class. unfold not_newline.
    destruct (ascii_eqb y newline) eqn:E; trivial.
    apply Ascii.eqb_eq in E. subst y. contradiction. }
  { now right. }
  { now rewrite app_nil_r. }
  { simpl. lia. }
  { discriminate. }
  assert (F5 : first_result false true Eol s4 s4).
  { exists []. cbn [run]. unfold at_eol. now rewrite R4. }
  assert (F : first_result false true HEADING_PATTERN s s4).
  { unfold HEADING_PATTERN. cbn [hd Metadata.TITLE_PATTERNS].
    unfold seqs. cbn [fold_right].
    eapply first_Seq; [exact F1|].
    eapply first_Seq; [exact F2|].
    eapply first_Seq; [exists l3; exact F3|].
    eapply first_Seq.
    { destruct F4 as [l4 F4]. exists l4. rewrite run_text_group. exact F4. }
    eapply first_Seq; [exact F5|]. apply first_Eps. }
  destruct F as [l F].
  change (Metadata.title_of_line Metadata.TITLE_PATTERNS line)
    with (match re_match false true HEADING_PATTERN line with
          | Some m => Some (strip (Metadata.group1 line m))
          | None => Metadata.title_of_line (tl Metadata.TITLE_PATTERNS) line
          end).
  unfold re_match. change (MState 0 None line []) with s. rewrite F.
  f_equal. f_equal. unfold Metadata.group1, group.
  cbn [mk_match m_caps]. rewrite C4. cbn [lookup_cap Nat.eqb or_empty].
  rewrite P3. cbn [s2 advance pos s].
  apply (@slice_tail ("#"%char :: ws) (b :: body)); simpl; lia.
Qed.

Lemma title_loop_skips (content : str) (before rest : list str)
    (title : option str) :
  (forall l, In l before -> In l (split_lines content)) ->
  (forall l, In l before -> ~ heading_line l) ->
  truthy title = false ->
  Metadata.title_loop (before ++ rest) title = Metadata.title_loop rest title.
Proof.
  intros Hin Hno Ht. induction before as [|l before IH]; [reflexivity|].
  cbn [app Metadata.title_loop].
  destruct (Metadata.title_of_line Metadata.TITLE_PATTERNS l) as [t|] eqn:E.
  - exfalso. apply (Hno l); [now left|].
    apply (@title_of_line_sound content) in E as [c [r [E1 [E2 _]]]].
    + now exists c, r.
    + apply Hin. now left.
  - rewrite Ht. apply IH.
    + intros l' H. apply Hin. now right.
    + intros l' H. apply Hno. now right.
Qed.

(** X22. In an ASCII document the first line among the first twenty that
    starts with [#], white space and then a text gives the title, when no
    line before it starts with [#] and a white-space character: the title
    is the text after the white space, without the white space at its
    end. *)
Theorem first_heading_is_title (f : file) (tool content : str)
    (before after : list str) (ws : str) (b : ascii) (body : str) :
  ascii_text content ->
  firstn 20 (split_lines content) =
    before ++ ("#"%char :: ws ++ b :: body) :: after ->
  ws <> [] -> all_chars is_space ws -> is_space b = false ->
  (forall l, In l before -> ~ heading_line l) ->
  Metadata.title (Metadata.metadata_of_text f tool content) =
    Some (strip (b :: body)).
Proof.
  intros _ E Hne Hws Hb Hno.
  unfold Metadata.metadata_of_text. cbn [Metadata.title].
  unfold Metadata.extract_title. rewrite E.
  assert (Hall : forall l, In l (before ++ ("#"%char :: ws ++ b :: body) :: after) ->
                           In l (split_lines content)).
  { intros l Hl. rewrite <- E in Hl. now apply firstn_In in Hl. }
  rewrite (@title_loop_skips content); trivial.
  - cbn [Metadata.title_loop]. rewrite heading_first_match; trivial.
    + now rewrite strip_nonempty.
    + assert (Hl : In ("#"%char :: ws ++ b :: body) (split_lines content)).
      { apply Hall, in_or_app. right. now left. }
      apply (@split_lines_from_no_newline [] content) in Hl; [|intros []].
      intros Hin. apply Hl. right. apply in_or_app. now right.
  - intros l Hl. apply Hall, in_or_app. now left.
Qed.

Lemma first_heading_is_title_witness :
  ascii_text heading_after_intro /\
  firstn 20 (split_lines heading_after_intro) =
    [txt "Intro"] ++ ("#"%char :: txt " " ++ "A"%char :: txt "ccess Policy ")
                  :: [txt "## Scope"] /\
  Metadata.title
    (Metadata.metadata_of_text sample_file (txt "pandoc") heading_after_intro)
    = Some (txt "Access Policy").
Proof.
  assert (Ha : ascii_text heading_after_intro) by reflexivity.
  assert (H : firstn 20 (split_lines heading_after_intro) =
    [txt "Intro"] ++ ("#"%char :: txt " " ++ "A"%char :: txt "ccess Policy ")
                  :: [txt "## Scope"]) by reflexivity.
  split; [exact Ha|]. split; [exact H|].
  apply (@first_heading_is_title sample_file (txt "pandoc")
           heading_after_intro [txt "Intro"] [txt "## Scope"] (txt " ")
           "A"%char (txt "ccess Policy ") Ha H).
  - discriminate.
  - repeat constructor.
  - reflexivity.
  - intros l [<-|[]] [c [r [E _]]]. discriminate E.
Defined.

(** ** The version of a document *)

(** The text taken by a repetition is a sequence of texts taken by its
    body. *)
Lemma rep_loop_parts (body : mstate -> list mstate) (Q : str -> Prop)
    (lo : nat) (hi : option nat) :
  (forall s x, In x (body s) ->
     exists u, rest s = u ++ rest x /\ pos x = pos s + length u /\ Q u) ->
  forall fuel cnt s e,
    In e (rep_loop body lo hi fuel cnt s) ->
    exists us,
      rest s = concat us ++ rest e /\
      pos e = pos s + length (concat us) /\ Forall Q us.
Proof.
  intros Hbody. induction fuel as [|fuel IH]; intros cnt s e; cbn [rep_loop];
    [intros []|].
  intros H. apply in_app_or in H as [H|H].
  - destruct (below hi cnt); [|destruct H].
    apply in_flat_map in H as [s1 [H1 H]].
    destruct (pos s <? pos s1); [|destruct H].
    apply Hbody in H1 as [u [E1 [P1 Q1]]].
    apply IH in H as [us [E2 [P2 Q2]]].
    exists (u :: us). cbn [concat]. split; [|split].
    + now rewrite E1, E2, app_assoc.
    + rewrite P2, P1, length_app. lia.
    + now constructor.
  - destruct (lo <=? cnt); [|destruct H]. destruct H as [<-|[]].
    exists []. cbn [concat app length]. split; [reflexivity|].
    split; [lia | constructor].
Qed.

Lemma digits_stage (s x : mstate) :
  In x (run false false (plus digit) s) ->
  exists ds,
    rest s = ds ++ rest x /\ pos x = pos s + length ds /\ digits_nonempty ds.
Proof.
  unfold plus, digit.
  change (run false false (Rep 1 None (Chr is_digit)) s)
    with (rep_loop (run false false (Chr is_digit)) 1 None
            (S (length (rest s))) 0 s).
  intros H. apply rep_chr_In in H as [ds [R [P [_ [D [L _]]]]]].
  exists ds. split; [exact R|]. split; [exact P|]. split.
  - intros ->. simpl in L. lia.
  - unfold all_chars. eapply Forall_impl; [|exact D].
    intros y Hy. cbv beta in Hy. now rewrite exact_class in Hy.
Qed.

Lemma dot_group_stage (s x : mstate) :
  In x (run false false (seqs [chr "."; plus digit]) s) ->
  exists u, rest s = u ++ rest x /\ pos x = pos s + length u /\ dot_group u.
Proof.
  unfold seqs. cbn [fold_right]. intros H.
  apply run_Seq_In in H as [s1 [H1 H]]. unfold chr in H1.
  apply run_Chr_In in H1 as [c [t [R1 [C1 ->]]]].
  apply exact_symbol in C1. subst c.
  apply run_Seq_In in H as [s2 [H2 H]]. apply run_Eps_In in H. subst s2.
  apply digits_stage in H2 as [ds [R2 [P2 D2]]].
  cbn [advance rest pos] in R2, P2.
  exists ("."%char :: ds). split; [|split].
  - rewrite R1, R2. reflexivity.
  - rewrite P2. simpl. lia.
  - now exists ds.
Qed.

Lemma dotted_stage (lo : nat) (s y : mstate) :
  In y (run false false (Metadata.dotted lo) s) ->
  exists v,
    rest s = v ++ rest y /\ pos y = pos s + length v /\ dotted_number v.
Proof.
  unfold Metadata.dotted, seqs. cbn [fold_right]. intros H.
  apply run_Seq_In in H as [s1 [H1 H]].
  apply digits_stage in H1 as [d [R1 [P1 D1]]].
  apply run_Seq_In in H as [s2 [H2 H]]. apply run_Eps_In in H. subst s2.
  change (run false false (Rep lo None ?b) s1)
    with (rep_loop (run false false b) lo None (S (length (rest s1))) 0 s1)
    in H2.
  apply (@rep_loop_parts (run false false (seqs [chr "."; plus digit]))
           dot_group) in H2 as [us [R2 [P2 Q2]]].
  - exists (d ++ concat us). split; [|split].
    + now rewrite R1, R2, app_assoc.
    + rewrite P2, P1, length_app. lia.
    + now exists d, us.
  - intros s0 x0 Hx. now apply dot_group_stage.
Qed.

(** A pattern that ends with its capture group. *)
Lemma group_last (prefix : list regex) (D : regex) (s e : mstate) :
  In e (run false false (seqs (prefix ++ [Grp 1 D])) s) ->
  exists x y pre,
    rest s = pre ++ rest x /\ pos x = pos s + length pre /\
    In y (run false false D x) /\ e = set_cap 1 (pos x) (pos y) y.
Proof.
  revert s. induction prefix as [|r prefix IH]; intros s H.
  - unfold seqs in H. cbn [app fold_right] in H.
    apply run_Seq_In in H as [s1 [H1 H]]. apply run_Eps_In in H. subst s1.
    apply run_Grp_In in H1 as [y [Hy ->]].
    exists s, y, []. cbn [app length]. repeat split; trivial; lia.
  - change (seqs ((r :: prefix) ++ [Grp 1 D]))
      with (Seq r (seqs (prefix ++ [Grp 1 D]))) in H.
    apply run_Seq_In in H as [s1 [H1 H]].
    destruct (@run_consumes false false r s s1 H1) as [p1 [R1 P1]].
    apply IH in H as [x [y [pre [R [P [Hy ->]]]]]].
    exists x, y, (p1 ++ pre). repeat split; trivial.
    + now rewrite R1, R, app_assoc.
    + rewrite P, P1, length_app. lia.
Qed.

Lemma version_match (prefix : list regex) (lo : nat) (content : str)
    (m : rmatch) :
  re_search false false (seqs (prefix ++ [Grp 1 (Metadata.dotted lo)])) content
    = Some m ->
  dotted_number (Metadata.group1 content m) /\
  occurs_in (Metadata.group1 content m) content.
Proof.
  unfold re_search. intros H.
  assert (Hm : In m (finditer false false
                       (seqs (prefix ++ [Grp 1 (Metadata.dotted lo)])) content)).
  { destruct (finditer _ _ _ content); [discriminate|].
    injection H as ->. now left. }
  apply finditer_In in Hm as [pre0 [s' [e [l [E [Hrun ->]]]]]].
  assert (He : In e (run false false
                       (seqs (prefix ++ [Grp 1 (Metadata.dotted lo)]))
                       (MState (length pre0) (prev_of pre0 None) s' [])))
    by (rewrite Hrun; now left).
  apply group_last in He as [x [y [pre1 [R [P [Hy ->]]]]]].
  cbn [rest pos] in R, P.
  apply dotted_stage in Hy as [v [Rv [Pv Dv]]].
  assert (G : Metadata.group1 content
                (mk_match (length pre0) (set_cap 1 (pos x) (pos y) y)) = v).
  { unfold Metadata.group1, group.
    cbn [mk_match set_cap caps m_caps lookup_cap Nat.eqb or_empty].
    rewrite E, R, Rv, app_assoc.
    apply slice_at; rewrite ?length_app; lia. }
  rewrite G. split; trivial.
  exists (pre0 ++ pre1), (rest y). now rewrite E, R, Rv, app_assoc.
Qed.

Lemma extract_version_sound (patterns : list regex) (content v : str) :
  Metadata.extract_version patterns content = Some v ->
  exists pattern m,
    In pattern patterns /\
    re_search false false pattern content = Some m /\
    v = Metadata.group1 content m.
Proof.
  induction patterns as [|p patterns IH]; cbn [Metadata.extract_version];
    [discriminate|].
  destruct (re_search false false p content) as [m|] eqn:E.
  - intros H. injection H as <-. exists p, m. repeat split; trivial. now left.
  - intros H. apply IH in H as [p' [m [H1 [H2 H3]]]].
    exists p', m. repeat split; trivial. now right.
Qed.

(** X23. A version is a dotted number that stands in the text: one or more
    digits, then any number of groups of a dot and one or more digits. *)
Theorem version_is_dotted_number (f : file) (tool content v : str) :
  Metadata.version (Metadata.metadata_of_text f tool content) = Some v ->
  dotted_number v /\ occurs_in v content.
Proof.
  unfold Metadata.metadata_of_text. cbn [Metadata.version]. intros H.
  apply extract_version_sound in H as [pattern [m [Hp [Hs ->]]]].
  unfold Metadata.VERSION_PATTERNS in Hp.
  destruct Hp as [<-|[<-|[<-|[]]]].
  - apply (@version_match
             [Chr (one_of "Vv"); lit "ersion"; plus (Chr Metadata.colon_or_space)]
             0 content m Hs).
  - apply (@version_match
             [Chr (one_of "Vv"); opt (chr "."); star space] 1 content m Hs).
  - apply (@version_match
             [Chr (one_of "Rr"); lit "evision"; plus (Chr Metadata.colon_or_space)]
             0 content m Hs).
Qed.

Lemma version_is_dotted_number_witness :
  Metadata.version
    (Metadata.metadata_of_text sample_file (txt "pandoc")
       (txt "Version: 1.2.")) = Some (txt "1.2") /\
  dotted_number (txt "1.2") /\ occurs_in (txt "1.2") (txt "Version: 1.2.").
Proof.
  assert (H : Metadata.version
                (Metadata.metadata_of_text sample_file (txt "pandoc")
                   (txt "Version: 1.2.")) = Some (txt "1.2"))
    by (vm_compute; reflexivity).
  split; [exact H|].
  exact (@version_is_dotted_number _ _ _ _ H).
Defined.

(** ** The conversion loop of run-markitdown.py *)

Lemma write_text_dir (write : str -> str -> write_result) (name text : str)
    (dir : dict str) :
  fst (write_text (write name text) name text dir) =
  fold_left (fun d kv => set_file (fst kv) (snd kv) d)
            (left_in write name text) dir.
Proof.
  unfold write_text, left_in. now destruct (write name text).
Qed.

Lemma write_text_returned (write : str -> str -> write_result)
    (name text : str) (dir : dict str) :
  snd (write_text (write name text) name text dir) = returns write name text.
Proof.
  unfold write_text, returns. now destruct (write name text).
Qed.

Lemma convert_file_state (convert : str -> str + str)
    (write : str -> str -> str -> write_result) (st : Markitdown.state)
    (file : str) :
  Markitdown.convert_file convert write st file =
  Markitdown.State
    (fold_left (fun d kv => set_file (fst kv) (snd kv) d)
               (left_by convert write file) (Markitdown.output st))
    (Markitdown.converted st
     + (if counted convert write file then 1 else 0)).
Proof.
  unfold Markitdown.convert_file, left_by, counted.
  destruct (convert file) as [text|e].
  - cbv zeta.
    rewrite <- write_text_dir,
      <- (write_text_returned (write file) _ _ (Markitdown.output st)).
    destruct (write_text _ _ _ _) as [dir [|]]; cbn [fst snd]; f_equal; lia.
  - destruct st. cbn. now rewrite Nat.add_0_r.
Qed.

Lemma convert_files_state (convert : str -> str + str)
    (write : str -> str -> str -> write_result) (files : list str)
    (st : Markitdown.state) :
  fold_left (Markitdown.convert_file convert write) files st =
  Markitdown.State
    (fold_left (fun d kv => set_file (fst kv) (snd kv) d)
               (flat_map (left_by convert write) files) (Markitdown.output st))
    (Markitdown.converted st + length (filter (counted convert write) files)).
Proof.
  revert st. induction files as [|file files IH]; intros st.
  - destruct st. cbn. now rewrite Nat.add_0_r.
  - cbn [fold_left flat_map filter]. rewrite IH, convert_file_state.
    cbn [Markitdown.output Markitdown.converted].
    rewrite fold_left_app. f_equal.
    destruct (counted convert write file); cbn [length]; lia.
Qed.

Lemma convert_documents_state (glob : str -> list str)
    (convert : str -> str + str) (write : str -> str -> str -> write_result)
    (exts : list str) (st : Markitdown.state) :
  fold_left (fun st ext =>
               fold_left (Markitdown.convert_file convert write) (glob ext) st)
            exts st =
  Markitdown.State
    (fold_left (fun d kv => set_file (fst kv) (snd kv) d)
               (flat_map (left_by convert write) (flat_map glob exts))
               (Markitdown.output st))
    (Markitdown.converted st
     + length (filter (counted convert write) (flat_map glob exts))).
Proof.
  revert st. induction exts as [|ext exts IH]; intros st.
  - destruct st. cbn. now rewrite Nat.add_0_r.
  - cbn [fold_left flat_map]. rewrite IH, convert_files_state.
    cbn [Markitdown.output Markitdown.converted].
    rewrite flat_map_app, fold_left_app, filter_app, length_app. f_equal. lia.
Qed.

Lemma dict_get_set_file (name text k : str) (d : dict str) :
  dict_get k (set_file name text d) =
  if str_eqb name k then Some text else dict_get k d.
Proof.
  unfold set_file. destruct (str_eqb name k) eqn:E.
  - apply str_eqb_eq in E. subst k. now rewrite dict_get_upd_same.
  - apply dict_get_upd_other. intros ->. now rewrite str_eqb_refl in E.
Qed.

Lemma written_last (w : list (str * str)) (d : dict str) (k : str) :
  dict_get k (fold_left (fun d kv => set_file (fst kv) (snd kv) d) w d) =
  match find (fun kv => str_eqb (fst kv) k) (rev w) with
  | Some kv => Some (snd kv)
  | None => dict_get k d
  end.
Proof.
  induction w as [|kv w IH] using rev_ind; [reflexivity|].
  rewrite fold_left_app, rev_app_distr. cbn [fold_left rev app find].
  rewrite dict_get_set_file.
  destruct (str_eqb (fst kv) k); [reflexivity|exact IH].
Qed.

Lemma written_keys (w : list (str * str)) (d : dict str) :
  keys (fold_left (fun d kv => set_file (fst kv) (snd kv) d) w d) =
  fold_left (fun s x => set_add x s) (map fst w) (keys d).
Proof.
  unfold set_file.
  apply (keys_fold_upd (fun kv : str * str => fst kv)
           (fun kv (_ : option str) => snd kv)).
Qed.

Lemma counted_left (convert : str -> str + str)
    (write : str -> str -> str -> write_result) (files : list str) :
  length (filter (counted convert write) files)
  <= length (flat_map (left_by convert write) files).
Proof.
  induction files as [|file files IH]; [reflexivity|].
  cbn [filter flat_map]. rewrite length_app.
  unfold counted at 1, left_by at 1, returns, left_in.
  destruct (convert file) as [text|e]; [|exact IH].
  destruct (write file (stem file ++ txt ".md") text); cbn [length]; lia.
Qed.

Lemma left_counted (convert : str -> str + str)
    (write : str -> str -> str -> write_result) (files : list str) :
  never_truncates write ->
  length (flat_map (left_by convert write) files)
  = length (filter (counted convert write) files).
Proof.
  intros Hw. induction files as [|file files IH]; [reflexivity|].
  cbn [filter flat_map]. rewrite length_app, IH.
  unfold counted, left_by, returns, left_in.
  destruct (convert file) as [text|e]; [|reflexivity].
  destruct (write file (stem file ++ txt ".md") text) as [|e|partial e] eqn:E;
    try reflexivity.
  exfalso. exact (Hw _ _ _ _ _ E).
Qed.

(** X24. [convert_documents] of run-markitdown.py counts one for every
    file that is converted and written without an exception.  The output
    directory then holds what it held before and a file [<stem>.md] for
    every conversion whose write opened the file, in the order they were
    first opened; the text of such a file is what the last of these
    writes left in it, and a file that none of them opens keeps its text.
    So the number of files is at most the number before the run plus the
    number of these writes, which is at least [converted], and equal to it
    when no write raises after opening its file. *)
Theorem conversion_outputs (glob : str -> list str)
    (convert : str -> str + str) (write : str -> str -> str -> write_result)
    (dir : dict str) :
  let st := Markitdown.convert_documents glob convert write dir in
  let w := flat_map (left_by convert write) (visited glob) in
  Markitdown.converted st =
    length (filter (counted convert write) (visited glob)) /\
  keys (Markitdown.output st) =
    fold_left (fun s x => set_add x s) (map fst w) (keys dir) /\
  (forall k,
     dict_get k (Markitdown.output st) =
     match find (fun kv => str_eqb (fst kv) k) (rev w) with
     | Some kv => Some (snd kv)
     | None => dict_get k dir
     end) /\
  length (keys (Markitdown.output st)) <= length (keys dir) + length w /\
  Markitdown.converted st <= length w /\
  (never_truncates write -> length w = Markitdown.converted st).
Proof.
  cbv zeta. unfold Markitdown.convert_documents, visited.
  rewrite convert_documents_state.
  cbn [Markitdown.output Markitdown.converted Nat.add].
  set (files := flat_map glob Markitdown.EXTENSIONS).
  set (w := flat_map (left_by convert write) files).
  split; [reflexivity|]. split; [apply written_keys|]. split; [|split; [|split]].
  - intros k. apply written_last.
  - rewrite written_keys. eapply Nat.le_trans; [apply length_fold_set_add|].
    now rewrite length_map.
  - apply counted_left.
  - intros Hw. now apply left_counted.
Qed.

Lemma rfind_from_none (i : nat) (found : option nat) (e : str) :
  ~ In "."%char e -> rfind_from i found e = found.
Proof.
  revert i found. induction e as [|a e IH]; intros i found H; [reflexivity|].
  cbn [rfind_from].
  destruct (ascii_eqb a ".") eqn:E.
  - apply Ascii.eqb_eq in E. subst a. exfalso. apply H. now left.
  - apply IH. intros Hin. apply H. now right.
Qed.

Lemma rfind_from_last (i : nat) (found : option nat) (base e : str) :
  ~ In "."%char e ->
  rfind_from i found (base ++ "."%char :: e) = Some (i + length base).
Proof.
  intros He. revert i found. induction base as [|a base IH]; intros i found.
  - cbn [app rfind_from length]. unfold ascii_eqb.
    rewrite Ascii.eqb_refl, Nat.add_0_r. now apply rfind_from_none.
  - cbn [app rfind_from length]. rewrite IH. f_equal. lia.
Qed.

(** The stem of a name with a plain extension. *)
Lemma stem_of_extension (base e : str) :
  base <> [] -> e <> [] -> ~ In "."%char e ->
  stem (base ++ "."%char :: e) = base.
Proof.
  intros Hb He Hn. unfold stem, rfind_dot.
  rewrite rfind_from_last by exact Hn. cbn [Nat.add].
  assert (H1 : (0 <? length base) = true).
  { apply Nat.ltb_lt. destruct base; [congruence | simpl; lia]. }
  assert (H2 : (length base <? length (base ++ "."%char :: e) - 1) = true).
  { apply Nat.ltb_lt. rewrite length_app. cbn [length].
    destruct e; [congruence | simpl; lia]. }
  rewrite H1, H2. cbn [andb].
  rewrite firstn_app, Nat.sub_diag, firstn_all. cbn [firstn].
  apply app_nil_r.
Qed.

Lemma fold_set_add_strict (x : str) (l s : list str) :
  In x s -> In x l ->
  length (fold_left (fun s x => set_add x s) l s) < length s + length l.
Proof.
  revert s. induction l as [|y l IH]; intros s Hs Hl; [destruct Hl|].
  cbn [fold_left length]. destruct Hl as [->|Hl].
  - assert (E : set_add x s = s).
    { unfold set_add. now rewrite (proj2 (str_in_In x s) Hs). }
    rewrite E. pose proof (length_fold_set_add l s). lia.
  - assert (Hs' : In x (set_add y s)) by (apply set_add_In; now right).
    specialize (IH _ Hs' Hl). pose proof (length_set_add y s). lia.
Qed.

Lemma left_by_In (convert : str -> str + str)
    (write : str -> str -> str -> write_result) (files : list str)
    (file text : str) :
  In file files -> convert file = inl text ->
  write file (stem file ++ txt ".md") text = Written ->
  In (stem file ++ txt ".md")
     (map fst (flat_map (left_by convert write) files)).
Proof.
  intros Hin Hc Hw. apply in_map_iff.
  exists (stem file ++ txt ".md", text). split; [reflexivity|].
  apply in_flat_map. exists file. split; trivial.
  unfold left_by, left_in. rewrite Hc, Hw. now left.
Qed.

(** X25. A Word and a PDF file with the same stem that are both converted
    and written go to the same output file: when no write raises after
    opening its file, a run into an empty directory leaves fewer files
    than the [converted] count it reports. *)
Theorem same_stem_counted_twice (glob : str -> list str)
    (convert : str -> str + str) (write : str -> str -> str -> write_result)
    (base t1 t2 : str) :
  base <> [] ->
  In (base ++ txt ".docx") (glob (txt ".docx")) ->
  In (base ++ txt ".pdf") (glob (txt ".pdf")) ->
  convert (base ++ txt ".docx") = inl t1 ->
  convert (base ++ txt ".pdf") = inl t2 ->
  write (base ++ txt ".docx") (base ++ txt ".md") t1 = Written ->
  write (base ++ txt ".pdf") (base ++ txt ".md") t2 = Written ->
  never_truncates write ->
  let st := Markitdown.convert_documents glob convert write [] in
  In (base ++ txt ".md") (keys (Markitdown.output st)) /\
  length (keys (Markitdown.output st)) < Markitdown.converted st.
Proof.
  intros Hb G1 G2 C1 C2 W1 W2 Hw.
  destruct (conversion_outputs glob convert write [])
    as [_ [Hk [_ [_ [_ Hc]]]]].
  cbv zeta in Hk, Hc |- *. rewrite Hk, <- (Hc Hw). clear Hk Hc.
  assert (S1 : stem (base ++ txt ".docx") = base).
  { apply (@stem_of_extension base (txt "docx")); trivial; [discriminate|].
    intros H. repeat (destruct H as [H|H]; [discriminate H|]). destruct H. }
  assert (S2 : stem (base ++ txt ".pdf") = base).
  { apply (@stem_of_extension base (txt "pdf")); trivial; [discriminate|].
    intros H. repeat (destruct H as [H|H]; [discriminate H|]). destruct H. }
  assert (L1 : In (base ++ txt ".md")
                  (map fst (flat_map (left_by convert write)
                                     (glob (txt ".docx"))))).
  { rewrite <- S1 at 1. apply (left_by_In convert write _ _ G1 C1).
    now rewrite S1. }
  assert (L2 : In (base ++ txt ".md")
                  (map fst (flat_map (left_by convert write)
                                     (glob (txt ".pdf"))))).
  { rewrite <- S2 at 1. apply (left_by_In convert write _ _ G2 C2).
    now rewrite S2. }
  set (A := map fst (flat_map (left_by convert write) (glob (txt ".docx")))) in *.
  set (B := map fst (flat_map (left_by convert write) (glob (txt ".pdf")))) in *.
  set (R := map fst (flat_map (left_by convert write)
                       (flat_map glob (tl (tl Markitdown.EXTENSIONS))))).
  assert (E : map fst (flat_map (left_by convert write) (visited glob))
              = A ++ (B ++ R)).
  { unfold A, B, R, visited. cbn [Markitdown.EXTENSIONS flat_map tl].
    now rewrite !flat_map_app, !map_app. }
  rewrite <- (length_map fst), E, fold_left_app, length_app. cbn [keys map].
  fold (to_set A). split.
  - apply fold_set_add_In. right. now apply to_set_In.
  - pose proof (length_to_set A) as HA.
    assert (HB : In (base ++ txt ".md") (B ++ R)) by (apply in_or_app; now left).
    pose proof (@fold_set_add_strict (base ++ txt ".md") (B ++ R) (to_set A)
                  (proj2 (to_set_In A _) L1) HB).
    lia.
Qed.

Lemma same_stem_counted_twice_witness :
  In (txt "policy" ++ txt ".docx") (two_versions (txt ".docx")) /\
  In (txt "policy" ++ txt ".pdf") (two_versions (txt ".pdf")) /\
  echo (txt "policy" ++ txt ".docx") = inl (txt "# policy.docx") /\
  echo (txt "policy" ++ txt ".pdf") = inl (txt "# policy.pdf") /\
  never_truncates all_written /\
  let st := Markitdown.convert_documents two_versions echo all_written [] in
  In (txt "policy" ++ txt ".md") (keys (Markitdown.output st)) /\
  length (keys (Markitdown.output st)) < Markitdown.converted st.
Proof.
  assert (H1 : In (txt "policy" ++ txt ".docx") (two_versions (txt ".docx")))
    by (right; left; reflexivity).
  assert (H2 : In (txt "policy" ++ txt ".pdf") (two_versions (txt ".pdf")))
    by (left; reflexivity).
  assert (H3 : echo (txt "policy" ++ txt ".docx") = inl (txt "# policy.docx"))
    by reflexivity.
  assert (H4 : echo (txt "policy" ++ txt ".pdf") = inl (txt "# policy.pdf"))
    by reflexivity.
  assert (H5 : never_truncates all_written)
    by (intros file name text partial error; discriminate).
  split; [exact H1|]. split; [exact H2|]. split; [exact H3|].
  split; [exact H4|]. split; [exact H5|].
  apply (@same_stem_counted_twice two_versions echo all_written (txt "policy")
           (txt "# policy.docx") (txt "# policy.pdf")); trivial.
  discriminate.
Defined.

(** ** The conversion loop of run-docling.py *)

Lemma docling_file_state (convert : str -> (str * (str + str)) + str)
    (write write_json : str -> str -> str -> write_result) (st : Docling.state)
    (file : str) :
  Docling.convert_file convert write write_json st file =
  Docling.State
    (fold_left (fun d kv => set_file (fst kv) (snd kv) d)
               (markdown_left convert write file) (Docling.markdown st))
    (fold_left (fun d kv => set_file (fst kv) (snd kv) d)
               (json_left convert write write_json file) (Docling.json st))
    (Docling.converted st
     + (if markdown_counted convert write file then 1 else 0)).
Proof.
  unfold Docling.convert_file, markdown_left, json_left, markdown_counted.
  destruct (convert file) as [[text doc]|e].
  - cbv zeta.
    rewrite <- write_text_dir,
      <- (write_text_returned (write file) _ _ (Docling.markdown st)).
    destruct (write_text _ _ _ (Docling.markdown st)) as [dir [|]];
      cbn [fst snd].
    + destruct doc as [j|e].
      * rewrite write_text_dir. f_equal. lia.
      * cbn [fold_left]. f_equal. lia.
    + destruct doc as [j|e]; cbn [fold_left]; f_equal; lia.
  - destruct st. cbn. now rewrite Nat.add_0_r.
Qed.

Lemma docling_files_state (convert : str -> (str * (str + str)) + str)
    (write write_json : str -> str -> str -> write_result) (files : list str)
    (st : Docling.state) :
  fold_left (Docling.convert_file convert write write_json) files st =
  Docling.State
    (fold_left (fun d kv => set_file (fst kv) (snd kv) d)
               (flat_map (markdown_left convert write) files)
               (Docling.markdown st))
    (fold_left (fun d kv => set_file (fst kv) (snd kv) d)
               (flat_map (json_left convert write write_json) files)
               (Docling.json st))
    (Docling.converted st
     + length (filter (markdown_counted convert write) files)).
Proof.
  revert st. induction files as [|file files IH]; intros st.
  - destruct st. cbn. now rewrite Nat.add_0_r.
  - cbn [fold_left flat_map filter]. rewrite IH, docling_file_state.
    cbn [Docling.markdown Docling.json Docling.converted].
    rewrite !fold_left_app. f_equal.
    destruct (markdown_counted convert write file); cbn [length]; lia.
Qed.

Lemma docling_documents_state (glob : str -> list str)
    (convert : str -> (str * (str + str)) + str)
    (write write_json : str -> str -> str -> write_result) (exts : list str)
    (st : Docling.state) :
  fold_left (fun st ext =>
               fold_left (Docling.convert_file convert write write_json)
                         (glob ext) st)
            exts st =
  Docling.State
    (fold_left (fun d kv => set_file (fst kv) (snd kv) d)
               (flat_map (markdown_left convert write) (flat_map glob exts))
               (Docling.markdown st))
    (fold_left (fun d kv => set_file (fst kv) (snd kv) d)
               (flat_map (json_left convert write write_json)
                         (flat_map glob exts))
               (Docling.json st))
    (Docling.converted st
     + length (filter (markdown_counted convert write) (flat_map glob exts))).
Proof.
  revert st. induction exts as [|ext exts IH]; intros st.
  - destruct st. cbn. now rewrite Nat.add_0_r.
  - cbn [fold_left flat_map]. rewrite IH, docling_files_state.
    cbn [Docling.markdown Docling.json Docling.converted].
    rewrite !flat_map_app, !fold_left_app, filter_app, length_app.
    f_equal. lia.
Qed.

Lemma str_in_map_inj (g : str -> str) (x : str) (s : list str) :
  (forall a b, g a = g b -> a = b) ->
  str_in (g x) (map g s) = str_in x s.
Proof.
  intros Hg. destruct (str_in x s) eqn:E.
  - apply str_in_In. apply str_in_In in E. now apply in_map.
  - destruct (str_in (g x) (map g s)) eqn:E'; trivial.
    apply str_in_In in E'. apply in_map_iff in E' as [y [Hy Hin]].
    apply Hg in Hy. subst y. apply str_in_In in Hin. congruence.
Qed.

Lemma fold_set_add_map (g : str -> str) (l s : list str) :
  (forall a b, g a = g b -> a = b) ->
  fold_left (fun s x => set_add x s) (map g l) (map g s) =
  map g (fold_left (fun s x => set_add x s) l s).
Proof.
  intros Hg. revert s. induction l as [|x l IH]; intros s; [reflexivity|].
  cbn [map fold_left]. rewrite <- IH. f_equal.
  unfold set_add. rewrite (str_in_map_inj _ _ _ Hg).
  destruct (str_in x s); [reflexivity|]. now rewrite map_app.
Qed.

Lemma to_set_map (g : str -> str) (l : list str) :
  (forall a b, g a = g b -> a = b) ->
  to_set (map g l) = map g (to_set l).
Proof. intros Hg. apply (fold_set_add_map g l [] Hg). Qed.

(** The names of the files that are left, by the stems of the inputs. *)
Lemma left_names (A : Type) (left : str -> list (str * A)) (ext : str)
    (files : list str) :
  (forall file kv, In kv (left file) -> left file = [kv]) ->
  (forall file kv, In kv (left file) -> fst kv = stem file ++ ext) ->
  map fst (flat_map left files) =
  map (fun s => s ++ ext)
      (map stem (filter (fun file => nonempty (left file)) files)).
Proof.
  intros H1 H2. induction files as [|file files IH]; [reflexivity|].
  cbn [flat_map filter]. rewrite map_app, IH.
  destruct (left file) as [|kv l] eqn:E; [reflexivity|].
  assert (Hin : In kv (left file)) by (rewrite E; now left).
  pose proof (H1 _ _ Hin) as E1. rewrite E in E1. injection E1 as ->.
  cbn [nonempty map app]. now rewrite (H2 _ _ Hin).
Qed.

Lemma left_in_one (write : str -> str -> write_result) (name text : str)
    (kv : str * str) :
  In kv (left_in write name text) ->
  left_in write name text = [kv] /\ fst kv = name.
Proof.
  unfold left_in. destruct (write name text); intros H;
    try (destruct H as [<-|[]]; now split); destruct H.
Qed.

(** X26. In a run of [convert_documents] of run-docling.py into empty
    directories, [converted] is the number of files that are converted,
    exported to markdown and written without an exception; every file
    [<stem>.json] of the directory [json] has its file [<stem>.md] in the
    output directory; there are no more JSON files than markdown files;
    and when no write of a markdown file raises after opening it, there
    are no more markdown files than [converted]. *)
Theorem docling_json_has_markdown (glob : str -> list str)
    (convert : str -> (str * (str + str)) + str)
    (write write_json : str -> str -> str -> write_result) :
  let st := Docling.convert_documents glob convert write write_json [] [] in
  let files := flat_map glob Docling.EXTENSIONS in
  Docling.converted st =
    length (filter (markdown_counted convert write) files) /\
  (forall k, In k (keys (Docling.json st)) ->
     exists s, k = s ++ txt ".json" /\
               In (s ++ txt ".md") (keys (Docling.markdown st))) /\
  length (keys (Docling.json st)) <= length (keys (Docling.markdown st)) /\
  (never_truncates write ->
   length (keys (Docling.markdown st)) <= Docling.converted st).
Proof.
  cbv zeta. unfold Docling.convert_documents.
  rewrite docling_documents_state.
  cbn [Docling.markdown Docling.json Docling.converted Nat.add].
  set (files := flat_map glob Docling.EXTENSIONS).
  rewrite !written_keys. cbn [keys map].
  rewrite (@left_names str (json_left convert write write_json) (txt ".json")),
          (@left_names str (markdown_left convert write) (txt ".md")).
  2: { intros file kv H. unfold markdown_left in *.
       destruct (convert file) as [[text doc]|e]; [|destruct H].
       now apply left_in_one in H. }
  2: { intros file kv H. unfold markdown_left in *.
       destruct (convert file) as [[text doc]|e]; [|destruct H].
       now apply left_in_one in H. }
  2: { intros file kv H. unfold json_left in *.
       destruct (convert file) as [[text [doc|e]]|e]; try destruct H.
       destruct (returns _ _ text); [|destruct H].
       now apply left_in_one in H. }
  2: { intros file kv H. unfold json_left in *.
       destruct (convert file) as [[text [doc|e]]|e]; try destruct H.
       destruct (returns _ _ text); [|destruct H].
       now apply left_in_one in H. }
  set (J := map stem (filter (fun file =>
                                nonempty (json_left convert write write_json file))
                             files)).
  set (M := map stem (filter (fun file =>
                                nonempty (markdown_left convert write file))
                             files)).
  assert (Hsub : forall s, In s J -> In s M).
  { intros s H. unfold J, M in *. apply in_map_iff in H as [f [<- Hf]].
    apply in_map. apply filter_In in Hf as [Hf Hc]. apply filter_In.
    split; trivial. unfold json_left, markdown_left, returns, left_in in *.
    destruct (convert f) as [[text [doc|e]]|e]; try discriminate.
    destruct (write f (stem f ++ txt ".md") text);
      [reflexivity|discriminate..]. }
  fold (to_set (map (fun s => s ++ txt ".json") J)).
  fold (to_set (map (fun s => s ++ txt ".md") M)).
  rewrite !to_set_map by (intros a b; apply app_inv_tail).
  split; [reflexivity|]. split; [|split].
  - intros k Hk. apply in_map_iff in Hk as [s [<- Hs]].
    exists s. split; [reflexivity|].
    apply (in_map (fun s : str => s ++ txt ".md")).
    apply to_set_In, Hsub. now apply (proj1 (to_set_In J s)).
  - rewrite !length_map. apply NoDup_incl_length; [apply to_set_NoDup|].
    intros s Hs. apply to_set_In, Hsub. now apply (proj1 (to_set_In J s)).
  - intros Hw. rewrite length_map.
    eapply Nat.le_trans; [apply length_to_set|].
    unfold M. rewrite length_map.
    assert (E : forall file,
              nonempty (markdown_left convert write file) =
              markdown_counted convert write file).
    { intros file. unfold markdown_left, markdown_counted, left_in, returns.
      destruct (convert file) as [[text doc]|e]; [|reflexivity].
      destruct (write file (stem file ++ txt ".md") text)
        as [|e|partial e] eqn:Ew; try reflexivity.
      exfalso. exact (Hw _ _ _ _ _ Ew). }
    rewrite (filter_ext _ _ E). lia.
Qed.
